(** * pianobar-save: the player thread of [src/player.c]

    A shallow embedding of the playback worker (open, filter, device, decode
    loop, teardown, retry, recording tee) together with the properties of its
    control flow.

    The worker talks to three kinds of outside parties: the libav* / libao
    libraries, the file system, and the controlling thread that writes the
    shared flags [doQuit] and [doPause].  Their answers are not computed by
    [player.c]; the embedding takes them from a script (one record per call
    site, in program order) and records every externally visible action in a
    trace of events.  The functions below are the C functions with this
    script as an extra argument and the trace as an extra result.

    The worker reads the shared flags at fixed places only ([doQuit] in the
    loop tests, [doPause] in the pause gate).  The writes of the controlling
    thread are therefore placed in the script at the places where they land
    between two actions of the worker: before a loop test, during a wait in
    the pause gate, before a decode call.  A function that loops returns
    [None] when the script ends before the loop does. *)

From Stdlib Require Import ZArith List String Ascii Bool Lia QArith Qabs.
Import ListNotations.
Local Open Scope string_scope.
Local Open Scope list_scope.
Local Open Scope Z_scope.

Local Infix "+++" := String.append (right associativity, at level 60).

(** ** Library types and constants *)

(** [AVRational]: a pair of C [int]s. *)
Record AVRational := mkRational { num : Z; den : Z }.

(** The value a rational stands for. *)
Definition av_q (r : AVRational) : Q := (inject_Z (num r) / inject_Z (den r))%Q.

(** What the worker reads of an input stream: the stream's own time base and
    the time base of its codec context. *)
Record AVStream := mkStream { time_base : AVRational; codec_time_base : AVRational }.

(** The fields of [AVPacket] the worker uses. *)
Record AVPacket := mkPacket { stream_index : Z; pts : Z; dts : Z; size : Z }.

(** The output context of the recording: time base of its single stream
    ([ofcx->streams[0]->time_base]) and the id of that stream ([ost->id]). *)
Record AVOutput := mkOutput { out_time_base : AVRational; ost_id : Z }.

(** A buffer pulled from the filter sink, as handed to [ao_play]. *)
Record AVFilterBuffer := mkBuffer
  { data0 : list Byte.byte; nb_samples : Z; numChannels : Z; bps : Z }.

(** libavutil error codes: [FFERRTAG(a,b,c,d) = -(a | b<<8 | c<<16 | d<<24)]. *)
Definition FFERRTAG (a b c d : Z) : Z :=
  - (Z.lor a (Z.lor (Z.shiftl b 8) (Z.lor (Z.shiftl c 16) (Z.shiftl d 24)))).
Definition AVERROR_INVALIDDATA : Z := FFERRTAG 73 78 68 65.  (* 'I','N','D','A' *)
Definition AVERROR_EOF : Z := FFERRTAG 69 79 70 32.          (* 'E','O','F',' ' *)
Definition AVERROR_EXIT : Z := FFERRTAG 69 88 73 84.         (* 'E','X','I','T' *)
Definition AV_NOPTS_VALUE : Z := - 2 ^ 63.
Definition INT64_MIN : Z := - 2 ^ 63.
Definition INT64_MAX : Z := 2 ^ 63 - 1.

(** The values of a C [int] and of an [int64_t]. *)
Definition is_int (z : Z) : bool := (- 2 ^ 31 <=? z) && (z <=? 2 ^ 31 - 1).
Definition is_int64 (z : Z) : bool := (INT64_MIN <=? z) && (z <=? INT64_MAX).

(** [av_rescale_q (a, bq, cq)] belongs to libavutil, not to this repository;
    this is its documented contract: [a * bq / cq] as an [int64_t], rounded
    to the nearest integer with halves away from zero ([av_rescale_rnd] with
    [AV_ROUND_NEAR_INF], applied to [-a] for a negative [a]).  The contract
    covers an [int64_t] [a] other than [INT64_MIN] (which is
    [AV_NOPTS_VALUE]), a factor [b >= 0], a divisor [c > 0] and a result that
    is an [int64_t]; everywhere else the releases of the library differ
    (assertion, [INT64_MIN], a wrapped value) and the result is [None]: a
    value this development says nothing about. *)
Definition av_rescale_rnd (a b c : Z) : option Z :=
  if negb (is_int64 a) || (a =? INT64_MIN) || (c <=? 0) || (b <? 0) then None
  else
    let r := (Z.abs a * b + c / 2) / c in
    if INT64_MAX <? r then None
    else Some (if a <? 0 then - r else r).

(** The two products are taken on [int]s widened to [int64_t]. *)
Definition av_rescale_q (a : Z) (bq cq : AVRational) : option Z :=
  if is_int (num bq) && is_int (den bq) && is_int (num cq) && is_int (den cq)
  then av_rescale_rnd a (num bq * den cq) (num cq * den bq)
  else None.

(** ** The session descriptor *)

(** Modelled from the spec: [player.h] is not among the sources; the mode is
    one of OPENING, PLAYING, FINISHED and the result one of OK, SOFTFAIL,
    HARDFAIL. *)
Inductive BarPlayerMode := PLAYER_OPENING | PLAYER_PLAYING | PLAYER_FINISHED.
Inductive BarPlayerRet := PLAYER_RET_OK | PLAYER_RET_SOFTFAIL | PLAYER_RET_HARDFAIL.

(** [player_t], restricted to the fields [player.c] reads or writes.  A
    pointer is an [option] ([None] is NULL or, for [ofcx], never assigned);
    [aoDev] and [fgraph] only matter as NULL / non-NULL.  The floating point
    progress fields [songPlayed] and [songDuration] are write-only in this
    file and are left out. *)
Record player_t := mkPlayer
  { url : string; station : string; artist : string; title : string;
    save_dir : option string;
    ping : Z;
    fctx : option (list AVStream);
    streamIdx : Z;
    st : option AVStream;
    lastTimestamp : Z;
    mode : BarPlayerMode;
    doQuit : bool;
    doPause : bool;
    save_file : bool;
    tmp_filename : string;
    save_complete : string;
    ofcx : option AVOutput;
    aoDev : bool;
    fgraph : bool }.

Definition set_ping v (p : player_t) : player_t :=
  let 'mkPlayer u sn ar ti sd _ fc si s lt m dq dp sf tf sc oc ao fg := p in
  mkPlayer u sn ar ti sd v fc si s lt m dq dp sf tf sc oc ao fg.

Definition set_fctx v (p : player_t) : player_t :=
  let 'mkPlayer u sn ar ti sd pg _ si s lt m dq dp sf tf sc oc ao fg := p in
  mkPlayer u sn ar ti sd pg v si s lt m dq dp sf tf sc oc ao fg.

Definition set_streamIdx v (p : player_t) : player_t :=
  let 'mkPlayer u sn ar ti sd pg fc _ s lt m dq dp sf tf sc oc ao fg := p in
  mkPlayer u sn ar ti sd pg fc v s lt m dq dp sf tf sc oc ao fg.

Definition set_st v (p : player_t) : player_t :=
  let 'mkPlayer u sn ar ti sd pg fc si _ lt m dq dp sf tf sc oc ao fg := p in
  mkPlayer u sn ar ti sd pg fc si v lt m dq dp sf tf sc oc ao fg.

Definition set_lastTimestamp v (p : player_t) : player_t :=
  let 'mkPlayer u sn ar ti sd pg fc si s _ m dq dp sf tf sc oc ao fg := p in
  mkPlayer u sn ar ti sd pg fc si s v m dq dp sf tf sc oc ao fg.

Definition set_mode v (p : player_t) : player_t :=
  let 'mkPlayer u sn ar ti sd pg fc si s lt _ dq dp sf tf sc oc ao fg := p in
  mkPlayer u sn ar ti sd pg fc si s lt v dq dp sf tf sc oc ao fg.

Definition set_doQuit v (p : player_t) : player_t :=
  let 'mkPlayer u sn ar ti sd pg fc si s lt m _ dp sf tf sc oc ao fg := p in
  mkPlayer u sn ar ti sd pg fc si s lt m v dp sf tf sc oc ao fg.

Definition set_doPause v (p : player_t) : player_t :=
  let 'mkPlayer u sn ar ti sd pg fc si s lt m dq _ sf tf sc oc ao fg := p in
  mkPlayer u sn ar ti sd pg fc si s lt m dq v sf tf sc oc ao fg.

Definition set_save_file v (p : player_t) : player_t :=
  let 'mkPlayer u sn ar ti sd pg fc si s lt m dq dp _ tf sc oc ao fg := p in
  mkPlayer u sn ar ti sd pg fc si s lt m dq dp v tf sc oc ao fg.

Definition set_tmp_filename v (p : player_t) : player_t :=
  let 'mkPlayer u sn ar ti sd pg fc si s lt m dq dp sf _ sc oc ao fg := p in
  mkPlayer u sn ar ti sd pg fc si s lt m dq dp sf v sc oc ao fg.

Definition set_save_complete v (p : player_t) : player_t :=
  let 'mkPlayer u sn ar ti sd pg fc si s lt m dq dp sf tf _ oc ao fg := p in
  mkPlayer u sn ar ti sd pg fc si s lt m dq dp sf tf v oc ao fg.

Definition set_ofcx v (p : player_t) : player_t :=
  let 'mkPlayer u sn ar ti sd pg fc si s lt m dq dp sf tf sc _ ao fg := p in
  mkPlayer u sn ar ti sd pg fc si s lt m dq dp sf tf sc v ao fg.

Definition set_aoDev v (p : player_t) : player_t :=
  let 'mkPlayer u sn ar ti sd pg fc si s lt m dq dp sf tf sc oc _ fg := p in
  mkPlayer u sn ar ti sd pg fc si s lt m dq dp sf tf sc oc v fg.

Definition set_fgraph v (p : player_t) : player_t :=
  let 'mkPlayer u sn ar ti sd pg fc si s lt m dq dp sf tf sc oc ao _ := p in
  mkPlayer u sn ar ti sd pg fc si s lt m dq dp sf tf sc oc ao v.

(** ** The controlling thread *)

(** Modelled from the spec: the controller API ([requestPause],
    [requestResume], [requestQuit]) lives outside [player.c]; it writes the
    shared flags [doPause] and [doQuit], and [doQuit] is only ever set. *)
Inductive caller_act := RequestPause | RequestResume | RequestQuit.

Definition caller_step (p : player_t) (a : caller_act) : player_t :=
  match a with
  | RequestPause => set_doPause true p
  | RequestResume => set_doPause false p
  | RequestQuit => set_doQuit true p
  end.

Definition callers (acts : list caller_act) (p : player_t) : player_t :=
  fold_left caller_step acts p.

(** ** Events *)

Inductive event :=
| EvCaller (a : caller_act)            (* the controlling thread wrote a flag *)
| EvPing (now : Z)                     (* player->ping = av_gettime () *)
| EvOpenInput (u : string) (ret : Z)   (* avformat_open_input *)
| EvFindStreamInfo (ret : Z)           (* avformat_find_stream_info *)
| EvFindBestStream (ret : Z)           (* av_find_best_stream *)
| EvSeekFrame (idx ts : Z)             (* av_seek_frame *)
| EvReadFrame (ret : Z) (pkt : AVPacket) (* av_read_frame *)
| EvCall (name : string) (ret : Z)     (* any other library call *)
| EvMsg (msg : string)                 (* BarUiMsg (MSG_ERR, ...) *)
| EvStat (path : string) (ret : Z)
| EvMkdir (path : string) (ret : Z)
| EvAccess (path : string) (ret : Z)
| EvAvioOpen (path : string)           (* avio_open2 (.., AVIO_FLAG_WRITE, ..) *)
| EvWriteHeader                        (* avformat_write_header *)
| EvWriteFrame (idx : Z) (opts odts : option Z) (* av_write_frame *)
| EvReadPlay | EvReadPause | EvCondWait
| EvDecode (ret : Z)                   (* avcodec_decode_audio4 *)
| EvAoPlay (buf : list Byte.byte) (nbytes : Z)
| EvAoClose | EvGraphFree | EvCodecClose | EvCloseInput
| EvWriteTrailer | EvFreeContext | EvAvioClose
| EvSystem (cmd : string).

Definition trace := list event.

(** Prefix the trace of a continuation that may not return. *)
Definition prepend {A B : Type} (tr : trace) (r : option (A * B * trace))
  : option (A * B * trace) :=
  match r with
  | Some (a, b, tr') => Some (a, b, tr ++ tr')
  | None => None
  end.

(** ** Building the recording paths *)

(** The loop of [openStream] that overwrites every ['/'] of [save_filename]
    with a blank. *)
Fixpoint replace_slash (s : string) : string :=
  match s with
  | EmptyString => EmptyString
  | String c s' => String (if Ascii.eqb c "/" then " "%char else c) (replace_slash s')
  end.

(** [s[strlen (s) - 1]]; for the empty string the C expression reads the byte
    in front of the buffer, here [stray]. *)
Fixpoint last_char (stray : ascii) (s : string) : ascii :=
  match s with
  | EmptyString => stray
  | String c s' => last_char c s'
  end.

(** [save_path] after the first step: the save directory, with a ['/']
    unless it ends in one. *)
Definition save_base (stray : ascii) (dir : string) : string :=
  if Ascii.eqb (last_char stray dir) "/" then dir else dir +++ "/".

(** What [sprintf (save_path, "%s%s/", save_path, station)] leaves in
    [save_path] when the library formats its arguments before it overwrites
    the buffer.  The call writes to the buffer it reads from, which C leaves
    undefined: what it really leaves is an answer of the script
    ([o_sprintf_overlap] below), and this value is one possible answer. *)
Definition save_path_of (stray : ascii) (dir stn : string) : string :=
  save_base stray dir +++ stn +++ "/".

Definition save_filename_of (art tit : string) : string :=
  replace_slash (art +++ " - " +++ tit +++ ".aac").

Definition dquote : string := String (ascii_of_nat 34) EmptyString.

(** The command line handed to [system]. *)
Definition mv_command (src dst : string) : string :=
  "mv " +++ dquote +++ src +++ dquote +++ " " +++ dquote +++ dst +++ dquote.

(** ** Scripts: what the outside answers *)

(** A path buffer of [openStream] is a [char [1000]]: a string fits with its
    terminating NUL. *)
Definition fits (s : string) : bool := (String.length s <? 1000)%nat.

(** Answers during one call of [openStream], in program order.  [o_now_*]
    are the readings of [av_gettime] taken by the pings; [o_streams] is the
    stream table of the opened input; [o_sprintf_overlap] is what the C
    library's [sprintf] leaves in [save_path] when called with [save_path]
    both as destination and as first argument (given the old content and the
    station name); [o_mkdir] is the result of [mkdir], which the worker does
    not look at; [o_write_header] is what the muxer makes of the time base
    proposed for the output stream. *)
Record open_io := mkOpenIo
  { o_now_open : Z; o_open_input : Z;
    o_streams : list AVStream;
    o_now_probe : Z; o_find_stream_info : Z;
    o_now_best : Z; o_find_best_stream : Z;
    o_find_decoder : bool;
    o_codec_open2 : Z;
    o_now_seek : Z;
    o_stray_byte : ascii;
    o_sprintf_overlap : string -> string -> string;
    o_stat : Z;
    o_mkdir : Z;
    o_access : Z;
    o_ost_id : Z;
    o_write_header : AVRational -> AVRational }.

(** Answers during one call of [openFilter]. *)
Record filter_io := mkFilterIo
  { f_graph_alloc : bool;
    f_abuffer : Z; f_volume : Z; f_set_volume : Z; f_aformat : Z; f_abuffersink : Z;
    f_link1 : Z; f_link2 : Z; f_link3 : Z;
    f_graph_config : Z }.

(** One call of [avcodec_decode_audio4] and what follows it: the flag writes
    of the controlling thread that land before the call, the return value,
    [got_frame], and the buffers the filter sink yields for the frame. *)
Record decode_io := mkDecodeIo
  { d_caller : list caller_act;
    d_decoded : Z;
    d_got_frame : Z;
    d_filtered : list AVFilterBuffer }.

(** One iteration of the loop of [play]: the flag writes since the previous
    test of [doQuit], the clock, the return value of [av_read_frame] and the
    packet it delivers, the flag writes that land during each
    [pthread_cond_wait] of the pause gate, and the decode calls. *)
Record packet_io := mkPacketIo
  { k_caller : list caller_act;
    k_now : Z;
    k_read : Z;
    k_pkt : AVPacket;
    k_waits : list (list caller_act);
    k_decode : list decode_io }.

(** One round of the retry loop of [BarPlayerThread]. *)
Record session_io := mkSessionIo
  { s_open : open_io;
    s_filter : filter_io;
    s_device : bool;                 (* ao_open_live returned non-NULL *)
    s_play : list packet_io }.

(** ** The worker *)

Section Build.

(** The two configuration macros the control flow depends on. *)
Variable HAVE_AV_TIMEOUT : bool.
Variable HAVE_AVFILTER_GRAPH_SEND_COMMAND : bool.

(** [intCb]: the interrupt callback; the subtraction is done on [int64_t]. *)
Definition wrap64 (z : Z) : Z := (z + 2 ^ 63) mod 2 ^ 64 - 2 ^ 63.

Definition intCb (now : Z) (player : player_t) : bool :=
  10 * 1000000 <? wrap64 (now - ping player).

(** The macro [ping ()]. *)
Definition ping_now (now : Z) (player : player_t) : player_t * trace :=
  if HAVE_AV_TIMEOUT then (player, []) else (set_ping now player, [EvPing now]).

(** [printError] followed by [return false] (the macro [softfail]). *)
Definition softfail (player : player_t) (tr : trace) (msg : string)
  : bool * player_t * trace := (false, player, tr ++ [EvMsg msg]).

(** [BarPlayerSetVolume]: an error is reported and otherwise ignored. *)
Definition BarPlayerSetVolume (ret : Z) : trace :=
  EvCall "set_volume" ret ::
  (if (if HAVE_AVFILTER_GRAPH_SEND_COMMAND then ret <? 0 else negb (ret =? 0))
   then [EvMsg "Cannot set volume"] else []).

Definition garbage_stream : AVStream := mkStream (mkRational 0 0) (mkRational 0 0).

(** The recording part of [openStream] (from [char *save_dir] on). *)
Definition openStream_save (player : player_t) (io : open_io) : player_t * trace :=
  match save_dir player with
  | None => (set_ofcx None (set_save_file false player), [])
  | Some dir =>
    let save_path := save_base (o_stray_byte io) dir in
    let save_path := o_sprintf_overlap io save_path (station player) in
    let tr_dir := EvStat save_path (o_stat io) ::
                  (if o_stat io =? -1 then [EvMkdir save_path (o_mkdir io)] else []) in
    let save_filename := save_filename_of (artist player) (title player) in
    let tmp := "/tmp/" +++ save_filename in
    let save_complete := save_path +++ save_filename in
    let player := set_save_complete save_complete (set_tmp_filename tmp player) in
    let tr_acc := tr_dir ++ [EvAccess save_complete (o_access io)] in
    if negb (o_access io =? -1) then
      (set_ofcx None (set_save_file false player), tr_acc)
    else
      let tb := match st player with
                | Some s => time_base s
                | None => time_base garbage_stream
                end in
      let out := mkOutput (o_write_header io tb) (o_ost_id io) in
      (set_ofcx (Some out) (set_save_file true player),
       tr_acc ++ [EvAvioOpen tmp; EvWriteHeader])
  end.

(** [openStream].  A failed [avformat_open_input] leaves [fctx] NULL (the
    library frees a context allocated beforehand); the loop that marks every
    stream as discarded has no effect the worker observes. *)
Definition openStream (player : player_t) (io : open_io) : bool * player_t * trace :=
  let '(player, tr) := ping_now (o_now_open io) player in
  let tr := tr ++ [EvOpenInput (url player) (o_open_input io)] in
  if o_open_input io <? 0 then
    softfail (set_fctx None player) tr "Unable to open audio file"
  else
  let player := set_fctx (Some (o_streams io)) player in
  let '(player, tr1) := ping_now (o_now_probe io) player in
  let tr := tr ++ tr1 ++ [EvFindStreamInfo (o_find_stream_info io)] in
  if o_find_stream_info io <? 0 then softfail player tr "find_stream_info" else
  let '(player, tr1) := ping_now (o_now_best io) player in
  let player := set_streamIdx (o_find_best_stream io) player in
  let tr := tr ++ tr1 ++ [EvFindBestStream (o_find_best_stream io)] in
  if streamIdx player <? 0 then softfail player tr "find_best_stream" else
  let player :=
    set_st (Some (nth (Z.to_nat (streamIdx player)) (o_streams io) garbage_stream))
           player in
  if negb (o_find_decoder io) then softfail player tr "find_decoder" else
  let tr := tr ++ [EvCall "avcodec_open2" (o_codec_open2 io)] in
  if o_codec_open2 io <? 0 then softfail player tr "codec_open2" else
  let '(player, tr1) :=
    if lastTimestamp player >? 0 then
      let '(player, tr1) := ping_now (o_now_seek io) player in
      (player, tr1 ++ [EvSeekFrame (streamIdx player) (lastTimestamp player)])
    else (player, []) in
  let player := set_mode PLAYER_PLAYING player in
  let '(player, tr2) := openStream_save player io in
  (true, player, tr ++ tr1 ++ tr2).

(** [openFilter]: abuffer -> volume -> aformat -> abuffersink. *)
Definition openFilter (player : player_t) (io : filter_io) : bool * player_t * trace :=
  if negb (f_graph_alloc io) then
    softfail (set_fgraph false player) [EvCall "avfilter_graph_alloc" 0] "graph_alloc"
  else
  let player := set_fgraph true player in
  let tr := [EvCall "avfilter_graph_alloc" 1; EvCall "abuffer" (f_abuffer io)] in
  if f_abuffer io <? 0 then softfail player tr "create_filter abuffer" else
  let tr := tr ++ [EvCall "volume" (f_volume io)] in
  if f_volume io <? 0 then softfail player tr "create_filter volume" else
  let tr := tr ++ BarPlayerSetVolume (f_set_volume io)
               ++ [EvCall "aformat" (f_aformat io)] in
  if f_aformat io <? 0 then softfail player tr "create_filter aformat" else
  let tr := tr ++ [EvCall "abuffersink" (f_abuffersink io)] in
  if f_abuffersink io <? 0 then softfail player tr "create_filter abuffersink" else
  if negb (f_link1 io =? 0) then
    softfail player (tr ++ [EvCall "avfilter_link" (f_link1 io)]) "filter_link"
  else if negb (f_link2 io =? 0) then
    softfail player (tr ++ [EvCall "avfilter_link" (f_link1 io);
                            EvCall "avfilter_link" (f_link2 io)]) "filter_link"
  else
  let tr := tr ++ [EvCall "avfilter_link" (f_link1 io);
                   EvCall "avfilter_link" (f_link2 io);
                   EvCall "avfilter_link" (f_link3 io)] in
  if negb (f_link3 io =? 0) then softfail player tr "filter_link" else
  let tr := tr ++ [EvCall "avfilter_graph_config" (f_graph_config io)] in
  if f_graph_config io <? 0 then softfail player tr "graph_config" else
  (true, player, tr).

(** [openDevice]. *)
Definition openDevice (player : player_t) (opened : bool) : bool * player_t * trace :=
  if opened then (true, set_aoDev true player, [EvCall "ao_open_live" 1])
  else (false, set_aoDev false player,
        [EvCall "ao_open_live" 0; EvMsg "Cannot open audio device."]).

(** The byte count handed to [ao_play]: the product of three [int]s, passed
    as the [uint_32] parameter [num_bytes].  A product outside the range of
    [int] wraps in the compiled code (the C standard leaves it undefined), so
    what arrives is the product modulo 2^32. *)
Definition ao_bytes (b : AVFilterBuffer) : Z :=
  (nb_samples b * numChannels b * bps b) mod 2 ^ 32.

(** The recording tee of [play]: the packet copy [pkt_write] gets the output
    stream id and rescaled time stamps and is written.  A stamp outside the
    contract of [av_rescale_q] is written as whatever the library returns
    (recorded as [None]).  [fctx->streams[0]] and [ofcx->streams[0]] are
    dereferenced; without them there is no defined behaviour ([None]). *)
Definition tee (player : player_t) (pkt : AVPacket) : option trace :=
  if save_file player then
    match fctx player, ofcx player with
    | Some (s0 :: _), Some out =>
      Some [EvWriteFrame (ost_id out)
              (av_rescale_q (pts pkt) (codec_time_base s0) (out_time_base out))
              (av_rescale_q (dts pkt) (codec_time_base s0) (out_time_base out))]
    | _, _ => None
    end
  else Some [].

(** The pause gate of [play].  Each element of [waits] is one
    [pthread_cond_wait]: the flag writes of the controlling thread until the
    worker is woken.  [None]: the worker is still waiting when the script
    ends. *)
Fixpoint pause_gate (player : player_t) (waits : list (list caller_act))
  : option (player_t * trace) :=
  if doPause player then
    match waits with
    | [] => None
    | w :: waits' =>
      match pause_gate (callers w player) waits' with
      | Some (player', tr) =>
        Some (player', EvReadPause :: EvCondWait :: map EvCaller w ++ tr)
      | None => None
      end
    end
  else Some (player, [EvReadPlay]).

(** What one decoded frame sends to the device: the frame goes into the
    filter source and the sink is drained into [ao_play].  (The assertions of
    the source on the return values of the filter calls are taken to hold.) *)
Definition play_frame (d : decode_io) : trace :=
  if d_got_frame d =? 0 then []
  else EvCall "av_buffersrc_write_frame" 0 ::
       map (fun b => EvAoPlay (data0 b) (ao_bytes b)) (d_filtered d).

(** The [do ... while (pkt.size > 0)] loop of [play].  [None]: the loop wants
    another decode call and the script has none. *)
Fixpoint decode_loop (player : player_t) (pkt_size : Z) (ds : list decode_io)
  : option (player_t * trace) :=
  match ds with
  | [] => None
  | d :: ds' =>
    let player := callers (d_caller d) player in
    let tr := map EvCaller (d_caller d) ++ [EvDecode (d_decoded d)] in
    if d_decoded d <? 0 then Some (player, tr)          (* skip this one *)
    else
      let tr := tr ++ play_frame d in
      let pkt_size := pkt_size - d_decoded d in
      if pkt_size >? 0 then
        match decode_loop player pkt_size ds' with
        | Some (player', tr') => Some (player', tr ++ tr')
        | None => None
        end
      else Some (player, tr)
  end.

(** [play]: returns 0 or the error code of [av_read_frame].  [None]: the
    worker has not left the loop when the script ends. *)
Fixpoint play (player : player_t) (ks : list packet_io)
  : option (Z * player_t * trace) :=
  match ks with
  | [] => if doQuit player then Some (0, player, []) else None
  | k :: ks' =>
    let player := callers (k_caller k) player in
    let tr := map EvCaller (k_caller k) in
    if doQuit player then Some (0, player, tr) else
    let '(player, tr1) := ping_now (k_now k) player in
    let tr := tr ++ tr1 ++ [EvReadFrame (k_read k) (k_pkt k)] in
    if k_read k <? 0 then Some (k_read k, player, tr)
    else if negb (stream_index (k_pkt k) =? streamIdx player) then
      prepend tr (play player ks')
    else
      match tee player (k_pkt k) with
      | None => None
      | Some tr_tee =>
        match pause_gate player (k_waits k) with
        | None => None
        | Some (player, tr_gate) =>
          match decode_loop player (size (k_pkt k)) (k_decode k) with
          | None => None
          | Some (player, tr_dec) =>
            let player := set_lastTimestamp (pts (k_pkt k)) player in
            prepend (tr ++ tr_tee ++ tr_gate ++ tr_dec) (play player ks')
          end
        end
      end
  end.

(** [finish].  A stream that is not NULL has a codec context. *)
Definition finish (player : player_t) : player_t * trace :=
  let player := set_aoDev false player in
  let tr := [EvAoClose] in
  let '(player, tr) :=
    if fgraph player then (set_fgraph false player, tr ++ [EvGraphFree])
    else (player, tr) in
  let '(player, tr) :=
    match st player with
    | Some _ => (set_st None player, tr ++ [EvCodecClose])
    | None => (player, tr)
    end in
  match fctx player with
  | Some _ => (set_fctx None player, tr ++ [EvCloseInput])
  | None => (player, tr)
  end.

(** The body of the [do ... while (retry)] loop of [BarPlayerThread]: the
    result is [retry] and the new value of [pret]. *)
Definition BarPlayerThread_body (pret : BarPlayerRet) (player : player_t)
  (s : session_io) : option (bool * BarPlayerRet * player_t * trace) :=
  let '(opened, player, tr) := openStream player (s_open s) in
  if opened then
    let '(filtered, player, tr1) := openFilter player (s_filter s) in
    let '(ready, player, tr2) :=
      if filtered then openDevice player (s_device s) else (false, player, []) in
    if ready then
      match play player (s_play s) with
      | None => None
      | Some (ret, player, tr3) =>
        let '(player, tr4) := finish player in
        Some (ret =? AVERROR_INVALIDDATA, pret, player, tr ++ tr1 ++ tr2 ++ tr3 ++ tr4)
      end
    else
      (* filter missing or audio device busy *)
      let '(player, tr4) := finish player in
      Some (false, PLAYER_RET_HARDFAIL, player, tr ++ tr1 ++ tr2 ++ tr4)
  else
    (* stream not found *)
    let '(player, tr4) := finish player in
    Some (false, PLAYER_RET_SOFTFAIL, player, tr ++ tr4).

(** The retry loop; one [session_io] per round.  [None]: the loop has not
    ended when the script does. *)
Fixpoint BarPlayerThread_loop (pret : BarPlayerRet) (player : player_t)
  (ss : list session_io) : option (BarPlayerRet * player_t * trace) :=
  match ss with
  | [] => None
  | s :: ss' =>
    match BarPlayerThread_body pret player s with
    | None => None
    | Some (retry, pret, player, tr) =>
      if retry then prepend tr (BarPlayerThread_loop pret player ss')
      else Some (pret, player, tr)
    end
  end.

(** What [BarPlayerThread] does after the loop when the recording is
    published: trailer, release, close, and the move by the shell. *)
Definition publish (player : player_t) : trace :=
  [EvWriteTrailer; EvFreeContext; EvAvioClose;
   EvSystem (mv_command (tmp_filename player) (save_complete player))].

(** [BarPlayerThread].  [fin] are the flag writes of the controlling thread
    that land before the last read of [doQuit]. *)
Definition BarPlayerThread (player : player_t) (ss : list session_io)
  (fin : list caller_act) : option (BarPlayerRet * player_t * trace) :=
  match BarPlayerThread_loop PLAYER_RET_OK player ss with
  | None => None
  | Some (pret, player, tr) =>
    let player := callers fin (set_mode PLAYER_FINISHED player) in
    let tr := tr ++ map EvCaller fin in
    if save_file player && negb (doQuit player)
    then Some (pret, player, tr ++ publish player)
    else Some (pret, player, tr)
  end.

End Build.

(** * Observations on traces and scripts *)

Definition is_mkdir (e : event) : bool :=
  match e with EvMkdir _ _ => true | _ => false end.

Definition is_access (e : event) : bool :=
  match e with EvAccess _ _ => true | _ => false end.

Definition is_ping (e : event) : bool :=
  match e with EvPing _ => true | _ => false end.

Definition is_seek (e : event) : bool :=
  match e with EvSeekFrame _ _ => true | _ => false end.

Definition is_open_input (e : event) : bool :=
  match e with EvOpenInput _ _ => true | _ => false end.

Definition is_ao_play (e : event) : bool :=
  match e with EvAoPlay _ _ => true | _ => false end.

Definition is_write_frame (e : event) : bool :=
  match e with EvWriteFrame _ _ _ => true | _ => false end.

(** Creation of the temporary file and of the output container. *)
Definition is_rec_create (e : event) : bool :=
  match e with EvAvioOpen _ | EvWriteHeader => true | _ => false end.

(** The blocking calls into the stream library: open, probe, seek, read. *)
Definition is_blocking_io (e : event) : bool :=
  match e with
  | EvOpenInput _ _ | EvFindStreamInfo _ | EvSeekFrame _ _ | EvReadFrame _ _ => true
  | _ => false
  end.

(** Finalisation of the recording: trailer, release, close, move. *)
Definition is_publish (e : event) : bool :=
  match e with
  | EvWriteTrailer | EvFreeContext | EvAvioClose | EvSystem _ => true
  | _ => false
  end.

(** The kinds of events [play] can emit, and those of [finish]. *)
Definition play_event (e : event) : bool :=
  match e with
  | EvCaller _ | EvPing _ | EvReadFrame _ _ | EvWriteFrame _ _ _
  | EvReadPlay | EvReadPause | EvCondWait | EvDecode _ | EvCall _ _
  | EvAoPlay _ _ => true
  | _ => false
  end.

Definition finish_event (e : event) : bool :=
  match e with
  | EvAoClose | EvGraphFree | EvCodecClose | EvCloseInput => true
  | _ => false
  end.

(** What reaches the audio device, in order. *)
Definition audio (tr : trace) : trace := filter is_ao_play tr.

(** A trace without the writes to the recording. *)
Definition strip_rec (tr : trace) : trace :=
  filter (fun e => negb (is_write_frame e)) tr.

(** Every blocking call is immediately preceded by a ping; [prev] tells
    whether the event before the trace was one. *)
Fixpoint pinged (prev : bool) (tr : trace) : bool :=
  match tr with
  | [] => true
  | e :: tr' => (if is_blocking_io e then prev else true) && pinged (is_ping e) tr'
  end.

(** The clock reading of the most recent ping ([d] if there is none). *)
Definition last_ping (tr : trace) (d : Z) : Z :=
  fold_left (fun acc e => match e with EvPing t => t | _ => acc end) tr d.

(** The packets of stream [idx] delivered by [av_read_frame]. *)
Definition read_packet (idx : Z) (e : event) : list AVPacket :=
  match e with
  | EvReadFrame ret pkt =>
    if (0 <=? ret) && (stream_index pkt =? idx) then [pkt] else []
  | _ => []
  end.

Definition packets_read (idx : Z) (tr : trace) : list AVPacket :=
  flat_map (read_packet idx) tr.

(** The number of packets delivered by [av_read_frame]. *)
Definition is_read_ok (e : event) : bool :=
  match e with EvReadFrame ret _ => 0 <=? ret | _ => false end.

Definition reads_ok (tr : trace) : nat := List.length (filter is_read_ok tr).

(** The time stamps (pts, dts) written to the recording. *)
Definition written_stamps (e : event) : list (option Z * option Z) :=
  match e with EvWriteFrame _ opts odts => [(opts, odts)] | _ => [] end.

Definition written (tr : trace) : list (option Z * option Z) :=
  flat_map written_stamps tr.

(** The presentation time stamp of the last packet of a list ([d] if the
    list is empty). *)
Definition last_pts (l : list AVPacket) (d : Z) : Z :=
  fold_left (fun _ pkt => pts pkt) l d.

(** The bytes handed to [ao_play] while [doPause] is set; [paused] is the
    value of the flag at the start of the trace. *)
Fixpoint paused_bytes (paused : bool) (tr : trace) : Z :=
  match tr with
  | [] => 0
  | EvCaller RequestPause :: tr' => paused_bytes true tr'
  | EvCaller RequestResume :: tr' => paused_bytes false tr'
  | EvAoPlay _ n :: tr' => (if paused then n else 0) + paused_bytes paused tr'
  | _ :: tr' => paused_bytes paused tr'
  end.

(** The rational value of a time stamp [a] taken from time base [src] to time
    base [dst]. *)
Definition exact_rescale (a : Z) (src dst : AVRational) : Q :=
  (inject_Z a * av_q src / av_q dst)%Q.

Fixpoint nondecreasing (l : list Z) : Prop :=
  match l with
  | [] => True
  | a :: l' => match l' with [] => True | b :: _ => a <= b end /\ nondecreasing l'
  end.

(** What the decode loop of one packet sends to the device, read off the
    script alone: the frames of the decode calls up to the first error or to
    the call that consumes the rest of the packet. *)
Fixpoint decode_audio (pkt_size : Z) (ds : list decode_io) : trace :=
  match ds with
  | [] => []
  | d :: ds' =>
    if d_decoded d <? 0 then []
    else audio (play_frame d) ++
         (if pkt_size - d_decoded d >? 0
          then decode_audio (pkt_size - d_decoded d) ds' else [])
  end.

Definition packet_audio (idx : Z) (k : packet_io) : trace :=
  if stream_index (k_pkt k) =? idx
  then decode_audio (size (k_pkt k)) (k_decode k) else [].

(** The session with the recording switched off. *)
Definition rec_off (p : player_t) : player_t := set_ofcx None (set_save_file false p).

(** [p] with the two shared flags of [q]: all the controlling thread can
    change. *)
Definition flags (p q : player_t) : player_t :=
  set_doPause (doPause q) (set_doQuit (doQuit q) p).

(** The fields [play] writes: the two flags (through the controlling thread),
    [ping] and [lastTimestamp]. *)
Definition touch (p q : player_t) : player_t :=
  set_lastTimestamp (lastTimestamp q) (set_ping (ping q) (flags p q)).

(** Rounds of the retry loop that ended with [retry]: from [p] the rounds
    [ss] lead to [p'], leaving the trace [tr]. *)
Inductive retried (h c : bool) (pret : BarPlayerRet)
  : player_t -> list session_io -> player_t -> trace -> Prop :=
| retried_nil p : retried h c pret p [] p []
| retried_cons p s ss p1 tr1 p' tr :
    BarPlayerThread_body h c pret p s = Some (true, pret, p1, tr1) ->
    retried h c pret p1 ss p' tr ->
    retried h c pret p (s :: ss) p' (tr1 ++ tr).

(** The number of path separators of a string. *)
Fixpoint count_slash (s : string) : nat :=
  match s with
  | EmptyString => O
  | String c s' => ((if Ascii.eqb c "/" then 1 else 0) + count_slash s')%nat
  end.

(** The kinds of events of the pause gate and of the decode loop. *)
Definition gate_event (e : event) : bool :=
  match e with
  | EvCaller _ | EvReadPlay | EvReadPause | EvCondWait => true
  | _ => false
  end.

Definition decode_event (e : event) : bool :=
  match e with
  | EvCaller _ | EvDecode _ | EvCall _ _ | EvAoPlay _ _ => true
  | _ => false
  end.

Definition is_caller (e : event) : bool :=
  match e with EvCaller _ => true | _ => false end.

(** The runs of [play] as a relation: one constructor per way through an
    iteration of its loop. *)
Inductive play_run (h : bool)
  : player_t -> list packet_io -> Z -> player_t -> trace -> Prop :=
| run_quit_nil p :
    doQuit p = true -> play_run h p [] 0 p []
| run_quit p k ks :
    doQuit (callers (k_caller k) p) = true ->
    play_run h p (k :: ks) 0 (callers (k_caller k) p) (map EvCaller (k_caller k))
| run_read_error p k ks p1 t1 :
    doQuit (callers (k_caller k) p) = false ->
    ping_now h (k_now k) (callers (k_caller k) p) = (p1, t1) ->
    k_read k < 0 ->
    play_run h p (k :: ks) (k_read k) p1
      (map EvCaller (k_caller k) ++ t1 ++ [EvReadFrame (k_read k) (k_pkt k)])
| run_other_stream p k ks p1 t1 r p' tr :
    doQuit (callers (k_caller k) p) = false ->
    ping_now h (k_now k) (callers (k_caller k) p) = (p1, t1) ->
    0 <= k_read k ->
    stream_index (k_pkt k) <> streamIdx p1 ->
    play_run h p1 ks r p' tr ->
    play_run h p (k :: ks) r p'
      ((map EvCaller (k_caller k) ++ t1 ++ [EvReadFrame (k_read k) (k_pkt k)]) ++ tr)
| run_packet p k ks p1 t1 tt p2 tg p3 td r p' tr :
    doQuit (callers (k_caller k) p) = false ->
    ping_now h (k_now k) (callers (k_caller k) p) = (p1, t1) ->
    0 <= k_read k ->
    stream_index (k_pkt k) = streamIdx p1 ->
    tee p1 (k_pkt k) = Some tt ->
    pause_gate p1 (k_waits k) = Some (p2, tg) ->
    decode_loop p2 (size (k_pkt k)) (k_decode k) = Some (p3, td) ->
    play_run h (set_lastTimestamp (pts (k_pkt k)) p3) ks r p' tr ->
    play_run h p (k :: ks) r p'
      (((map EvCaller (k_caller k) ++ t1 ++ [EvReadFrame (k_read k) (k_pkt k)])
        ++ tt ++ tg ++ td) ++ tr).

(** The time stamps the tee gives to a packet. *)
Definition tee_stamps (src dst : AVRational) (pkt : AVPacket)
  : option Z * option Z :=
  (av_rescale_q (pts pkt) src dst, av_rescale_q (dts pkt) src dst).

(** The kinds of events of [openStream], [openFilter] and [openDevice]. *)
Definition open_event (e : event) : bool :=
  match e with
  | EvPing _ | EvOpenInput _ _ | EvFindStreamInfo _ | EvFindBestStream _
  | EvSeekFrame _ _ | EvCall _ _ | EvMsg _ | EvStat _ _ | EvMkdir _ _
  | EvAccess _ _ | EvAvioOpen _ | EvWriteHeader => true
  | _ => false
  end.

(** The events of the retry loop: everything but the finalisation. *)
Definition loop_event (e : event) : bool :=
  open_event e || play_event e || finish_event e.

(** The kinds of events of [openFilter] and [openDevice]. *)
Definition setup_event (e : event) : bool :=
  match e with EvCall _ _ | EvMsg _ => true | _ => false end.

(** The content of [save_path] when [openStream] is done with it. *)
Definition save_path_in (io : open_io) (dir stn : string) : string :=
  o_sprintf_overlap io (save_base (o_stray_byte io) dir) stn.

(** Every string [openStream] builds fits its buffer: [save_path] after
    each of its two steps, [save_filename], [tmp_filename] and
    [save_complete].  Longer strings overrun the stack of the worker. *)
Definition paths_fit (io : open_io) (p : player_t) (dir : string) : bool :=
  fits (save_base (o_stray_byte io) dir)
  && fits (save_path_in io dir (station p))
  && fits (save_filename_of (artist p) (title p))
  && fits ("/tmp/" +++ save_filename_of (artist p) (title p))
  && fits (save_path_in io dir (station p) +++ save_filename_of (artist p) (title p)).

Definition open_fits (io : open_io) (p : player_t) : bool :=
  match save_dir p with
  | Some dir => paths_fit io p dir
  | None => true
  end.

(** The same answers, except for the one of [mkdir]. *)
Definition with_mkdir (m : Z) (io : open_io) : open_io :=
  mkOpenIo (o_now_open io) (o_open_input io) (o_streams io) (o_now_probe io)
    (o_find_stream_info io) (o_now_best io) (o_find_best_stream io) (o_find_decoder io)
    (o_codec_open2 io) (o_now_seek io) (o_stray_byte io) (o_sprintf_overlap io)
    (o_stat io) m (o_access io) (o_ost_id io) (o_write_header io).

(** A trace without the calls of [mkdir]. *)
Definition strip_mkdir (tr : trace) : trace :=
  filter (fun e => negb (is_mkdir e)) tr.

(** The same answers, except for the one of [access]. *)
Definition with_access (a : Z) (io : open_io) : open_io :=
  mkOpenIo (o_now_open io) (o_open_input io) (o_streams io) (o_now_probe io)
    (o_find_stream_info io) (o_now_best io) (o_find_best_stream io) (o_find_decoder io)
    (o_codec_open2 io) (o_now_seek io) (o_stray_byte io) (o_sprintf_overlap io)
    (o_stat io) (o_mkdir io) a (o_ost_id io) (o_write_header io).

(** * Sample sessions *)

(** A track of station "Jazz", recorded below [/music]. *)
Definition sample_player : player_t :=
  mkPlayer "http://audio.example/track" "Jazz" "AC/DC" "Back in Black" (Some "/music")
    0 None 0 None 0 PLAYER_OPENING false false false "" "" None false false.

Definition tb44100 : AVRational := mkRational 1 44100.

(** A [sprintf] that formats its arguments before it writes the buffer. *)
Definition sprintf_copying (buf stn : string) : string := buf +++ stn +++ "/".

(** An input with one audio stream that opens without error; the station
    directory is missing and [mkdir] creates it, the target file does not
    exist yet and the muxer keeps the proposed time base. *)
Definition sample_open : open_io :=
  mkOpenIo 100 0 [mkStream tb44100 tb44100] 101 0 102 0 true 0 103 " "%char
           sprintf_copying (-1) 0 (-1) 0 (fun tb => tb).

Definition sample_filter : filter_io := mkFilterIo true 0 0 0 0 0 0 0 0 0.

(** 1024 samples, 2 channels, 16 bit: 4096 bytes. *)
Definition sample_buffer : AVFilterBuffer :=
  mkBuffer [Byte.x01; Byte.x02; Byte.x03; Byte.x04] 1024 2 2.

Definition sample_decode : decode_io := mkDecodeIo [] 300 1 [sample_buffer].

(** A packet of stream 0 with time stamp [t], decoded by one call. *)
Definition packet_at (t : Z) : packet_io :=
  mkPacketIo [] 200 0 (mkPacket 0 t t 300) [] [sample_decode].

(** [av_read_frame] fails with [code]. *)
Definition read_fails (code : Z) : packet_io :=
  mkPacketIo [] 900 code (mkPacket 0 0 0 0) [] [].

(** Two packets, then the end of the stream. *)
Definition sample_session : session_io :=
  mkSessionIo sample_open sample_filter true
    [packet_at 0; packet_at 1024; read_fails AVERROR_EOF].

(** A station whose name contains a path separator. *)
Definition nested_station_player : player_t :=
  mkPlayer "http://audio.example/track" "Rock/Metal" "AC/DC" "Back in Black"
    (Some "/music")
    0 None 0 None 0 PLAYER_OPENING false false false "" "" None false false.

(** The stream opens and the recording is set up, but the audio device is
    busy. *)
Definition device_busy_session : session_io :=
  mkSessionIo sample_open sample_filter false [].

(** One packet is played, then [av_read_frame] is aborted by the interrupt
    callback. *)
Definition stalled_session : session_io :=
  mkSessionIo sample_open sample_filter true [packet_at 0; read_fails AVERROR_EXIT].

(** The controlling thread requests quit while the second packet is being
    decoded. *)
Definition quit_session : session_io :=
  mkSessionIo sample_open sample_filter true
    [packet_at 0;
     mkPacketIo [] 300 0 (mkPacket 0 1024 1024 300) []
       [mkDecodeIo [RequestQuit] 300 1 [sample_buffer]];
     packet_at 2048; packet_at 3072].

(** A session whose first [av_read_frame] fails with [code]. *)
Definition failing_session (code : Z) : session_io :=
  mkSessionIo sample_open sample_filter true [read_fails code].

(** The first packet (time stamp 0) is played, the next read reports
    corrupted data. *)
Definition corrupt_after_first : session_io :=
  mkSessionIo sample_open sample_filter true
    [packet_at 0; read_fails AVERROR_INVALIDDATA].

(** A packet with time stamp 1024 and a packet without time stamp are played,
    the next read reports corrupted data. *)
Definition corrupt_after_nopts : session_io :=
  mkSessionIo sample_open sample_filter true
    [packet_at 1024; packet_at AV_NOPTS_VALUE; read_fails AVERROR_INVALIDDATA].

(** A packet with time stamp 1024 is played, the next read reports corrupted
    data. *)
Definition corrupt_after_1024 : session_io :=
  mkSessionIo sample_open sample_filter true
    [packet_at 1024; read_fails AVERROR_INVALIDDATA].

(** The first decode call of the packet fails; the script holds a second call
    that would have produced audio. *)
Definition undecodable_packet : packet_io :=
  mkPacketIo [] 200 0 (mkPacket 0 1024 1024 300) []
    [mkDecodeIo [] (-1) 0 []; sample_decode].

(** The controlling thread requests a pause while the first packet is being
    decoded, and resumes while the worker waits in the gate of the second. *)
Definition pause_session : session_io :=
  mkSessionIo sample_open sample_filter true
    [mkPacketIo [] 200 0 (mkPacket 0 0 0 300) []
       [mkDecodeIo [RequestPause] 300 1 [sample_buffer]];
     mkPacketIo [] 201 0 (mkPacket 0 1024 1024 300) [[RequestResume]] [sample_decode];
     read_fails AVERROR_EOF].

(** An input whose stream counts in milliseconds while its codec counts in
    samples (1/44100 s). *)
Definition millis_open : open_io :=
  mkOpenIo 100 0 [mkStream (mkRational 1 1000) tb44100] 101 0 102 0 true 0 103 " "%char
           sprintf_copying (-1) 0 (-1) 0 (fun tb => tb).

Definition millis_session : session_io :=
  mkSessionIo millis_open sample_filter true [packet_at 1024; read_fails AVERROR_EOF].

(** The session after a successful [openStream]. *)
Definition opened_player : player_t :=
  snd (fst (openStream false sample_player sample_open)).

(** The input cannot be opened (the connection fails). *)
Definition unreachable_open : open_io :=
  mkOpenIo 100 (-5) [] 101 0 102 0 true 0 103 " "%char sprintf_copying
           (-1) 0 (-1) 0 (fun tb => tb).

Definition unreachable_session : session_io :=
  mkSessionIo unreachable_open sample_filter true [].

(** The station directory is missing and so is its parent: [stat] fails and
    so does [mkdir]. *)
Definition missing_parent_open : open_io := with_mkdir (-1) sample_open.

(** The target file exists when the stream is opened; a packet is played and
    the next read reports corrupted data. *)
Definition exists_then_corrupt : session_io :=
  mkSessionIo (with_access 0 sample_open) sample_filter true
    [packet_at 1024; read_fails AVERROR_INVALIDDATA].

(** * Further observations *)

Definition is_msg (e : event) : bool :=
  match e with EvMsg _ => true | _ => false end.

Definition is_ao_close (e : event) : bool :=
  match e with EvAoClose => true | _ => false end.

Definition is_trailer (e : event) : bool :=
  match e with EvWriteTrailer => true | _ => false end.

Definition is_read (e : event) : bool :=
  match e with EvReadFrame _ _ => true | _ => false end.

(** The paths handed to [avio_open2]. *)
Definition avio_path (e : event) : list string :=
  match e with EvAvioOpen path => [path] | _ => [] end.

Definition avio_paths (tr : trace) : list string := flat_map avio_path tr.

(** The output stream ids handed to [av_write_frame]. *)
Definition written_id (e : event) : list Z :=
  match e with EvWriteFrame idx _ _ => [idx] | _ => [] end.

Definition written_ids (tr : trace) : list Z := flat_map written_id tr.

(** The return values of the decode calls. *)
Definition decode_ret (e : event) : list Z :=
  match e with EvDecode r => [r] | _ => [] end.

Definition decode_rets (tr : trace) : list Z := flat_map decode_ret tr.

Definition sum (l : list Z) : Z := fold_right Z.add 0 l.

Definition is_resume (a : caller_act) : bool :=
  match a with RequestResume => true | _ => false end.

(** The result code of a round that starts with OK and does not retry, read
    off the three open steps. *)
Definition round_result (opened filtered ready : bool) : BarPlayerRet :=
  if opened then
    if filtered && ready then PLAYER_RET_OK else PLAYER_RET_HARDFAIL
  else PLAYER_RET_SOFTFAIL.

(** The number of occurrences of a character. *)
Fixpoint count_char (c : ascii) (s : string) : nat :=
  match s with
  | EmptyString => O
  | String d s' => ((if Ascii.eqb d c then 1 else 0) + count_char c s')%nat
  end.

(** The same answers, except for the one to the volume command. *)
Definition with_set_volume (v : Z) (io : filter_io) : filter_io :=
  mkFilterIo (f_graph_alloc io) (f_abuffer io) (f_volume io) v (f_aformat io)
    (f_abuffersink io) (f_link1 io) (f_link2 io) (f_link3 io) (f_graph_config io).

(** What the caller hands to the thread: the address of the stream, the
    names of station, artist and title, and the recording directory. *)
Definition inputs (p : player_t) : string * string * string * string * option string :=
  (url p, station p, artist p, title p, save_dir p).

(** * Lemmas *)

(** ** The controlling thread only writes the two flags *)

Lemma callers_flags (acts : list caller_act) (p : player_t) :
  callers acts p = flags p (callers acts p).
Proof.
  unfold flags. revert p. induction acts as [|a acts IH]; intros p.
  - destruct p; reflexivity.
  - change (callers (a :: acts) p) with (callers acts (caller_step p a)).
    rewrite IH at 1. destruct a, p; reflexivity.
Qed.

Lemma flags_refl (p : player_t) : p = flags p p.
Proof. destruct p; reflexivity. Qed.

Lemma flags_trans (p q r : player_t) : q = flags p q -> r = flags q r -> r = flags p r.
Proof. intros Hq Hr. rewrite Hr, Hq. destruct p, q, r; reflexivity. Qed.

Lemma flags_touch (p q : player_t) : q = flags p q -> q = touch p q.
Proof. intros H. rewrite H. destruct p, q; reflexivity. Qed.

(** A state that differs from [p] in the flags only agrees with it on every
    other field. *)
Lemma flags_fields (p q : player_t) :
  q = flags p q ->
  lastTimestamp q = lastTimestamp p /\ ping q = ping p
  /\ save_file q = save_file p /\ fctx q = fctx p /\ ofcx q = ofcx p
  /\ streamIdx q = streamIdx p /\ st q = st p.
Proof. intros ->. destruct p; simpl. repeat split. Qed.

Lemma callers_quit_mono (acts : list caller_act) (p : player_t) :
  doQuit p = true -> doQuit (callers acts p) = true.
Proof.
  revert p. induction acts as [|a acts IH]; intros p H; [exact H|].
  apply IH. destruct a, p; simpl in *; auto.
Qed.

Lemma callers_touch (acts : list caller_act) (p : player_t) :
  callers acts p = touch p (callers acts p).
Proof. apply flags_touch, callers_flags. Qed.

Lemma touch_trans (p q r : player_t) : q = touch p q -> r = touch q r -> r = touch p r.
Proof.
  intros Hq Hr. rewrite Hr, Hq. destruct p, q, r; reflexivity.
Qed.

Lemma touch_refl (p : player_t) : p = touch p p.
Proof. destruct p; reflexivity. Qed.

(** Fields after the write of [lastTimestamp] in [play]. *)
Lemma set_lastTimestamp_fields v p :
  lastTimestamp (set_lastTimestamp v p) = v
  /\ streamIdx (set_lastTimestamp v p) = streamIdx p
  /\ save_file (set_lastTimestamp v p) = save_file p
  /\ fctx (set_lastTimestamp v p) = fctx p
  /\ ofcx (set_lastTimestamp v p) = ofcx p
  /\ ping (set_lastTimestamp v p) = ping p.
Proof. destruct p; simpl. repeat split. Qed.

(** ** Generalities on traces *)

Lemma forallb_map_const {A : Type} (f : event -> bool) (g : A -> event) (l : list A) :
  (forall a, f (g a) = true) -> forallb f (map g l) = true.
Proof. intros H. induction l; simpl; [reflexivity|]. now rewrite H, IHl. Qed.

Lemma forallb_weaken (f g : event -> bool) (tr : trace) :
  (forall e, f e = true -> g e = true) -> forallb f tr = true -> forallb g tr = true.
Proof.
  intros H. induction tr as [|e tr IH]; simpl; [reflexivity|].
  intros E. apply andb_true_iff in E as [E1 E2]. now rewrite (H _ E1), IH.
Qed.

Lemma filter_none (f g : event -> bool) (tr : trace) :
  (forall e, f e = true -> g e = false) -> forallb f tr = true -> filter g tr = [].
Proof.
  intros H. induction tr as [|e tr IH]; simpl; [reflexivity|].
  intros E. apply andb_true_iff in E as [E1 E2]. now rewrite (H _ E1), IH.
Qed.

Lemma filter_all (f g : event -> bool) (tr : trace) :
  (forall e, f e = true -> g e = true) -> forallb f tr = true -> filter g tr = tr.
Proof.
  intros H. induction tr as [|e tr IH]; simpl; [reflexivity|].
  intros E. apply andb_true_iff in E as [E1 E2]. now rewrite (H _ E1), IH.
Qed.

Lemma existsb_none (f g : event -> bool) (tr : trace) :
  (forall e, f e = true -> g e = false) -> forallb f tr = true -> existsb g tr = false.
Proof.
  intros H. induction tr as [|e tr IH]; simpl; [reflexivity|].
  intros E. apply andb_true_iff in E as [E1 E2]. now rewrite (H _ E1), IH.
Qed.

(** ** The pause gate *)

Lemma pause_gate_spec (waits : list (list caller_act)) :
  forall p p' tr, pause_gate p waits = Some (p', tr) ->
  doPause p' = false /\ p' = flags p p' /\ forallb gate_event tr = true
  /\ (doQuit p = true -> doQuit p' = true).
Proof.
  induction waits as [|w waits IH]; intros p p' tr; simpl.
  - destruct (doPause p) eqn:E; [discriminate|].
    intros H; inversion H; subst. repeat split; auto using flags_refl.
  - destruct (doPause p) eqn:E.
    + destruct (pause_gate (callers w p) waits) as [[q t]|] eqn:G; [|discriminate].
      intros H; inversion H; subst.
      destruct (IH _ _ _ G) as (H1 & H2 & H3 & H4).
      repeat split; auto.
      * eapply flags_trans; [apply callers_flags | exact H2].
      * simpl. rewrite forallb_app, H3, forallb_map_const; auto.
      * intros Q. apply H4. now apply callers_quit_mono.
    + intros H; inversion H; subst. repeat split; auto using flags_refl.
Qed.

(** ** The decode loop *)

Lemma play_frame_events (d : decode_io) : forallb decode_event (play_frame d) = true.
Proof.
  unfold play_frame. destruct (d_got_frame d =? 0); simpl; [reflexivity|].
  apply forallb_map_const. reflexivity.
Qed.

Lemma audio_app (a b : trace) : audio (a ++ b) = audio a ++ audio b.
Proof. apply filter_app. Qed.

Lemma audio_callers (acts : list caller_act) : audio (map EvCaller acts) = [].
Proof. induction acts; simpl; auto. Qed.

Lemma decode_loop_spec (ds : list decode_io) :
  forall p sz p' tr, decode_loop p sz ds = Some (p', tr) ->
  p' = flags p p' /\ forallb decode_event tr = true
  /\ audio tr = decode_audio sz ds
  /\ (doQuit p = true -> doQuit p' = true).
Proof.
  induction ds as [|d ds IH]; intros p sz p' tr; simpl; [discriminate|].
  destruct (d_decoded d <? 0) eqn:E.
  - intros H; inversion H; subst. repeat split.
    + apply callers_flags.
    + rewrite forallb_app, forallb_map_const; auto.
    + rewrite audio_app, audio_callers. reflexivity.
    + apply callers_quit_mono.
  - destruct (sz - d_decoded d >? 0) eqn:S.
    + destruct (decode_loop (callers (d_caller d) p) (sz - d_decoded d) ds)
        as [[q t]|] eqn:G; [|discriminate].
      intros H; inversion H; subst.
      destruct (IH _ _ _ _ G) as (H1 & H2 & H3 & H4).
      repeat split.
      * eapply flags_trans; [apply callers_flags | exact H1].
      * rewrite !forallb_app, H2, play_frame_events, forallb_map_const; auto.
      * rewrite !audio_app, audio_callers, H3. reflexivity.
      * intros Q. apply H4. now apply callers_quit_mono.
    + intros H; inversion H; subst. repeat split.
      * apply callers_flags.
      * rewrite !forallb_app, play_frame_events, forallb_map_const; auto.
      * rewrite !audio_app, audio_callers; simpl; rewrite ?app_nil_r; reflexivity.
      * apply callers_quit_mono.
Qed.

(** ** The loop of [play] *)

Lemma prepend_some {A B : Type} (t : trace) (x : option (A * B * trace)) a b tr :
  prepend t x = Some (a, b, tr) -> exists tr', x = Some (a, b, tr') /\ tr = t ++ tr'.
Proof.
  destruct x as [[[a' b'] t']|]; simpl; [|discriminate].
  intros H; inversion H; subst. eauto.
Qed.

Lemma play_run_sound h (ks : list packet_io) :
  forall p r p' tr, play h p ks = Some (r, p', tr) -> play_run h p ks r p' tr.
Proof.
  induction ks as [|k ks IH]; intros p r p' tr; simpl.
  - destruct (doQuit p) eqn:Q; [|discriminate].
    intros H; inversion H; subst. now constructor.
  - destruct (doQuit (callers (k_caller k) p)) eqn:Q.
    { intros H; inversion H; subst. now constructor. }
    destruct (ping_now h (k_now k) (callers (k_caller k) p)) as [p1 t1] eqn:P.
    destruct (k_read k <? 0) eqn:R.
    { intros H; inversion H; subst. apply run_read_error; auto. lia. }
    destruct (stream_index (k_pkt k) =? streamIdx p1) eqn:I; simpl.
    + destruct (tee p1 (k_pkt k)) as [tt|] eqn:T; [|discriminate].
      destruct (pause_gate p1 (k_waits k)) as [[p2 tg]|] eqn:G; [|discriminate].
      destruct (decode_loop p2 (size (k_pkt k)) (k_decode k)) as [[p3 td]|] eqn:D;
        [|discriminate].
      intros H. apply prepend_some in H as (tr' & H & ->).
      eapply run_packet; eauto; lia.
    + intros H. apply prepend_some in H as (tr' & H & ->).
      eapply run_other_stream; eauto; lia.
Qed.

Lemma play_run_complete h p ks r p' tr :
  play_run h p ks r p' tr -> play h p ks = Some (r, p', tr).
Proof.
  induction 1; simpl.
  - now rewrite H.
  - now rewrite H.
  - rewrite H, H0. destruct (k_read k <? 0) eqn:R; [reflexivity|lia].
  - rewrite H, H0. destruct (k_read k <? 0) eqn:R; [lia|].
    destruct (stream_index (k_pkt k) =? streamIdx p1) eqn:I; [lia|]. simpl.
    now rewrite IHplay_run.
  - rewrite H, H0. destruct (k_read k <? 0) eqn:R; [lia|].
    destruct (stream_index (k_pkt k) =? streamIdx p1) eqn:I; [|lia]. simpl.
    now rewrite H3, H4, H5, IHplay_run.
Qed.

Lemma ping_now_touch h now p p1 t1 :
  ping_now h now p = (p1, t1) ->
  p1 = set_ping (ping p1) p /\ doQuit p1 = doQuit p /\ doPause p1 = doPause p
  /\ forallb is_ping t1 = true
  /\ (h = false -> t1 = [EvPing now] /\ ping p1 = now).
Proof.
  unfold ping_now. destruct h, p; intros H; inversion H; subst; simpl;
    repeat split; auto; discriminate.
Qed.

(** [play] only writes the flags, [ping] and [lastTimestamp]. *)
Lemma set_ping_touch p q : q = set_ping (ping q) p -> q = touch p q.
Proof. intros H. rewrite H. destruct p, q; reflexivity. Qed.

Lemma play_run_touch h p ks r p' tr : play_run h p ks r p' tr -> p' = touch p p'.
Proof.
  induction 1.
  - apply touch_refl.
  - apply callers_touch.
  - apply ping_now_touch in H0 as (H0 & _).
    eapply touch_trans; [apply callers_touch | apply set_ping_touch, H0].
  - apply ping_now_touch in H0 as (H0 & _).
    eapply touch_trans; [|exact IHplay_run].
    eapply touch_trans; [apply callers_touch | apply set_ping_touch, H0].
  - apply ping_now_touch in H0 as (H0 & _).
    apply pause_gate_spec in H4 as (_ & H4 & _).
    apply decode_loop_spec in H5 as (H5 & _).
    eapply touch_trans; [|exact IHplay_run].
    eapply touch_trans; [apply callers_touch|].
    eapply touch_trans; [apply set_ping_touch, H0|].
    eapply touch_trans; [apply flags_touch, H4|].
    eapply touch_trans; [apply flags_touch, H5|].
    destruct p3; reflexivity.
Qed.

Lemma tee_events p pkt tt : tee p pkt = Some tt -> forallb is_write_frame tt = true.
Proof.
  unfold tee. destruct (save_file p); [|intros H; inversion H; reflexivity].
  destruct (fctx p) as [[|s0 l]|]; try discriminate.
  destruct (ofcx p); [|discriminate]. intros H; inversion H; reflexivity.
Qed.

(** The events of [play]. *)
Lemma play_run_events h p ks r p' tr :
  play_run h p ks r p' tr -> forallb play_event tr = true.
Proof.
  induction 1; rewrite ?forallb_app; simpl; auto.
  - apply forallb_map_const; auto.
  - apply ping_now_touch in H0 as (_ & _ & _ & H0 & _).
    rewrite forallb_map_const by auto.
    rewrite (forallb_weaken is_ping play_event t1); auto.
    intros [] E; auto; discriminate.
  - apply ping_now_touch in H0 as (_ & _ & _ & H0 & _).
    rewrite forallb_map_const by auto.
    rewrite (forallb_weaken is_ping play_event t1), IHplay_run; auto.
    intros [] E; auto; discriminate.
  - apply ping_now_touch in H0 as (_ & _ & _ & H0 & _).
    apply pause_gate_spec in H4 as (_ & _ & H4 & _).
    apply decode_loop_spec in H5 as (_ & H5 & _).
    apply tee_events in H3.
    rewrite forallb_map_const by auto.
    rewrite (forallb_weaken is_ping play_event t1),
            (forallb_weaken is_write_frame play_event tt),
            (forallb_weaken gate_event play_event tg),
            (forallb_weaken decode_event play_event td), IHplay_run; auto;
      intros [] E; auto; discriminate.
Qed.

(** [play] returns 0 exactly when it leaves through the test of [doQuit];
    any other return value is the negative code the last [av_read_frame]
    gave. *)
Lemma play_run_ret h p ks r p' tr :
  play_run h p ks r p' tr ->
  (r = 0 /\ doQuit p' = true)
  \/ (r < 0 /\ doQuit p' = false
      /\ exists tr0 pkt, tr = tr0 ++ [EvReadFrame r pkt]).
Proof.
  induction 1.
  - left; auto.
  - left; auto.
  - right. apply ping_now_touch in H0 as (_ & Q & _). repeat split; auto.
    + congruence.
    + exists (map EvCaller (k_caller k) ++ t1), (k_pkt k). now rewrite <- app_assoc.
  - destruct IHplay_run as [?|(? & ? & tr0 & pkt & ->)]; [left; auto|right].
    repeat split; auto. eexists _, pkt. now rewrite app_assoc.
  - destruct IHplay_run as [?|(? & ? & tr0 & pkt & ->)]; [left; auto|right].
    repeat split; auto. eexists _, pkt. now rewrite app_assoc.
Qed.

Lemma flat_map_none {B : Type} (f : event -> bool) (g : event -> list B) (tr : trace) :
  (forall e, f e = true -> g e = []) -> forallb f tr = true -> flat_map g tr = [].
Proof.
  intros H. induction tr as [|e tr IH]; simpl; [reflexivity|].
  intros E. apply andb_true_iff in E as [E1 E2]. now rewrite (H _ E1), IH.
Qed.

Lemma packets_read_app idx (a b : trace) :
  packets_read idx (a ++ b) = packets_read idx a ++ packets_read idx b.
Proof. apply flat_map_app. Qed.

Lemma packets_read_callers idx acts : packets_read idx (map EvCaller acts) = [].
Proof. induction acts; simpl; auto. Qed.

(** A state reached by writes of [play] agrees with the start on every other
    field. *)
Lemma touch_fields (p q : player_t) :
  q = touch p q ->
  save_file q = save_file p /\ fctx q = fctx p /\ ofcx q = ofcx p
  /\ streamIdx q = streamIdx p /\ st q = st p /\ fgraph q = fgraph p
  /\ aoDev q = aoDev p /\ mode q = mode p /\ save_dir q = save_dir p
  /\ tmp_filename q = tmp_filename p /\ save_complete q = save_complete p.
Proof. intros ->. destruct p; simpl. repeat split. Qed.

(** [lastTimestamp] after [play] is the pts of the last packet of the
    selected stream that was read, or unchanged if there was none. *)
Lemma packets_read_pings idx t : forallb is_ping t = true -> packets_read idx t = [].
Proof. apply flat_map_none. intros [] E; auto; discriminate. Qed.

Lemma packets_read_tee idx t : forallb is_write_frame t = true -> packets_read idx t = [].
Proof. apply flat_map_none. intros [] E; auto; discriminate. Qed.

Lemma packets_read_gate idx t : forallb gate_event t = true -> packets_read idx t = [].
Proof. apply flat_map_none. intros [] E; auto; discriminate. Qed.

Lemma packets_read_decode idx t : forallb decode_event t = true -> packets_read idx t = [].
Proof. apply flat_map_none. intros [] E; auto; discriminate. Qed.

Lemma ping_now_fields h now p p1 t1 :
  ping_now h now p = (p1, t1) ->
  lastTimestamp p1 = lastTimestamp p /\ streamIdx p1 = streamIdx p
  /\ save_file p1 = save_file p /\ fctx p1 = fctx p /\ ofcx p1 = ofcx p.
Proof.
  intros H. apply ping_now_touch in H as (-> & _). destruct p; simpl. repeat split.
Qed.

Lemma play_run_lastTimestamp h p ks r p' tr :
  play_run h p ks r p' tr ->
  lastTimestamp p' = last_pts (packets_read (streamIdx p) tr) (lastTimestamp p).
Proof.
  induction 1.
  - reflexivity.
  - rewrite packets_read_callers. simpl.
    apply (flags_fields _ _ (callers_flags (k_caller k) p)).
  - pose proof (ping_now_touch _ _ _ _ _ H0) as (_ & _ & _ & P & _).
    pose proof (ping_now_fields _ _ _ _ _ H0) as (L & _).
    pose proof (flags_fields _ _ (callers_flags (k_caller k) p)) as (L0 & _).
    rewrite !packets_read_app, packets_read_callers, (packets_read_pings _ _ P).
    simpl. destruct (0 <=? k_read k) eqn:E; [lia|]. simpl. congruence.
  - pose proof (ping_now_touch _ _ _ _ _ H0) as (_ & _ & _ & P & _).
    pose proof (ping_now_fields _ _ _ _ _ H0) as (L & I & _).
    pose proof (flags_fields _ _ (callers_flags (k_caller k) p))
      as (L0 & _ & _ & _ & _ & I0 & _).
    rewrite !packets_read_app, packets_read_callers, (packets_read_pings _ _ P).
    simpl. rewrite <- I0, <- I.
    destruct (stream_index (k_pkt k) =? streamIdx p1) eqn:E; [lia|].
    rewrite andb_false_r. simpl. rewrite IHplay_run. congruence.
  - pose proof (ping_now_touch _ _ _ _ _ H0) as (_ & _ & _ & P & _).
    pose proof (ping_now_fields _ _ _ _ _ H0) as (L & I & _).
    pose proof (flags_fields _ _ (callers_flags (k_caller k) p))
      as (L0 & _ & _ & _ & _ & I0 & _).
    pose proof (pause_gate_spec _ _ _ _ H4) as (_ & T2 & G & _).
    pose proof (decode_loop_spec _ _ _ _ _ H5) as (T3 & D & _).
    apply flags_fields in T2 as (_ & _ & _ & _ & _ & I2 & _).
    apply flags_fields in T3 as (_ & _ & _ & _ & _ & I3 & _).
    rewrite !packets_read_app, packets_read_callers, (packets_read_pings _ _ P),
      (packets_read_tee _ _ (tee_events _ _ _ H3)), (packets_read_gate _ _ G),
      (packets_read_decode _ _ D).
    simpl. rewrite <- I0, <- I.
    destruct (stream_index (k_pkt k) =? streamIdx p1) eqn:E; [|lia].
    destruct (0 <=? k_read k) eqn:E2; [|lia]. simpl.
    rewrite IHplay_run.
    destruct (set_lastTimestamp_fields (pts (k_pkt k)) p3) as (-> & -> & _).
    simpl. replace (streamIdx p3) with (streamIdx p1) by congruence. reflexivity.
Qed.

Ltac by_kind := intros [] E; auto; discriminate.

Lemma audio_none (f : event -> bool) (t : trace) :
  (forall e, f e = true -> is_ao_play e = false) -> forallb f t = true -> audio t = [].
Proof. apply filter_none. Qed.

Lemma reads_ok_app (a b : trace) : reads_ok (a ++ b) = (reads_ok a + reads_ok b)%nat.
Proof. unfold reads_ok. now rewrite filter_app, length_app. Qed.

Lemma reads_ok_none (f : event -> bool) (t : trace) :
  (forall e, f e = true -> is_read_ok e = false) -> forallb f t = true -> reads_ok t = O.
Proof. intros H F. unfold reads_ok. now rewrite (filter_none f is_read_ok t H F). Qed.

Lemma callers_events (f : event -> bool) acts :
  (forall a, f (EvCaller a) = true) -> forallb f (map EvCaller acts) = true.
Proof. apply forallb_map_const. Qed.

Lemma caller_is_gate acts : forallb gate_event (map EvCaller acts) = true.
Proof. now apply callers_events. Qed.

(** Every packet of the selected stream that was read sends its decoded
    frames to the device once, in the order of reading, whatever the flags
    did in between. *)
Lemma play_run_audio h p ks r p' tr :
  play_run h p ks r p' tr ->
  audio tr = List.concat (map (packet_audio (streamIdx p)) (firstn (reads_ok tr) ks)).
Proof.
  induction 1.
  - reflexivity.
  - rewrite (audio_none gate_event), (reads_ok_none gate_event);
      auto using caller_is_gate; by_kind.
  - pose proof (ping_now_touch _ _ _ _ _ H0) as (_ & _ & _ & P & _).
    rewrite !audio_app, !reads_ok_app.
    rewrite (audio_none gate_event), (reads_ok_none gate_event),
      (audio_none is_ping t1), (reads_ok_none is_ping t1);
      auto using caller_is_gate; try by_kind.
    unfold reads_ok. simpl. destruct (0 <=? k_read k) eqn:E; [lia|]. reflexivity.
  - pose proof (ping_now_touch _ _ _ _ _ H0) as (_ & _ & _ & P & _).
    pose proof (ping_now_fields _ _ _ _ _ H0) as (_ & I & _).
    pose proof (flags_fields _ _ (callers_flags (k_caller k) p))
      as (_ & _ & _ & _ & _ & I0 & _).
    rewrite !audio_app, !reads_ok_app.
    rewrite (audio_none gate_event), (reads_ok_none gate_event),
      (audio_none is_ping t1), (reads_ok_none is_ping t1);
      auto using caller_is_gate; try by_kind.
    unfold reads_ok at 1. simpl. destruct (0 <=? k_read k) eqn:E; [|lia]. simpl.
    unfold packet_audio at 1. rewrite <- I0, <- I.
    destruct (stream_index (k_pkt k) =? streamIdx p1) eqn:E1; [lia|]. simpl.
    rewrite IHplay_run. reflexivity.
  - pose proof (ping_now_touch _ _ _ _ _ H0) as (_ & _ & _ & P & _).
    pose proof (ping_now_fields _ _ _ _ _ H0) as (_ & I & _).
    pose proof (flags_fields _ _ (callers_flags (k_caller k) p))
      as (_ & _ & _ & _ & _ & I0 & _).
    pose proof (pause_gate_spec _ _ _ _ H4) as (_ & T2 & G & _).
    pose proof (decode_loop_spec _ _ _ _ _ H5) as (T3 & D & A & _).
    apply flags_fields in T2 as (_ & _ & _ & _ & _ & I2 & _).
    apply flags_fields in T3 as (_ & _ & _ & _ & _ & I3 & _).
    rewrite !audio_app, !reads_ok_app.
    rewrite (audio_none gate_event (map _ _)), (reads_ok_none gate_event (map _ _)),
      (audio_none is_ping t1), (reads_ok_none is_ping t1),
      (audio_none is_write_frame tt), (reads_ok_none is_write_frame tt),
      (audio_none gate_event tg), (reads_ok_none gate_event tg),
      (reads_ok_none decode_event td);
      eauto using caller_is_gate, tee_events; try by_kind.
    unfold reads_ok at 1. simpl. destruct (0 <=? k_read k) eqn:E; [|lia]. simpl.
    unfold packet_audio at 1. rewrite <- I0, <- I.
    destruct (stream_index (k_pkt k) =? streamIdx p1) eqn:E1; [|lia].
    rewrite A, IHplay_run.
    destruct (set_lastTimestamp_fields (pts (k_pkt k)) p3) as (_ & -> & _).
    simpl. replace (streamIdx p3) with (streamIdx p1) by congruence. reflexivity.
Qed.

Lemma written_app (a b : trace) : written (a ++ b) = written a ++ written b.
Proof. apply flat_map_app. Qed.

Lemma written_none (f : event -> bool) (t : trace) :
  (forall e, f e = true -> written_stamps e = []) -> forallb f t = true -> written t = [].
Proof. apply flat_map_none. Qed.

Lemma packets_read_none (f : event -> bool) idx (t : trace) :
  (forall e, f e = true -> read_packet idx e = []) -> forallb f t = true ->
  packets_read idx t = [].
Proof. apply flat_map_none. Qed.

(** With the recording on, what is written is the packets of the selected
    stream, in the order of reading, with both time stamps rescaled from the
    codec time base of input stream 0 to the time base of the output
    stream. *)
Lemma play_run_written h p ks r p' tr :
  play_run h p ks r p' tr ->
  forall s0 rest out,
  save_file p = true -> fctx p = Some (s0 :: rest) -> ofcx p = Some out ->
  written tr =
  map (tee_stamps (codec_time_base s0) (out_time_base out))
      (packets_read (streamIdx p) tr).
Proof.
  induction 1; intros s0 rest out S F O.
  - reflexivity.
  - rewrite (written_none gate_event), (packets_read_none gate_event);
      auto using caller_is_gate; by_kind.
  - pose proof (ping_now_touch _ _ _ _ _ H0) as (_ & _ & _ & P & _).
    rewrite !written_app, !packets_read_app.
    rewrite (written_none gate_event), (packets_read_none gate_event),
      (written_none is_ping t1), (packets_read_none is_ping _ t1);
      auto using caller_is_gate; try by_kind.
    simpl. destruct (0 <=? k_read k) eqn:E; [lia|]. reflexivity.
  - pose proof (ping_now_touch _ _ _ _ _ H0) as (_ & _ & _ & P & _).
    pose proof (ping_now_fields _ _ _ _ _ H0) as (_ & I & S1 & F1 & O1).
    pose proof (flags_fields _ _ (callers_flags (k_caller k) p))
      as (_ & _ & S0 & F0 & O0 & I0 & _).
    rewrite !written_app, !packets_read_app.
    rewrite (written_none gate_event), (packets_read_none gate_event),
      (written_none is_ping t1), (packets_read_none is_ping _ t1);
      auto using caller_is_gate; try by_kind.
    simpl. rewrite <- I0, <- I.
    destruct (stream_index (k_pkt k) =? streamIdx p1) eqn:E1; [lia|].
    rewrite andb_false_r. simpl.
    apply (IHplay_run s0 rest out); congruence.
  - pose proof (ping_now_touch _ _ _ _ _ H0) as (_ & _ & _ & P & _).
    pose proof (ping_now_fields _ _ _ _ _ H0) as (_ & I & S1 & F1 & O1).
    pose proof (flags_fields _ _ (callers_flags (k_caller k) p))
      as (_ & _ & S0 & F0 & O0 & I0 & _).
    pose proof (pause_gate_spec _ _ _ _ H4) as (_ & T2 & G & _).
    pose proof (decode_loop_spec _ _ _ _ _ H5) as (T3 & D & A & _).
    apply flags_fields in T2 as (_ & _ & S2 & F2 & O2 & I2 & _).
    apply flags_fields in T3 as (_ & _ & S3 & F3 & O3 & I3 & _).
    rewrite !written_app, !packets_read_app.
    rewrite (written_none gate_event (map _ _)),
      (packets_read_none gate_event _ (map _ _)),
      (written_none is_ping t1), (packets_read_none is_ping _ t1),
      (packets_read_none is_write_frame _ tt),
      (written_none gate_event tg), (packets_read_none gate_event _ tg),
      (written_none decode_event td), (packets_read_none decode_event _ td);
      eauto using caller_is_gate, tee_events; try by_kind.
    simpl. rewrite <- I0, <- I.
    destruct (stream_index (k_pkt k) =? streamIdx p1) eqn:E1; [|lia].
    destruct (0 <=? k_read k) eqn:E; [|lia]. simpl.
    destruct (set_lastTimestamp_fields (pts (k_pkt k)) p3) as (_ & I4 & S4 & F4 & O4 & _).
    rewrite (IHplay_run s0 rest out); try congruence.
    unfold tee in H3. rewrite S1, S0, S, F1, F0, F, O1, O0, O in H3.
    inversion H3; subst. simpl. unfold tee_stamps.
    replace (streamIdx (set_lastTimestamp (pts (k_pkt k)) p3)) with (streamIdx p1)
      by congruence.
    reflexivity.
Qed.

(** ** Pings *)

Lemma pinged_mono (tr : trace) b : pinged false tr = true -> pinged b tr = true.
Proof.
  destruct tr as [|e tr]; simpl; auto.
  destruct (is_blocking_io e); simpl; auto. discriminate.
Qed.

Lemma pinged_app (a c : trace) :
  forall b, pinged b a = true -> pinged false c = true -> pinged b (a ++ c) = true.
Proof.
  induction a as [|e a IH]; intros b Ha Hc; simpl in *.
  - now apply pinged_mono.
  - apply andb_true_iff in Ha as [H1 H2]. rewrite H1. simpl. now apply IH.
Qed.

Lemma pinged_quiet (f : event -> bool) (tr : trace) :
  (forall e, f e = true -> is_blocking_io e = false) ->
  forallb f tr = true -> forall b, pinged b tr = true.
Proof.
  intros H. induction tr as [|e tr IH]; simpl; auto.
  intros E b. apply andb_true_iff in E as [E1 E2]. rewrite (H _ E1). simpl. now apply IH.
Qed.

Lemma last_ping_app (a b : trace) d : last_ping (a ++ b) d = last_ping b (last_ping a d).
Proof. apply fold_left_app. Qed.

Lemma last_ping_none (f : event -> bool) (tr : trace) :
  (forall e, f e = true -> is_ping e = false) ->
  forallb f tr = true -> forall d, last_ping tr d = d.
Proof.
  intros H. induction tr as [|e tr IH]; simpl; auto.
  intros E d. apply andb_true_iff in E as [E1 E2].
  unfold last_ping in *. simpl. rewrite IH by assumption.
  specialize (H _ E1). destruct e; auto; discriminate.
Qed.

(** In the build with the watchdog every [av_read_frame] of [play] follows a
    ping, and [ping] holds the clock reading of the latest one. *)
Lemma play_run_pinged p ks r p' tr :
  play_run false p ks r p' tr ->
  (forall b, pinged b tr = true) /\ ping p' = last_ping tr (ping p).
Proof.
  induction 1.
  - split; reflexivity.
  - split.
    + apply (pinged_quiet gate_event); auto using caller_is_gate; by_kind.
    + rewrite (last_ping_none gate_event); auto using caller_is_gate; try by_kind.
      apply (flags_fields _ _ (callers_flags (k_caller k) p)).
  - pose proof (ping_now_touch _ _ _ _ _ H0) as (_ & _ & _ & _ & P).
    destruct (P eq_refl) as [-> P1].
    split.
    + intros b. apply pinged_app; [|reflexivity].
      apply (pinged_quiet gate_event); auto using caller_is_gate; by_kind.
    + rewrite last_ping_app. simpl. exact P1.
  - pose proof (ping_now_touch _ _ _ _ _ H0) as (_ & _ & _ & _ & P).
    destruct (P eq_refl) as [-> P1]. destruct IHplay_run as [IH1 IH2].
    split.
    + intros b. apply pinged_app; [|apply IH1].
      apply pinged_app; [|reflexivity].
      apply (pinged_quiet gate_event); auto using caller_is_gate; by_kind.
    + rewrite IH2, !last_ping_app. simpl. now rewrite P1.
  - pose proof (ping_now_touch _ _ _ _ _ H0) as (_ & _ & _ & _ & P).
    destruct (P eq_refl) as [-> P1]. destruct IHplay_run as [IH1 IH2].
    pose proof (pause_gate_spec _ _ _ _ H4) as (_ & T2 & G & _).
    pose proof (decode_loop_spec _ _ _ _ _ H5) as (T3 & D & A & _).
    apply flags_fields in T2 as (_ & P2 & _).
    apply flags_fields in T3 as (_ & P3 & _).
    split.
    + intros b. apply pinged_app; [|apply IH1].
      apply pinged_app.
      * apply pinged_app; [|reflexivity].
        apply (pinged_quiet gate_event); auto using caller_is_gate; by_kind.
      * apply pinged_app; [|apply pinged_app].
        -- apply (pinged_quiet is_write_frame); eauto using tee_events; by_kind.
        -- apply (pinged_quiet gate_event); auto; by_kind.
        -- apply (pinged_quiet decode_event); auto; by_kind.
    + rewrite IH2, !last_ping_app. simpl.
      rewrite (last_ping_none is_write_frame tt), (last_ping_none gate_event tg),
        (last_ping_none decode_event td); eauto using tee_events; try by_kind.
      f_equal.
      destruct (set_lastTimestamp_fields (pts (k_pkt k)) p3) as (_ & _ & _ & _ & _ & ->).
      congruence.
Qed.

(** ** Playback does not depend on the recording *)

Lemma callers_rec_off acts p : callers acts (rec_off p) = rec_off (callers acts p).
Proof.
  revert p. induction acts as [|a acts IH]; intros p; [reflexivity|].
  change (callers (a :: acts) (rec_off p)) with (callers acts (caller_step (rec_off p) a)).
  replace (caller_step (rec_off p) a) with (rec_off (caller_step p a))
    by (destruct a, p; reflexivity).
  apply IH.
Qed.

Lemma pause_gate_rec_off waits :
  forall p p' tr, pause_gate p waits = Some (p', tr) ->
  pause_gate (rec_off p) waits = Some (rec_off p', tr).
Proof.
  induction waits as [|w waits IH]; intros p p' tr; simpl;
    replace (doPause (rec_off p)) with (doPause p) by (destruct p; reflexivity).
  - destruct (doPause p); [discriminate|]. intros H; inversion H; subst. reflexivity.
  - destruct (doPause p).
    + destruct (pause_gate (callers w p) waits) as [[q t]|] eqn:G; [|discriminate].
      intros H; inversion H; subst.
      rewrite callers_rec_off, (IH _ _ _ G). reflexivity.
    + intros H; inversion H; subst. reflexivity.
Qed.

Lemma decode_loop_rec_off ds :
  forall p sz p' tr, decode_loop p sz ds = Some (p', tr) ->
  decode_loop (rec_off p) sz ds = Some (rec_off p', tr).
Proof.
  induction ds as [|d ds IH]; intros p sz p' tr; simpl; [discriminate|].
  rewrite callers_rec_off.
  destruct (d_decoded d <? 0).
  - intros H; inversion H; subst. reflexivity.
  - destruct (sz - d_decoded d >? 0).
    + destruct (decode_loop (callers (d_caller d) p) (sz - d_decoded d) ds)
        as [[q t]|] eqn:G; [|discriminate].
      intros H; inversion H; subst. rewrite (IH _ _ _ _ G). reflexivity.
    + intros H; inversion H; subst. reflexivity.
Qed.

Lemma strip_rec_app (a b : trace) : strip_rec (a ++ b) = strip_rec a ++ strip_rec b.
Proof. apply filter_app. Qed.

Lemma strip_rec_keep (f : event -> bool) (t : trace) :
  (forall e, f e = true -> is_write_frame e = false) -> forallb f t = true ->
  strip_rec t = t.
Proof.
  intros H. apply filter_all. intros e E. now rewrite (H e E).
Qed.

Lemma strip_rec_tee (t : trace) : forallb is_write_frame t = true -> strip_rec t = [].
Proof.
  apply filter_none. intros e E. now rewrite E.
Qed.

Lemma ping_now_rec_off h now p p1 t1 :
  ping_now h now p = (p1, t1) -> ping_now h now (rec_off p) = (rec_off p1, t1).
Proof.
  unfold ping_now. destruct h, p; intros H; inversion H; subst; reflexivity.
Qed.

(** The run of [play] from the same state with the recording off: the same
    return value, the same final state up to the recording fields, the same
    trace less the writes to the recording. *)
Lemma play_run_rec_off h p ks r p' tr :
  play_run h p ks r p' tr ->
  play_run h (rec_off p) ks r (rec_off p') (strip_rec tr).
Proof.
  assert (Q : forall x b, doQuit x = b -> doQuit (rec_off x) = b)
    by (intros [] b; auto).
  assert (I : forall x, streamIdx (rec_off x) = streamIdx x) by (intros []; auto).
  induction 1.
  - constructor. auto.
  - rewrite (strip_rec_keep gate_event); auto using caller_is_gate; try by_kind.
    rewrite <- callers_rec_off. constructor. rewrite callers_rec_off. auto.
  - pose proof (ping_now_touch _ _ _ _ _ H0) as (_ & _ & _ & P & _).
    rewrite !strip_rec_app.
    rewrite (strip_rec_keep gate_event), (strip_rec_keep is_ping t1);
      auto using caller_is_gate; try by_kind.
    simpl. apply run_read_error; rewrite ?callers_rec_off;
      auto using ping_now_rec_off.
  - pose proof (ping_now_touch _ _ _ _ _ H0) as (_ & _ & _ & P & _).
    rewrite !strip_rec_app.
    rewrite (strip_rec_keep gate_event), (strip_rec_keep is_ping t1);
      auto using caller_is_gate; try by_kind.
    simpl. apply run_other_stream with (p1 := rec_off p1);
      rewrite ?callers_rec_off, ?I; auto using ping_now_rec_off.
  - pose proof (ping_now_touch _ _ _ _ _ H0) as (_ & _ & _ & P & _).
    pose proof (pause_gate_spec _ _ _ _ H4) as (_ & _ & G & _).
    pose proof (decode_loop_spec _ _ _ _ _ H5) as (_ & D & _).
    rewrite !strip_rec_app.
    rewrite (strip_rec_keep gate_event (map _ _)), (strip_rec_keep is_ping t1),
      (strip_rec_tee tt), (strip_rec_keep gate_event tg),
      (strip_rec_keep decode_event td);
      eauto using caller_is_gate, tee_events; try by_kind.
    simpl strip_rec.
    replace (rec_off (set_lastTimestamp (pts (k_pkt k)) p3))
      with (set_lastTimestamp (pts (k_pkt k)) (rec_off p3)) in IHplay_run
      by (destruct p3; reflexivity).
    apply run_packet with (p1 := rec_off p1) (p2 := rec_off p2) (p3 := rec_off p3)
      (tt := []); rewrite ?callers_rec_off, ?I;
      auto using ping_now_rec_off, pause_gate_rec_off, decode_loop_rec_off.
    destruct p1; reflexivity.
Qed.

(** [play] entered with [doQuit] set: the loop is left at once. *)
Lemma play_quit_now h p ks :
  doQuit p = true ->
  exists p' tr, play h p ks = Some (0, p', tr)
    /\ forallb is_caller tr = true /\ p' = flags p p' /\ doQuit p' = true.
Proof.
  intros Q. destruct ks as [|k ks]; simpl.
  - rewrite Q. exists p, []. repeat split; auto using flags_refl.
  - rewrite (callers_quit_mono _ _ Q).
    exists (callers (k_caller k) p), (map EvCaller (k_caller k)).
    repeat split; auto using callers_flags, callers_quit_mono.
    now apply forallb_map_const.
Qed.

(** ** [openStream], [openFilter], [openDevice], [finish] *)

Ltac split_ifs H :=
  repeat match type of H with
         | context [if ?c then _ else _] => destruct c eqn:?; simpl in H
         | context [match ?c with Some _ => _ | None => _ end] =>
           destruct c eqn:?; simpl in H
         end.

Ltac rewrite_conds :=
  repeat match goal with
         | E : ?c = _ |- context [?c] => rewrite E
         end.

(** What [openStream] leaves alone, whether it succeeds or not. *)
Lemma openStream_keeps h p io ok p' tr :
  openStream h p io = (ok, p', tr) ->
  lastTimestamp p' = lastTimestamp p /\ doQuit p' = doQuit p /\ doPause p' = doPause p
  /\ aoDev p' = aoDev p /\ fgraph p' = fgraph p /\ save_dir p' = save_dir p
  /\ forallb open_event tr = true
  /\ (ok = false -> save_file p' = save_file p /\ tmp_filename p' = tmp_filename p
                    /\ save_complete p' = save_complete p /\ ofcx p' = ofcx p
                    /\ mode p' = mode p).
Proof.
  unfold openStream, openStream_save, ping_now, softfail. intros H.
  destruct p; simpl in *. split_ifs H; inversion H; subst; simpl;
    repeat split; auto; discriminate.
Qed.

(** A successful [openStream]. *)
Lemma openStream_ok h p io p' tr :
  openStream h p io = (true, p', tr) ->
  mode p' = PLAYER_PLAYING
  /\ fctx p' = Some (o_streams io)
  /\ streamIdx p' = o_find_best_stream io
  /\ st p' = Some (nth (Z.to_nat (streamIdx p')) (o_streams io) garbage_stream)
  /\ filter is_seek tr =
       (if lastTimestamp p >? 0
        then [EvSeekFrame (streamIdx p') (lastTimestamp p)] else []).
Proof.
  unfold openStream, openStream_save, ping_now, softfail. intros H.
  destruct p; simpl in *. split_ifs H; inversion H; subst; simpl;
    repeat split; auto; discriminate.
Qed.

(** In the build with the watchdog every blocking call of [openStream]
    follows a ping, and [ping] holds the clock reading of the latest one. *)
Lemma openStream_pinged p io ok p' tr :
  openStream false p io = (ok, p', tr) ->
  (forall b, pinged b tr = true) /\ ping p' = last_ping tr (ping p).
Proof.
  unfold openStream, openStream_save, ping_now, softfail. intros H.
  destruct p; simpl in *. split_ifs H; inversion H; subst; clear H;
    (split; [intros b; cbn; destruct b; reflexivity | unfold last_ping; cbn; reflexivity]).
Qed.

(** The decision on the recording. *)
Lemma openStream_recording h p io p' tr :
  openStream h p io = (true, p', tr) ->
  (save_file p' = true <-> (exists dir, save_dir p = Some dir) /\ o_access io = -1)
  /\ (forall dir, save_dir p = Some dir ->
      save_complete p' =
        save_path_in io dir (station p) +++ save_filename_of (artist p) (title p)
      /\ tmp_filename p' = "/tmp/" +++ save_filename_of (artist p) (title p)
      /\ In (EvAccess (save_complete p') (o_access io)) tr
      /\ filter is_mkdir tr =
           (if o_stat io =? -1
            then [EvMkdir (save_path_in io dir (station p)) (o_mkdir io)] else []))
  /\ (save_file p' = false -> ofcx p' = None /\ filter is_rec_create tr = [])
  /\ (save_file p' = true ->
      (exists out, ofcx p' = Some out)
      /\ filter is_rec_create tr = [EvAvioOpen (tmp_filename p'); EvWriteHeader]).
Proof.
  unfold openStream, openStream_save, ping_now, softfail, save_path_in. intros H.
  destruct p; simpl in *.
  split_ifs H; inversion H; subst; simpl; clear H;
    (split; [split; [intros E; try discriminate E; split; eauto; lia
                    |intros [[dir D] A]; try discriminate D; auto; lia]|]);
    (split; [intros dir D; inversion D; subst; repeat split; auto;
             rewrite ?in_app_iff; simpl; tauto|]);
    (split; intros E; try discriminate E; split; eauto).
Qed.

(** The result of [mkdir] is not looked at: with another result the open
    returns the same session and the same trace but for the recorded
    result. *)
Lemma openStream_mkdir h p io ok p' tr m :
  openStream h p io = (ok, p', tr) ->
  exists tr', openStream h p (with_mkdir m io) = (ok, p', tr')
              /\ strip_mkdir tr' = strip_mkdir tr.
Proof.
  unfold openStream, openStream_save, ping_now, softfail, strip_mkdir. intros H.
  destruct p; simpl in *.
  split_ifs H; inversion H; subst; clear H; simpl; rewrite_conds; simpl;
    eexists; split; reflexivity.
Qed.

Lemma openFilter_spec c p io ok p' tr :
  openFilter c p io = (ok, p', tr) ->
  p' = set_fgraph (fgraph p') p /\ forallb setup_event tr = true
  /\ (ok = true -> fgraph p' = true).
Proof.
  unfold openFilter, BarPlayerSetVolume, softfail. intros H.
  destruct p; simpl in *. split_ifs H; inversion H; subst; simpl;
    repeat split; auto; discriminate.
Qed.

Lemma openDevice_spec p opened ok p' tr :
  openDevice p opened = (ok, p', tr) ->
  p' = set_aoDev (aoDev p') p /\ forallb setup_event tr = true /\ ok = opened.
Proof.
  unfold openDevice. intros H.
  destruct p, opened; inversion H; subst; simpl; auto.
Qed.

(** [finish] releases device, filter graph, decoder and input, and nothing
    else. *)
Lemma finish_spec p :
  let '(p', tr) := finish p in
  p' = set_fctx None (set_st None (set_fgraph false (set_aoDev false p)))
  /\ forallb finish_event tr = true
  /\ tr = [EvAoClose] ++ (if fgraph p then [EvGraphFree] else [])
          ++ (match st p with Some _ => [EvCodecClose] | None => [] end)
          ++ (match fctx p with Some _ => [EvCloseInput] | None => [] end).
Proof.
  unfold finish. destruct p as [? ? ? ? ? ? f ? s ? ? ? ? ? ? ? ? ? g]; simpl.
  destruct g, s, f; simpl; auto.
Qed.

(** ** The retry loop *)

(** The three ways through the body of the loop. *)
Lemma body_inv h c pret p s retry pret' p' tr :
  BarPlayerThread_body h c pret p s = Some (retry, pret', p', tr) ->
  (exists p1 t1,
      openStream h p (s_open s) = (false, p1, t1)
      /\ retry = false /\ pret' = PLAYER_RET_SOFTFAIL
      /\ p' = fst (finish p1) /\ tr = t1 ++ snd (finish p1))
  \/ (exists p1 t1 p2 t2,
      openStream h p (s_open s) = (true, p1, t1)
      /\ p2 = set_aoDev (aoDev p2) (set_fgraph (fgraph p2) p1)
      /\ forallb setup_event t2 = true
      /\ retry = false /\ pret' = PLAYER_RET_HARDFAIL
      /\ p' = fst (finish p2) /\ tr = t1 ++ t2 ++ snd (finish p2))
  \/ (exists p1 t1 p2 t2 p3 t3 r p4 t4,
      openStream h p (s_open s) = (true, p1, t1)
      /\ openFilter c p1 (s_filter s) = (true, p2, t2)
      /\ openDevice p2 (s_device s) = (true, p3, t3)
      /\ play h p3 (s_play s) = Some (r, p4, t4)
      /\ retry = (r =? AVERROR_INVALIDDATA) /\ pret' = pret
      /\ p' = fst (finish p4) /\ tr = t1 ++ t2 ++ t3 ++ t4 ++ snd (finish p4)).
Proof.
  unfold BarPlayerThread_body.
  destruct (openStream h p (s_open s)) as [[[] p1] t1] eqn:O.
  - destruct (openFilter c p1 (s_filter s)) as [[[] p2] t2] eqn:F.
    + destruct (openDevice p2 (s_device s)) as [[[] p3] t3] eqn:D.
      * destruct (play h p3 (s_play s)) as [[[r p4] t4]|] eqn:P; [|discriminate].
        destruct (finish p4) as [p5 t5] eqn:E.
        intros H; inversion H; subst. right; right.
        exists p1, t1, p2, t2, p3, t3, r, p4, t4. rewrite E. repeat split; auto.
      * destruct (finish p3) as [p5 t5] eqn:E.
        intros H; inversion H; subst. right; left.
        exists p1, t1, p3, (t2 ++ t3). rewrite E.
        apply openFilter_spec in F as (F1 & F2 & _).
        apply openDevice_spec in D as (D1 & D2 & _).
        repeat split; auto.
        -- rewrite D1, F1. destruct p1, p2, p3; reflexivity.
        -- now rewrite forallb_app, F2, D2.
        -- now rewrite <- app_assoc.
    + destruct (finish p2) as [p5 t5] eqn:E.
      intros H; inversion H; subst. right; left.
      exists p1, t1, p2, t2. rewrite E.
      apply openFilter_spec in F as (F1 & F2 & _).
      repeat split; auto; rewrite ?app_nil_r; auto.
      rewrite F1. destruct p1, p2; reflexivity.
  - destruct (finish p1) as [p5 t5] eqn:E.
    intros H; inversion H; subst. left. exists p1, t1. rewrite E. auto.
Qed.

Lemma finish_keeps p :
  lastTimestamp (fst (finish p)) = lastTimestamp p
  /\ doQuit (fst (finish p)) = doQuit p
  /\ save_file (fst (finish p)) = save_file p
  /\ tmp_filename (fst (finish p)) = tmp_filename p
  /\ save_complete (fst (finish p)) = save_complete p
  /\ ping (fst (finish p)) = ping p
  /\ forallb finish_event (snd (finish p)) = true.
Proof.
  pose proof (finish_spec p) as H. destruct (finish p) as [p' tr].
  destruct H as (-> & H & _). destruct p; simpl. repeat split. exact H.
Qed.

Lemma loop_event_open t : forallb open_event t = true -> forallb loop_event t = true.
Proof. apply forallb_weaken. intros e E. unfold loop_event. now rewrite E. Qed.

Lemma loop_event_setup t : forallb setup_event t = true -> forallb loop_event t = true.
Proof. apply forallb_weaken. intros [] E; auto; discriminate. Qed.

Lemma loop_event_play t : forallb play_event t = true -> forallb loop_event t = true.
Proof.
  apply forallb_weaken. intros e E. unfold loop_event. rewrite E.
  now rewrite orb_true_r.
Qed.

Lemma loop_event_finish t : forallb finish_event t = true -> forallb loop_event t = true.
Proof.
  apply forallb_weaken. intros e E. unfold loop_event. rewrite E.
  now rewrite orb_true_r.
Qed.

(** The events of one round. *)
Lemma body_events h c pret p s retry pret' p' tr :
  BarPlayerThread_body h c pret p s = Some (retry, pret', p', tr) ->
  forallb loop_event tr = true.
Proof.
  intros H. apply body_inv in H
    as [(p1 & t1 & O & _ & _ & _ & ->)
       |[(p1 & t1 & p2 & t2 & O & _ & E & _ & _ & _ & ->)
        |(p1 & t1 & p2 & t2 & p3 & t3 & r & p4 & t4 & O & F & D & P & _ & _ & _ & ->)]];
    rewrite !forallb_app.
  - apply openStream_keeps in O as (_ & _ & _ & _ & _ & _ & O & _).
    now rewrite (loop_event_open _ O), (loop_event_finish _ (proj2 (proj2 (proj2 (proj2 (proj2 (proj2 (finish_keeps p1)))))))).
  - apply openStream_keeps in O as (_ & _ & _ & _ & _ & _ & O & _).
    now rewrite (loop_event_open _ O), (loop_event_setup _ E),
      (loop_event_finish _ (proj2 (proj2 (proj2 (proj2 (proj2 (proj2 (finish_keeps p2)))))))).
  - apply openStream_keeps in O as (_ & _ & _ & _ & _ & _ & O & _).
    apply openFilter_spec in F as (_ & F & _).
    apply openDevice_spec in D as (_ & D & _).
    apply play_run_sound, play_run_events in P.
    now rewrite (loop_event_open _ O), (loop_event_setup _ F), (loop_event_setup _ D),
      (loop_event_play _ P),
      (loop_event_finish _ (proj2 (proj2 (proj2 (proj2 (proj2 (proj2 (finish_keeps p4)))))))).
Qed.

Lemma loop_events h c ss :
  forall pret p ret p' tr,
  BarPlayerThread_loop h c pret p ss = Some (ret, p', tr) ->
  forallb loop_event tr = true.
Proof.
  induction ss as [|s ss IH]; intros pret p ret p' tr; simpl; [discriminate|].
  destruct (BarPlayerThread_body h c pret p s) as [[[[retry pret1] p1] t1]|] eqn:B;
    [|discriminate].
  pose proof (body_events _ _ _ _ _ _ _ _ _ B) as E.
  destruct retry.
  - intros H. apply prepend_some in H as (tr' & H & ->).
    rewrite forallb_app, E. simpl. eapply IH; eauto.
  - intros H; inversion H; subst. exact E.
Qed.

(** Rounds that ended with a retry are a prefix of the loop. *)
Lemma loop_retried h c pret p ss1 p1 tr1 :
  retried h c pret p ss1 p1 tr1 ->
  forall ss2, BarPlayerThread_loop h c pret p (ss1 ++ ss2)
              = prepend tr1 (BarPlayerThread_loop h c pret p1 ss2).
Proof.
  induction 1; intros ss2; simpl.
  - destruct (BarPlayerThread_loop h c pret p ss2) as [[[? ?] ?]|]; reflexivity.
  - rewrite H, IHretried.
    destruct (BarPlayerThread_loop h c pret p' ss2) as [[[? ?] ?]|]; simpl;
      [now rewrite app_assoc|reflexivity].
Qed.

(** In the build with the watchdog, a round of the loop pings before every
    blocking call, and [ping] holds the clock reading of the latest ping. *)
Lemma body_pinged c pret p s retry pret' p' tr :
  BarPlayerThread_body false c pret p s = Some (retry, pret', p', tr) ->
  (forall b, pinged b tr = true) /\ ping p' = last_ping tr (ping p).
Proof.
  assert (Q : forall (f : event -> bool) t,
             (forall e, f e = true -> is_blocking_io e = false) ->
             forallb f t = true -> pinged false t = true)
    by (intros f t Hf Ht; now apply (pinged_quiet f)).
  assert (Qs : forall e, setup_event e = true -> is_blocking_io e = false) by by_kind.
  assert (Qf : forall e, finish_event e = true -> is_blocking_io e = false) by by_kind.
  assert (Ls : forall e, setup_event e = true -> is_ping e = false) by by_kind.
  assert (Lf : forall e, finish_event e = true -> is_ping e = false) by by_kind.
  intros H. apply body_inv in H
    as [(p1 & t1 & O & _ & _ & -> & ->)
       |[(p1 & t1 & p2 & t2 & O & E2 & E & _ & _ & -> & ->)
        |(p1 & t1 & p2 & t2 & p3 & t3 & r & p4 & t4 & O & F & D & P & _ & _ & -> & ->)]].
  - apply openStream_pinged in O as (O1 & O2).
    destruct (finish_keeps p1) as (_ & _ & _ & _ & _ & G & K).
    split.
    + intros b. apply pinged_app; eauto.
    + rewrite last_ping_app, (last_ping_none finish_event); auto. congruence.
  - apply openStream_pinged in O as (O1 & O2).
    destruct (finish_keeps p2) as (_ & _ & _ & _ & _ & G & K).
    split.
    + intros b. repeat (apply pinged_app; eauto).
    + rewrite !last_ping_app, (last_ping_none finish_event),
        (last_ping_none setup_event); auto.
      rewrite G, E2, <- O2. destruct p1; reflexivity.
  - apply openStream_pinged in O as (O1 & O2).
    apply openFilter_spec in F as (F1 & F & _).
    apply openDevice_spec in D as (D1 & D & _).
    apply play_run_sound, play_run_pinged in P as (P1 & P2).
    destruct (finish_keeps p4) as (_ & _ & _ & _ & _ & G & K).
    split.
    + intros b. repeat (apply pinged_app; eauto).
    + rewrite !last_ping_app, (last_ping_none finish_event); auto.
      rewrite (last_ping_none setup_event t3), (last_ping_none setup_event t2); auto.
      rewrite G, P2, <- O2. f_equal. rewrite D1, F1. destruct p1; reflexivity.
Qed.

Lemma loop_pinged c ss :
  forall pret p ret p' tr,
  BarPlayerThread_loop false c pret p ss = Some (ret, p', tr) ->
  (forall b, pinged b tr = true) /\ ping p' = last_ping tr (ping p).
Proof.
  induction ss as [|s ss IH]; intros pret p ret p' tr; simpl; [discriminate|].
  destruct (BarPlayerThread_body false c pret p s) as [[[[retry pret1] p1] t1]|] eqn:B;
    [|discriminate].
  apply body_pinged in B as (B1 & B2).
  destruct retry.
  - intros H. apply prepend_some in H as (tr' & H & ->).
    apply IH in H as (H1 & H2). split.
    + intros b. apply pinged_app; auto.
    + rewrite last_ping_app. congruence.
  - intros H; inversion H; subst. auto.
Qed.

(** * The claims *)

(** ** C8: the watchdog *)

Lemma wrap64_small z : - 2 ^ 63 <= z < 2 ^ 63 -> wrap64 z = z.
Proof. intros H. unfold wrap64. rewrite Z.mod_small; lia. Qed.

(** C8.  In the build with the watchdog (no [HAVE_AV_TIMEOUT]) the interrupt
    callback [intCb] reports a stall exactly when more than ten seconds
    (10 * 1000000 microseconds) have passed since the time stored by the last
    ping (the 64-bit difference of the two clock readings being
    representable); in every run of the worker each blocking call into the
    stream library (open, probe, seek, packet read) is immediately preceded
    by a ping, and the stored time is the clock reading of the latest
    ping. *)
Theorem C8_watchdog (now : Z) (q : player_t) (c : bool) (p : player_t)
  (ss : list session_io) (fin : list caller_act)
  (ret : BarPlayerRet) (p' : player_t) (tr : trace) :
  - 2 ^ 63 <= now - ping q < 2 ^ 63 ->
  BarPlayerThread false c p ss fin = Some (ret, p', tr) ->
  (intCb now q = true <-> 10 * 1000000 < now - ping q)
  /\ pinged false tr = true
  /\ ping p' = last_ping tr (ping p).
Proof.
  intros R H. split.
  { unfold intCb. rewrite (wrap64_small _ R). apply Z.ltb_lt. }
  unfold BarPlayerThread in H.
  destruct (BarPlayerThread_loop false c PLAYER_RET_OK p ss) as [[[pret p1] t1]|] eqn:L;
    [|discriminate].
  apply loop_pinged in L as (L1 & L2).
  assert (P : ping (callers fin (set_mode PLAYER_FINISHED p1)) = ping p1).
  { rewrite (proj1 (proj2 (flags_fields _ _ (callers_flags fin _)))).
    destruct p1; reflexivity. }
  assert (F : forall b, pinged b (t1 ++ map EvCaller fin) = true).
  { intros b. apply pinged_app; auto.
    apply (pinged_quiet gate_event); auto using caller_is_gate. by_kind. }
  assert (G : last_ping (t1 ++ map EvCaller fin) (ping p) = ping p1).
  { rewrite last_ping_app, (last_ping_none gate_event); auto using caller_is_gate.
    by_kind. }
  destruct (save_file _ && negb (doQuit _)); inversion H; subst; clear H.
  - split.
    + apply pinged_app; auto.
    + rewrite last_ping_app, G. rewrite P. reflexivity.
  - split; auto. now rewrite G, P.
Qed.

Lemma C8_watchdog_witness :
  exists ret p' tr,
    BarPlayerThread false true sample_player [sample_session] [] = Some (ret, p', tr)
    /\ (intCb 10000101 sample_player = true
        <-> 10 * 1000000 < 10000101 - ping sample_player)
    /\ pinged false tr = true
    /\ ping p' = last_ping tr (ping sample_player).
Proof.
  eexists _, _, _. split; [reflexivity|].
  eapply (C8_watchdog 10000101 sample_player true sample_player [sample_session] []).
  - simpl. lia.
  - reflexivity.
Defined.

(** ** What the thread leaves alone *)

Lemma openStream_inputs h p io ok p' tr :
  openStream h p io = (ok, p', tr) -> inputs p' = inputs p.
Proof.
  unfold openStream, openStream_save, ping_now, softfail, inputs. intros H.
  destruct p; simpl in *. split_ifs H; inversion H; subst; reflexivity.
Qed.

Lemma touch_inputs p q : q = touch p q -> inputs q = inputs p.
Proof. intros ->. destruct p; reflexivity. Qed.

Lemma flags_inputs p q : q = flags p q -> inputs q = inputs p.
Proof. intros ->. destruct p; reflexivity. Qed.

Lemma finish_inputs p : inputs (fst (finish p)) = inputs p.
Proof.
  pose proof (finish_spec p) as H. destruct (finish p) as [q t].
  destruct H as (-> & _). destruct p; reflexivity.
Qed.

Lemma body_inputs h c pret p s retry pret' p' tr :
  BarPlayerThread_body h c pret p s = Some (retry, pret', p', tr) ->
  inputs p' = inputs p.
Proof.
  unfold BarPlayerThread_body.
  destruct (openStream h p (s_open s)) as [[ok p1] t1] eqn:O.
  apply openStream_inputs in O.
  destruct ok.
  - destruct (openFilter c p1 (s_filter s)) as [[okf p2] t2] eqn:F.
    apply openFilter_spec in F as (F & _).
    assert (I2 : inputs p2 = inputs p1) by (rewrite F; destruct p1; reflexivity).
    destruct okf.
    + destruct (openDevice p2 (s_device s)) as [[okd p3] t3] eqn:D.
      apply openDevice_spec in D as (D & _).
      assert (I3 : inputs p3 = inputs p2) by (rewrite D; destruct p2; reflexivity).
      destruct okd.
      * destruct (play h p3 (s_play s)) as [[[r p4] t4]|] eqn:P; [|discriminate].
        apply play_run_sound, play_run_touch, touch_inputs in P.
        pose proof (finish_inputs p4) as I5. destruct (finish p4) as [p5 t5].
        intros H; inversion H; subst. simpl in I5. congruence.
      * pose proof (finish_inputs p3) as I5. destruct (finish p3) as [p5 t5].
        intros H; inversion H; subst. simpl in I5. congruence.
    + pose proof (finish_inputs p2) as I5. destruct (finish p2) as [p5 t5].
      intros H; inversion H; subst. simpl in I5. congruence.
  - pose proof (finish_inputs p1) as I5. destruct (finish p1) as [p5 t5].
    intros H; inversion H; subst. simpl in I5. congruence.
Qed.

Lemma loop_inputs h c (ss : list session_io) :
  forall pret p ret p' tr,
  BarPlayerThread_loop h c pret p ss = Some (ret, p', tr) -> inputs p' = inputs p.
Proof.
  induction ss as [|s ss IH]; intros pret p ret p' tr; simpl; [discriminate|].
  destruct (BarPlayerThread_body h c pret p s) as [[[[retry pret1] q] t]|] eqn:B;
    [|discriminate].
  apply body_inputs in B. destruct retry.
  - intros H. apply prepend_some in H as (tr' & H & _).
    apply IH in H. congruence.
  - intros H; inversion H; subst. exact B.
Qed.

Lemma retried_inputs h c pret p ss p' tr :
  retried h c pret p ss p' tr -> inputs p' = inputs p.
Proof.
  induction 1; [reflexivity|].
  apply body_inputs in H. congruence.
Qed.

(** ** C9: the station name in the recording path *)

Lemma count_slash_append (s t : string) :
  count_slash (s +++ t) = (count_slash s + count_slash t)%nat.
Proof.
  induction s as [|ch s IH]; simpl; [reflexivity|].
  rewrite IH. destruct (Ascii.eqb ch "/"); simpl; reflexivity.
Qed.

Lemma count_slash_replace (s : string) : count_slash (replace_slash s) = O.
Proof.
  induction s as [|ch s IH]; simpl; [reflexivity|].
  destruct (Ascii.eqb ch "/") eqn:E; simpl; [assumption|].
  rewrite E. assumption.
Qed.

(** C9 (as the code has it).  When a save directory [dir] is configured and
    the paths fit their buffers, the file name is artist, [" - "], title and
    [".aac"] with every ['/'] replaced by a blank: it holds no separator, and
    the temporary path is ["/tmp/"] plus that file name.  The station name
    goes through no replacement: it is handed as it is to the [sprintf] that
    extends [save_path], and the final path is what that call leaves in
    [save_path] followed by the file name.  The call overwrites the buffer
    it reads from; when the library formats its arguments first, the final
    path is [dir] (with a ['/'] unless it ends in one), the station name, a
    ['/'] and the file name, and each separator in the station name is one
    more directory level.  The only [mkdir] issued is one call for the whole
    of [save_path], when [stat] fails on it, and its result is not looked at:
    whatever it is, the open returns the same session and does the same
    things.  No call creates an intermediate level. *)
Theorem C9_station_verbatim (h : bool) (p : player_t) (io : open_io)
  (p' : player_t) (tr : trace) (dir : string) (m : Z) :
  save_dir p = Some dir ->
  paths_fit io p dir = true ->
  openStream h p io = (true, p', tr) ->
  save_complete p' =
    o_sprintf_overlap io (save_base (o_stray_byte io) dir) (station p)
    +++ replace_slash (artist p +++ " - " +++ title p +++ ".aac")
  /\ tmp_filename p' = "/tmp/" +++ replace_slash (artist p +++ " - " +++ title p +++ ".aac")
  /\ count_slash (replace_slash (artist p +++ " - " +++ title p +++ ".aac")) = O
  /\ (o_sprintf_overlap io (save_base (o_stray_byte io) dir) (station p)
      = save_base (o_stray_byte io) dir +++ station p +++ "/" ->
      save_complete p' =
        (save_base (o_stray_byte io) dir +++ station p +++ "/")
        +++ replace_slash (artist p +++ " - " +++ title p +++ ".aac")
      /\ count_slash (save_complete p') =
           (count_slash (save_base (o_stray_byte io) dir)
            + count_slash (station p) + 1)%nat)
  /\ filter is_mkdir tr =
       (if o_stat io =? -1
        then [EvMkdir (o_sprintf_overlap io (save_base (o_stray_byte io) dir)
                         (station p)) (o_mkdir io)]
        else [])
  /\ (exists tr', openStream h p (with_mkdir m io) = (true, p', tr')
                  /\ strip_mkdir tr' = strip_mkdir tr).
Proof.
  intros D _ H.
  destruct (openStream_recording _ _ _ _ _ H) as (_ & P & _).
  destruct (P dir D) as (P1 & P2 & _ & P4).
  unfold save_path_in, save_filename_of in *.
  split; [exact P1|]. split; [exact P2|]. split; [apply count_slash_replace|].
  split; [|split; [exact P4 | now apply openStream_mkdir]].
  intros E. rewrite P1, E. split; [reflexivity|].
  rewrite !count_slash_append, count_slash_replace. simpl. lia.
Qed.

Lemma C9_station_verbatim_witness :
  exists p' tr,
    openStream false nested_station_player sample_open = (true, p', tr)
    /\ save_complete p' = "/music/Rock/Metal/AC DC - Back in Black.aac"
    /\ count_slash (save_complete p') = 4%nat
    /\ filter is_mkdir tr = [EvMkdir "/music/Rock/Metal/" 0]
    /\ (exists tr', openStream false nested_station_player (with_mkdir (-1) sample_open)
                    = (true, p', tr')
                    /\ strip_mkdir tr' = strip_mkdir tr).
Proof.
  eexists _, _. split; [reflexivity|].
  destruct (C9_station_verbatim false nested_station_player sample_open _ _ "/music"
              (-1) eq_refl eq_refl eq_refl) as (_ & _ & _ & H3 & H4 & H5).
  destruct (H3 eq_refl) as (H1 & H2).
  split; [exact H1 | split; [exact H2 | split; [exact H4 | exact H5]]].
Defined.

(** C9, as stated, fails: the station "Rock/Metal" puts two levels below
    [/music]; with none of them there, [stat] fails, the one [mkdir] is for
    the whole path and fails as well (no level is created, the innermost
    neither), and the worker goes on to record for a path whose directory
    does not exist. *)
Lemma C9_no_level_created :
  exists p' tr,
    openStream false nested_station_player missing_parent_open = (true, p', tr)
    /\ count_slash (station nested_station_player) = 1%nat
    /\ filter is_mkdir tr = [EvMkdir "/music/Rock/Metal/" (-1)]
    /\ save_file p' = true
    /\ save_complete p' = "/music/Rock/Metal/AC DC - Back in Black.aac"
    /\ filter is_rec_create tr = [EvAvioOpen "/tmp/AC DC - Back in Black.aac"; EvWriteHeader].
Proof. eexists _, _. repeat split. Qed.

(** ** C7: the decision on the recording *)

(** Had [access] found the target file, [openStream] would have left the
    same session with the recording off, and created neither the temporary
    file nor the output container. *)
Lemma openStream_exists h p io p' tr a :
  openStream h p io = (true, p', tr) -> a <> -1 ->
  exists tr2, openStream h p (with_access a io) = (true, rec_off p', tr2)
              /\ filter is_rec_create tr2 = [].
Proof.
  intros H A. apply Z.eqb_neq in A.
  unfold openStream, openStream_save, ping_now, softfail in *.
  destruct p; simpl in *.
  split_ifs H; inversion H; subst; clear H; simpl; rewrite_conds; simpl;
    rewrite ?A; simpl; eexists; split; reflexivity.
Qed.

Lemma written_strip_rec (t : trace) : written (strip_rec t) = [].
Proof.
  unfold written, strip_rec. induction t as [|e t IH]; simpl; auto.
  destruct e; simpl; auto.
Qed.

Lemma audio_strip_rec (t : trace) : audio (strip_rec t) = audio t.
Proof.
  unfold audio, strip_rec. induction t as [|e t IH]; simpl; auto.
  destruct e; simpl; auto. now rewrite IH.
Qed.

(** C7 (as the code has it).  [save_file] is set by every [openStream], that
    is once in each round of the retry loop.  In any round (after any number
    of retried rounds, with paths that fit their buffers) a successful open
    leaves it true exactly when a save directory is configured and [access]
    finds no file at the final path built in this call from the save
    directory, the station, the artist and the title the thread was started
    with (the path of C9); what an earlier round decided does not enter.
    [play] and [finish] leave it as it is.  Had the file existed ([access]
    answering [a <> -1]), the same open would have produced the same session
    with the recording off, without creating the temporary file or the output
    container; and playing from that session gives the same return value, the
    same final state up to the recording fields and the same trace less the
    writes to the recording, so the same audio reaches the device. *)
Theorem C7_recording_decision (h c : bool) (pret : BarPlayerRet)
  (p0 : player_t) (ss1 : list session_io) (p : player_t) (tr1 : trace)
  (io : open_io) (p' : player_t) (tr : trace) (a : Z) (ks : list packet_io)
  (r : Z) (q : player_t) (trp : trace) :
  retried h c pret p0 ss1 p tr1 ->
  open_fits io p0 = true ->
  openStream h p io = (true, p', tr) ->
  a <> -1 ->
  play h p' ks = Some (r, q, trp) ->
  (save_file p' = true <-> (exists dir, save_dir p0 = Some dir) /\ o_access io = -1)
  /\ (forall dir, save_dir p0 = Some dir ->
      save_complete p' =
        o_sprintf_overlap io (save_base (o_stray_byte io) dir) (station p0)
        +++ save_filename_of (artist p0) (title p0)
      /\ (o_sprintf_overlap io (save_base (o_stray_byte io) dir) (station p0)
          = save_path_of (o_stray_byte io) dir (station p0) ->
          save_complete p' =
            save_path_of (o_stray_byte io) dir (station p0)
            +++ save_filename_of (artist p0) (title p0))
      /\ In (EvAccess (save_complete p') (o_access io)) tr)
  /\ (save_file p' = false -> ofcx p' = None /\ filter is_rec_create tr = [])
  /\ save_file q = save_file p'
  /\ save_file (fst (finish q)) = save_file p'
  /\ (exists tr2, openStream h p (with_access a io) = (true, rec_off p', tr2)
                  /\ filter is_rec_create tr2 = [])
  /\ play h (rec_off p') ks = Some (r, rec_off q, strip_rec trp)
  /\ written (strip_rec trp) = []
  /\ audio (strip_rec trp) = audio trp.
Proof.
  intros R _ O A P.
  apply retried_inputs in R. unfold inputs in R. inversion R as [[U S Ar Ti D]].
  destruct (openStream_recording _ _ _ _ _ O) as (R1 & R2 & R3 & _).
  apply play_run_sound in P.
  split; [exact R1|].
  split.
  { intros dir E. destruct (R2 dir E) as (C & _ & I & _).
    unfold save_path_in in C. split; [exact C|]. split; [|exact I].
    intros F. rewrite C. unfold save_path_in. now rewrite F. }
  split; [exact R3|].
  assert (S' : save_file q = save_file p')
    by apply (touch_fields _ _ (play_run_touch _ _ _ _ _ _ P)).
  split; [exact S'|].
  split; [destruct (finish_keeps q) as (_ & _ & -> & _); exact S'|].
  split; [now apply (openStream_exists _ _ _ _ tr)|].
  split; [now apply play_run_complete, play_run_rec_off|].
  split; [apply written_strip_rec | apply audio_strip_rec].
Qed.

Lemma C7_recording_decision_witness :
  exists p tr1 p' tr r q trp,
    retried false true PLAYER_RET_OK sample_player [corrupt_after_1024] p tr1
    /\ openStream false p sample_open = (true, p', tr)
    /\ play false p' [packet_at 2048; read_fails AVERROR_EOF] = Some (r, q, trp)
    /\ save_file p' = true
    /\ save_complete p' = "/music/Jazz/AC DC - Back in Black.aac"
    /\ save_file q = true
    /\ play false (rec_off p') [packet_at 2048; read_fails AVERROR_EOF]
       = Some (r, rec_off q, strip_rec trp)
    /\ audio (strip_rec trp) = audio trp.
Proof.
  pose (R := retried_cons false true PLAYER_RET_OK sample_player corrupt_after_1024
               [] _ _ _ _ eq_refl (retried_nil _ _ _ _)).
  eexists _, _, _, _, _, _, _.
  split; [exact R|]. split; [reflexivity|]. split; [reflexivity|].
  destruct (C7_recording_decision false true PLAYER_RET_OK sample_player
              [corrupt_after_1024] _ _ sample_open _ _ 0
              [packet_at 2048; read_fails AVERROR_EOF] _ _ _
              R eq_refl eq_refl ltac:(discriminate) eq_refl)
    as (_ & H2 & _ & H4 & _ & _ & H6 & _ & H8).
  destruct (H2 "/music" eq_refl) as (_ & H2' & _).
  split; [reflexivity|]. split; [exact (H2' eq_refl)|].
  split; [exact H4|]. split; [exact H6 | exact H8].
Defined.

(** C7, as stated, fails: the decision is not taken once.  The target file
    exists when the stream is first opened: no recording is set up.  The read
    after the first packet reports corrupted data, the stream is opened again,
    and this time [access] finds no file (it was removed in between): the
    temporary file and the output container are created in the second round,
    from the place the stream was resumed at, and the recording is
    published. *)
Lemma C7_decided_again_on_retry :
  exists q1 t1 p' tr,
    BarPlayerThread_body false true PLAYER_RET_OK sample_player exists_then_corrupt
    = Some (true, PLAYER_RET_OK, q1, t1)
    /\ filter is_access t1 = [EvAccess "/music/Jazz/AC DC - Back in Black.aac" 0]
    /\ save_file q1 = false
    /\ filter is_rec_create t1 = []
    /\ BarPlayerThread false true sample_player [exists_then_corrupt; sample_session] []
       = Some (PLAYER_RET_OK, p', tr)
    /\ save_file p' = true
    /\ filter is_rec_create tr
       = [EvAvioOpen "/tmp/AC DC - Back in Black.aac"; EvWriteHeader]
    /\ existsb is_publish tr = true.
Proof. eexists _, _, _, _. repeat split. Qed.

Lemma loop_no_publish (t : trace) : forallb loop_event t = true -> existsb is_publish t = false.
Proof. apply existsb_none. by_kind. Qed.

(** C1 (as the code has it).  When [BarPlayerThread] returns, the mode is
    FINISHED, and the recording has been finalised (trailer, release, close)
    and moved by the shell command [mv "tmp" "final"] exactly when
    [save_file] is set and [doQuit] is not set at that moment; these four
    actions are then the end of the trace and occur nowhere before.  After a
    quit nothing is finalised or moved. *)
Theorem C1_publish_iff (h c : bool) (p : player_t) (ss : list session_io)
  (fin : list caller_act) (ret : BarPlayerRet) (p' : player_t) (tr : trace) :
  BarPlayerThread h c p ss fin = Some (ret, p', tr) ->
  mode p' = PLAYER_FINISHED
  /\ (existsb is_publish tr = true <-> save_file p' = true /\ doQuit p' = false)
  /\ (save_file p' = true -> doQuit p' = false ->
      exists tr0,
        tr = tr0 ++ [EvWriteTrailer; EvFreeContext; EvAvioClose;
                     EvSystem (mv_command (tmp_filename p') (save_complete p'))]
        /\ existsb is_publish tr0 = false)
  /\ (doQuit p' = true -> existsb is_publish tr = false).
Proof.
  unfold BarPlayerThread. intros H.
  destruct (BarPlayerThread_loop h c PLAYER_RET_OK p ss) as [[[pret p1] t1]|] eqn:L;
    [|discriminate].
  apply loop_events, loop_no_publish in L.
  assert (N : existsb is_publish (t1 ++ map EvCaller fin) = false).
  { rewrite existsb_app, L. simpl.
    apply (existsb_none gate_event); auto using caller_is_gate. by_kind. }
  assert (M : mode (callers fin (set_mode PLAYER_FINISHED p1)) = PLAYER_FINISHED).
  { rewrite (callers_flags fin _). destruct p1; reflexivity. }
  destruct (save_file (callers fin (set_mode PLAYER_FINISHED p1))) eqn:S;
    destruct (doQuit (callers fin (set_mode PLAYER_FINISHED p1))) eqn:Q;
    simpl in H; inversion H; subst; clear H; rewrite ?S, ?Q;
    (split; [exact M|]).
  - rewrite N. repeat split; intros; try congruence; try tauto;
      try (destruct H; congruence).
  - rewrite existsb_app. simpl. rewrite orb_true_r.
    repeat split; intros; try congruence.
    eexists. split; [reflexivity | exact N].
  - rewrite N. repeat split; intros; try congruence; try tauto;
      try (destruct H; congruence).
  - rewrite N. repeat split; intros; try congruence; try tauto;
      try (destruct H; congruence).
Qed.

Lemma C1_publish_iff_witness :
  exists ret p' tr,
    BarPlayerThread false true sample_player [sample_session] [] = Some (ret, p', tr)
    /\ mode p' = PLAYER_FINISHED
    /\ (existsb is_publish tr = true <-> save_file p' = true /\ doQuit p' = false).
Proof.
  eexists _, _, _. split; [reflexivity|].
  destruct (C1_publish_iff false true sample_player [sample_session] [] _ _ _ eq_refl)
    as (H1 & H2 & _).
  split; [exact H1 | exact H2].
Defined.

(** C1, as stated, fails.  First run: the stream opens with the recording
    on, the audio device is busy, the result is HARDFAIL, [doQuit] is not
    set, and still the (empty) recording is finalised and moved to the final
    path.  Second run: a packet is played and recorded, the next read reports
    corrupted data, the input cannot be opened again, the result is SOFTFAIL,
    and the recording is finalised and moved. *)
Lemma C1_failure_published :
  (exists p' tr,
      BarPlayerThread false true sample_player [device_busy_session] []
      = Some (PLAYER_RET_HARDFAIL, p', tr)
      /\ doQuit p' = false
      /\ In EvWriteTrailer tr
      /\ In (EvSystem (mv_command "/tmp/AC DC - Back in Black.aac"
                                  "/music/Jazz/AC DC - Back in Black.aac")) tr)
  /\ (exists p' tr,
      BarPlayerThread false true sample_player
        [corrupt_after_1024; unreachable_session] []
      = Some (PLAYER_RET_SOFTFAIL, p', tr)
      /\ doQuit p' = false
      /\ In EvWriteTrailer tr
      /\ In (EvSystem (mv_command "/tmp/AC DC - Back in Black.aac"
                                  "/music/Jazz/AC DC - Back in Black.aac")) tr).
Proof.
  split; eexists _, _; (split; [reflexivity|]); (split; [reflexivity|]);
    split; vm_compute; tauto.
Qed.

(** ** The round that reaches [play] *)

Lemma body_play h c pret p s q1 t1 q2 t2 q3 t3 r q4 t4 :
  openStream h p (s_open s) = (true, q1, t1) ->
  openFilter c q1 (s_filter s) = (true, q2, t2) ->
  openDevice q2 (s_device s) = (true, q3, t3) ->
  play h q3 (s_play s) = Some (r, q4, t4) ->
  BarPlayerThread_body h c pret p s
  = Some (r =? AVERROR_INVALIDDATA, pret, fst (finish q4),
          t1 ++ t2 ++ t3 ++ t4 ++ snd (finish q4)).
Proof.
  intros O F D P. unfold BarPlayerThread_body. rewrite O, F, D, P.
  destruct (finish q4); reflexivity.
Qed.

(** A last round that reaches [play] and does not end in corrupted data: the
    loop ends there with the result it started with. *)
Lemma loop_last_play h c pret p ss1 p1 tr1 s ss2 q1 t1 q2 t2 q3 t3 r q4 t4 :
  retried h c pret p ss1 p1 tr1 ->
  openStream h p1 (s_open s) = (true, q1, t1) ->
  openFilter c q1 (s_filter s) = (true, q2, t2) ->
  openDevice q2 (s_device s) = (true, q3, t3) ->
  play h q3 (s_play s) = Some (r, q4, t4) ->
  r <> AVERROR_INVALIDDATA ->
  BarPlayerThread_loop h c pret p (ss1 ++ s :: ss2)
  = Some (pret, fst (finish q4), tr1 ++ t1 ++ t2 ++ t3 ++ t4 ++ snd (finish q4)).
Proof.
  intros R O F D P N.
  rewrite (loop_retried _ _ _ _ _ _ _ R). simpl.
  rewrite (body_play _ _ _ _ _ _ _ _ _ _ _ _ _ _ O F D P).
  apply Z.eqb_neq in N. rewrite N. reflexivity.
Qed.

(** [BarPlayerThread] after its loop. *)
Lemma thread_of_loop h c p ss fin pret p1 t1 :
  BarPlayerThread_loop h c PLAYER_RET_OK p ss = Some (pret, p1, t1) ->
  exists p' tr_end,
    BarPlayerThread h c p ss fin = Some (pret, p', t1 ++ tr_end)
    /\ p' = callers fin (set_mode PLAYER_FINISHED p1)
    /\ tr_end = map EvCaller fin
                ++ (if save_file p' && negb (doQuit p') then publish p' else [])
    /\ mode p' = PLAYER_FINISHED
    /\ save_file p' = save_file p1
    /\ (doQuit p1 = true -> doQuit p' = true).
Proof.
  intros L. unfold BarPlayerThread. rewrite L.
  exists (callers fin (set_mode PLAYER_FINISHED p1)).
  eexists. split; [|split; [reflexivity|split; [reflexivity|]]].
  - destruct (_ && _); rewrite <- ?app_assoc, ?app_nil_r; reflexivity.
  - split; [|split].
    + rewrite (callers_flags fin _). destruct p1; reflexivity.
    + rewrite (callers_flags fin _). destruct p1; reflexivity.
    + intros Q. apply callers_quit_mono. destruct p1; exact Q.
Qed.

(** ** C3: a read that fails *)

(** C3 (as the code has it).  After any number of retried rounds, a round
    that reaches [play] and whose [av_read_frame] fails with a code [r] other
    than corrupted data ends the loop without a retry, and the result of the
    worker is OK: [play]'s return value is only compared with the
    corrupted-data code. *)
Theorem C3_read_error_ok (h c : bool) (p : player_t) (ss1 : list session_io)
  (p1 : player_t) (tr1 : trace) (s : session_io) (ss2 : list session_io)
  (fin : list caller_act)
  (q1 : player_t) (t1 : trace) (q2 : player_t) (t2 : trace)
  (q3 : player_t) (t3 : trace) (r : Z) (q4 : player_t) (t4 : trace) :
  retried h c PLAYER_RET_OK p ss1 p1 tr1 ->
  openStream h p1 (s_open s) = (true, q1, t1) ->
  openFilter c q1 (s_filter s) = (true, q2, t2) ->
  openDevice q2 (s_device s) = (true, q3, t3) ->
  play h q3 (s_play s) = Some (r, q4, t4) ->
  r < 0 -> r <> AVERROR_INVALIDDATA ->
  (exists t0 pkt, t4 = t0 ++ [EvReadFrame r pkt])
  /\ BarPlayerThread_loop h c PLAYER_RET_OK p (ss1 ++ s :: ss2)
     = Some (PLAYER_RET_OK, fst (finish q4),
             tr1 ++ t1 ++ t2 ++ t3 ++ t4 ++ snd (finish q4))
  /\ exists p' tr,
       BarPlayerThread h c p (ss1 ++ s :: ss2) fin = Some (PLAYER_RET_OK, p', tr)
       /\ mode p' = PLAYER_FINISHED.
Proof.
  intros R O F D P Neg N.
  pose proof (loop_last_play _ _ _ _ _ _ _ _ ss2 _ _ _ _ _ _ _ _ _ R O F D P N) as L.
  split; [|split; [exact L|]].
  - destruct (play_run_ret _ _ _ _ _ _ (play_run_sound _ _ _ _ _ _ P))
      as [[-> _]|(_ & _ & E)]; [lia | exact E].
  - destruct (thread_of_loop _ _ _ _ fin _ _ _ L) as (p' & te & B & _ & _ & M & _).
    eauto.
Qed.

Lemma C3_read_error_ok_witness :
  exists p' tr,
    BarPlayerThread false true sample_player
      ([corrupt_after_1024] ++ stalled_session :: []) []
    = Some (PLAYER_RET_OK, p', tr)
    /\ mode p' = PLAYER_FINISHED.
Proof.
  pose proof (C3_read_error_ok false true sample_player [corrupt_after_1024] _ _
                stalled_session [] [] _ _ _ _ _ _ AVERROR_EXIT _ _
                (retried_cons false true PLAYER_RET_OK sample_player corrupt_after_1024 []
                   _ _ _ _ eq_refl (retried_nil _ _ _ _))
                eq_refl eq_refl eq_refl eq_refl eq_refl
                ltac:(discriminate)) as (_ & _ & H).
  exact H.
Defined.

(** C3, as stated, fails: one packet is played, then the interrupt callback
    aborts [av_read_frame], which returns [AVERROR_EXIT]; the worker ends
    with OK, not SOFTFAIL. *)
Lemma C3_stall_returns_ok :
  exists p' tr,
    BarPlayerThread false true sample_player [stalled_session] []
    = Some (PLAYER_RET_OK, p', tr)
    /\ In (EvReadFrame AVERROR_EXIT (mkPacket 0 0 0 0)) tr
    /\ AVERROR_EXIT < 0
    /\ AVERROR_EXIT <> AVERROR_INVALIDDATA
    /\ PLAYER_RET_OK <> PLAYER_RET_SOFTFAIL.
Proof.
  eexists _, _. split; [reflexivity|].
  split; [vm_compute; tauto|]. split; [reflexivity|]. split; discriminate.
Qed.

(** ** C5: quit *)

(** C5.  When the test at the head of the loop of [play] finds [doQuit] set,
    [play] returns 0 at once: its trace holds nothing but the flag writes of
    the controlling thread (no packet is read, decoded or played) and
    [lastTimestamp] is unchanged.  And when, after any number of retried
    rounds, [play] returns with [doQuit] set, it returns 0, the loop ends
    without a retry, the worker returns OK in mode FINISHED, nothing is
    written to the device or read from the stream after [play] has returned,
    and the recording is not finalised. *)
Theorem C5_quit_observed (h c : bool) (pq : player_t) (ksq : list packet_io)
  (p : player_t) (ss1 : list session_io)
  (p1 : player_t) (tr1 : trace) (s : session_io) (ss2 : list session_io)
  (fin : list caller_act)
  (q1 : player_t) (t1 : trace) (q2 : player_t) (t2 : trace)
  (q3 : player_t) (t3 : trace) (r : Z) (q4 : player_t) (t4 : trace) :
  doQuit pq = true ->
  retried h c PLAYER_RET_OK p ss1 p1 tr1 ->
  openStream h p1 (s_open s) = (true, q1, t1) ->
  openFilter c q1 (s_filter s) = (true, q2, t2) ->
  openDevice q2 (s_device s) = (true, q3, t3) ->
  play h q3 (s_play s) = Some (r, q4, t4) ->
  doQuit q4 = true ->
  (exists pq' trq,
      play h pq ksq = Some (0, pq', trq)
      /\ forallb is_caller trq = true
      /\ lastTimestamp pq' = lastTimestamp pq)
  /\ r = 0
  /\ exists p' tr_end,
       BarPlayerThread h c p (ss1 ++ s :: ss2) fin
       = Some (PLAYER_RET_OK, p', (tr1 ++ t1 ++ t2 ++ t3 ++ t4) ++ tr_end)
       /\ mode p' = PLAYER_FINISHED
       /\ doQuit p' = true
       /\ audio tr_end = []
       /\ filter is_blocking_io tr_end = []
       /\ existsb is_publish (tr1 ++ t1 ++ t2 ++ t3 ++ t4 ++ tr_end) = false.
Proof.
  intros Qq R O F D P Q.
  split; [|split].
  - destruct (play_quit_now h pq ksq Qq) as (pq' & trq & E & C & T & _).
    exists pq', trq. repeat split; auto.
    apply (flags_fields _ _ T).
  - destruct (play_run_ret _ _ _ _ _ _ (play_run_sound _ _ _ _ _ _ P))
      as [[-> _]|(_ & E & _)]; [reflexivity | congruence].
  - assert (N : r <> AVERROR_INVALIDDATA).
    { destruct (play_run_ret _ _ _ _ _ _ (play_run_sound _ _ _ _ _ _ P))
        as [[-> _]|(_ & E & _)]; [discriminate | congruence]. }
    pose proof (loop_last_play _ _ _ _ _ _ _ _ ss2 _ _ _ _ _ _ _ _ _ R O F D P N) as L.
    destruct (thread_of_loop _ _ _ _ fin _ _ _ L) as (p' & te & B & Ep & Et & M & _ & Q').
    subst te.
    destruct (finish_keeps q4) as (_ & Q4 & _ & _ & _ & _ & K).
    assert (Qp : doQuit p' = true) by (apply Q'; congruence).
    rewrite Qp, andb_false_r, app_nil_r in *.
    exists p', (snd (finish q4) ++ map EvCaller fin).
    split; [rewrite B; f_equal; f_equal; now rewrite <- !app_assoc|].
    split; [exact M|]. split; [exact Qp|].
    split; [|split].
    + rewrite audio_app, (audio_none finish_event), (audio_none gate_event);
        auto using caller_is_gate; by_kind.
    + rewrite filter_app, (filter_none finish_event is_blocking_io),
        (filter_none gate_event is_blocking_io); auto using caller_is_gate; by_kind.
    + apply loop_events, loop_no_publish in L.
      replace (tr1 ++ t1 ++ t2 ++ t3 ++ t4 ++ snd (finish q4) ++ map EvCaller fin)
        with ((tr1 ++ t1 ++ t2 ++ t3 ++ t4 ++ snd (finish q4)) ++ map EvCaller fin)
        by (now rewrite <- !app_assoc).
      rewrite existsb_app, L. simpl.
      apply (existsb_none gate_event); auto using caller_is_gate. by_kind.
Qed.

Lemma C5_quit_observed_witness :
  exists p' tr,
    BarPlayerThread false true sample_player
      ([corrupt_after_1024] ++ quit_session :: []) []
    = Some (PLAYER_RET_OK, p', tr)
    /\ mode p' = PLAYER_FINISHED /\ doQuit p' = true.
Proof.
  pose proof (C5_quit_observed false true (set_doQuit true sample_player) []
                sample_player [corrupt_after_1024] _ _
                quit_session [] [] _ _ _ _ _ _ _ _ _
                eq_refl
                (retried_cons false true PLAYER_RET_OK sample_player corrupt_after_1024 []
                   _ _ _ _ eq_refl (retried_nil _ _ _ _))
                eq_refl eq_refl eq_refl eq_refl eq_refl)
    as (_ & _ & p' & te & H & M & Q & _).
  exists p'. eexists. split; [exact H|]. split; [exact M | exact Q].
Defined.

(** A retry means that [av_read_frame] returned the corrupted-data code, and
    the result code is then unchanged. *)
Lemma body_retry_read h c pret p s pret' p' tr :
  BarPlayerThread_body h c pret p s = Some (true, pret', p', tr) ->
  pret' = pret /\ exists pkt, In (EvReadFrame AVERROR_INVALIDDATA pkt) tr.
Proof.
  intros H. apply body_inv in H
    as [(p1 & t1 & _ & E & _)
       |[(p1 & t1 & p2 & t2 & _ & _ & _ & E & _)
        |(p1 & t1 & p2 & t2 & p3 & t3 & r & p4 & t4 & _ & _ & _ & P & E & -> & _ & ->)]];
    try discriminate.
  split; [reflexivity|].
  symmetry in E. apply Z.eqb_eq in E. subst r.
  destruct (play_run_ret _ _ _ _ _ _ (play_run_sound _ _ _ _ _ _ P))
    as [[E _]|(_ & _ & t0 & pkt & ->)]; [discriminate|].
  exists pkt. rewrite !in_app_iff. simpl. tauto.
Qed.

(** ** C2: the retry after corrupted data *)

(** A round whose first read fails with [code]: it retries exactly for the
    corrupted-data code, and opens the input once. *)
Lemma failing_body h c pret p code :
  doQuit p = false -> code < 0 ->
  exists p1 tr1,
    BarPlayerThread_body h c pret p (failing_session code)
    = Some (code =? AVERROR_INVALIDDATA, pret, p1, tr1)
    /\ doQuit p1 = false
    /\ List.length (filter is_open_input tr1) = 1%nat.
Proof.
  intros Q N.
  destruct (openStream h p sample_open) as [[ok q1] t1] eqn:O.
  assert (ok = true /\ List.length (filter is_open_input t1) = 1%nat) as [-> C1].
  { unfold openStream, openStream_save, ping_now, softfail in O.
    destruct p, h; simpl in O; split_ifs O; inversion O; subst; split; reflexivity. }
  destruct (openStream_keeps _ _ _ _ _ _ O) as (_ & Q1 & _ & _ & _ & _ & E1 & _).
  destruct (openFilter c q1 sample_filter) as [[okf q2] t2] eqn:F.
  assert (okf = true) as ->.
  { unfold openFilter, BarPlayerSetVolume, softfail in F.
    destruct c; simpl in F; inversion F; reflexivity. }
  destruct (openFilter_spec _ _ _ _ _ _ F) as (F1 & E2 & _).
  destruct (openDevice q2 true) as [[okd q3] t3] eqn:D.
  destruct (openDevice_spec _ _ _ _ _ D) as (D1 & E3 & ->).
  assert (Q3 : doQuit q3 = false).
  { rewrite D1, F1. destruct q1; simpl in *. congruence. }
  destruct (ping_now h 900 q3) as [q4 t4] eqn:P.
  destruct (ping_now_touch _ _ _ _ _ P) as (_ & Q4 & _ & E4 & _).
  assert (PL : play h q3 [read_fails code]
               = Some (code, q4, t4 ++ [EvReadFrame code (mkPacket 0 0 0 0)])).
  { simpl. rewrite Q3, P. destruct (code <? 0) eqn:C; [reflexivity | lia]. }
  exists (fst (finish q4)), (t1 ++ t2 ++ t3 ++ (t4 ++ [EvReadFrame code (mkPacket 0 0 0 0)])
                             ++ snd (finish q4)).
  split; [|split].
  - apply (body_play h c pret p (failing_session code) _ _ _ _ _ _ _ _ _ O F D PL).
  - destruct (finish_keeps q4) as (_ & -> & _). congruence.
  - destruct (finish_keeps q4) as (_ & _ & _ & _ & _ & _ & E5).
    rewrite !filter_app, !length_app, C1.
    rewrite (filter_none setup_event is_open_input t2),
      (filter_none setup_event is_open_input t3),
      (filter_none is_ping is_open_input t4),
      (filter_none finish_event is_open_input (snd (finish q4))); auto; by_kind.
Qed.

(** Any number of retries: [n] rounds that end in corrupted data and a round
    that ends at the end of the stream open the input [n + 1] times. *)
Lemma retry_unbounded h c (n : nat) :
  forall p, doQuit p = false ->
  exists p' tr,
    BarPlayerThread_loop h c PLAYER_RET_OK p
      (repeat (failing_session AVERROR_INVALIDDATA) n ++ [failing_session AVERROR_EOF])
    = Some (PLAYER_RET_OK, p', tr)
    /\ List.length (filter is_open_input tr) = S n.
Proof.
  induction n as [|n IH]; intros p Q.
  - destruct (failing_body h c PLAYER_RET_OK p AVERROR_EOF Q eq_refl)
      as (p1 & tr1 & B & _ & C).
    exists p1, tr1. simpl. rewrite B. simpl. auto.
  - destruct (failing_body h c PLAYER_RET_OK p AVERROR_INVALIDDATA Q eq_refl)
      as (p1 & tr1 & B & Q1 & C).
    destruct (IH p1 Q1) as (p' & tr & L & C').
    exists p', (tr1 ++ tr). simpl. rewrite B. simpl. rewrite L. simpl.
    split; [reflexivity|]. rewrite filter_app, length_app, C, C'. reflexivity.
Qed.

(** C2 (as the code has it).  Let a round reach [play].  The loop goes round
    again exactly when [play] returns the corrupted-data code; before that,
    [finish] closes the device, frees the filter graph, closes the decoder
    and the input.  [lastTimestamp] comes through [finish] and the next
    [openStream] unchanged: it is the pts of the last packet of the selected
    stream that was read (the value at the start of the round if there was
    none).  The reopened session seeks to it, before the mode becomes
    PLAYING again, when it is greater than 0, and issues no seek otherwise.
    No round asks for a retry unless [av_read_frame] has returned the
    corrupted-data code in it.  The number of retries is not bounded: [n] corrupted rounds in a row open
    the input [n + 1] times. *)
Theorem C2_retry_resumes (h c : bool) (pret : BarPlayerRet) (p : player_t)
  (s : session_io) (ss : list session_io)
  (q1 : player_t) (t1 : trace) (q2 : player_t) (t2 : trace)
  (q3 : player_t) (t3 : trace) (r : Z) (q4 : player_t) (t4 : trace)
  (io : open_io) (q5 : player_t) (t5 : trace) (p0 : player_t) (n : nat) :
  openStream h p (s_open s) = (true, q1, t1) ->
  openFilter c q1 (s_filter s) = (true, q2, t2) ->
  openDevice q2 (s_device s) = (true, q3, t3) ->
  play h q3 (s_play s) = Some (r, q4, t4) ->
  openStream h (fst (finish q4)) io = (true, q5, t5) ->
  doQuit p0 = false ->
  (r = AVERROR_INVALIDDATA ->
   BarPlayerThread_loop h c pret p (s :: ss)
   = prepend (t1 ++ t2 ++ t3 ++ t4 ++ snd (finish q4))
             (BarPlayerThread_loop h c pret (fst (finish q4)) ss))
  /\ (r <> AVERROR_INVALIDDATA ->
      BarPlayerThread_loop h c pret p (s :: ss)
      = Some (pret, fst (finish q4), t1 ++ t2 ++ t3 ++ t4 ++ snd (finish q4)))
  /\ snd (finish q4) = [EvAoClose; EvGraphFree; EvCodecClose; EvCloseInput]
  /\ lastTimestamp (fst (finish q4))
     = last_pts (packets_read (streamIdx q3) t4) (lastTimestamp p)
  /\ lastTimestamp q5 = lastTimestamp (fst (finish q4))
  /\ filter is_seek t5
     = (if lastTimestamp (fst (finish q4)) >? 0
        then [EvSeekFrame (streamIdx q5) (lastTimestamp (fst (finish q4)))] else [])
  /\ mode q5 = PLAYER_PLAYING
  /\ (forall pa sa pret' pb tb,
      BarPlayerThread_body h c pret pa sa = Some (true, pret', pb, tb) ->
      pret' = pret /\ exists pkt, In (EvReadFrame AVERROR_INVALIDDATA pkt) tb)
  /\ exists p' tr,
       BarPlayerThread_loop h c PLAYER_RET_OK p0
         (repeat (failing_session AVERROR_INVALIDDATA) n
          ++ [failing_session AVERROR_EOF])
       = Some (PLAYER_RET_OK, p', tr)
       /\ List.length (filter is_open_input tr) = S n.
Proof.
  intros O F D P O2 Q0.
  pose proof (body_play h c pret p s _ _ _ _ _ _ _ _ _ O F D P) as B.
  split; [|split; [|split; [|split; [|split; [|split; [|split; [|split]]]]]]].
  - intros ->. simpl. rewrite B. reflexivity.
  - intros N. simpl. rewrite B. apply Z.eqb_neq in N. rewrite N. reflexivity.
  - pose proof (finish_spec q4) as K. destruct (finish q4) as [q t].
    destruct K as (_ & _ & ->). simpl.
    destruct (openStream_ok _ _ _ _ _ O) as (_ & C1 & _ & S1 & _).
    destruct (openFilter_spec _ _ _ _ _ _ F) as (F1 & _ & G).
    destruct (openDevice_spec _ _ _ _ _ D) as (D1 & _).
    destruct (touch_fields _ _ (play_run_touch _ _ _ _ _ _ (play_run_sound _ _ _ _ _ _ P)))
      as (_ & C4 & _ & _ & S4 & G4 & _).
    assert (G3 : fgraph q3 = true) by (rewrite D1; destruct q2; simpl in *; auto).
    assert (C3 : fctx q3 = fctx q1) by (rewrite D1, F1; destruct q1; reflexivity).
    assert (S3 : st q3 = st q1) by (rewrite D1, F1; destruct q1; reflexivity).
    rewrite G4, G3, S4, S3, S1, C4, C3, C1. reflexivity.
  - destruct (finish_keeps q4) as (-> & _).
    rewrite (play_run_lastTimestamp _ _ _ _ _ _ (play_run_sound _ _ _ _ _ _ P)).
    destruct (openStream_keeps _ _ _ _ _ _ O) as (L1 & _).
    destruct (openFilter_spec _ _ _ _ _ _ F) as (F1 & _).
    destruct (openDevice_spec _ _ _ _ _ D) as (D1 & _).
    f_equal. rewrite <- L1, D1, F1. destruct q1; reflexivity.
  - apply (openStream_keeps _ _ _ _ _ _ O2).
  - apply (openStream_ok _ _ _ _ _ O2).
  - apply (openStream_ok _ _ _ _ _ O2).
  - intros pa sa pret' pb tb. apply body_retry_read.
  - apply retry_unbounded. exact Q0.
Qed.

Lemma C2_retry_resumes_witness :
  exists q1 t1 q2 t2 q3 t3 q4 t4 q5 t5,
    openStream false sample_player (s_open corrupt_after_1024) = (true, q1, t1)
    /\ openFilter true q1 (s_filter corrupt_after_1024) = (true, q2, t2)
    /\ openDevice q2 (s_device corrupt_after_1024) = (true, q3, t3)
    /\ play false q3 (s_play corrupt_after_1024) = Some (AVERROR_INVALIDDATA, q4, t4)
    /\ openStream false (fst (finish q4)) sample_open = (true, q5, t5)
    /\ lastTimestamp q5 = 1024
    /\ filter is_seek t5 = [EvSeekFrame 0 1024].
Proof.
  eexists _, _, _, _, _, _, _, _, _, _.
  split; [reflexivity|]. split; [reflexivity|]. split; [reflexivity|].
  split; [reflexivity|]. split; [reflexivity|].
  pose proof (C2_retry_resumes false true PLAYER_RET_OK sample_player
                corrupt_after_1024 [failing_session AVERROR_EOF]
                _ _ _ _ _ _ _ _ _ sample_open _ _ sample_player 2
                eq_refl eq_refl eq_refl eq_refl eq_refl eq_refl)
    as (_ & _ & _ & _ & H5 & H6 & _).
  split; [exact H5 | exact H6].
Defined.

(** C2, as stated, fails where the time stamp of the previous packet is not
    positive.  First run: the first packet (time stamp 0) is played and the
    next read reports corrupted data.  Second run: a packet with time stamp
    1024 and a packet without time stamp ([AV_NOPTS_VALUE]) are played and
    the next read reports corrupted data.  In both the input is opened a
    second time, [lastTimestamp] is the time stamp of the previous packet,
    and no seek is issued: the reopened session starts at the beginning of
    the stream. *)
Lemma C2_reopen_without_seek :
  (exists p' tr,
      BarPlayerThread false true sample_player
        [corrupt_after_first; failing_session AVERROR_EOF] []
      = Some (PLAYER_RET_OK, p', tr)
      /\ List.length (filter is_open_input tr) = 2%nat
      /\ lastTimestamp p' = 0
      /\ filter is_seek tr = [])
  /\ (exists p' tr,
      BarPlayerThread false true sample_player
        [corrupt_after_nopts; failing_session AVERROR_EOF] []
      = Some (PLAYER_RET_OK, p', tr)
      /\ List.length (filter is_open_input tr) = 2%nat
      /\ lastTimestamp p' = AV_NOPTS_VALUE
      /\ filter is_seek tr = []).
Proof.
  split; eexists _, _; (split; [reflexivity|]); repeat split; reflexivity.
Qed.

(** ** C10: a decode call that fails *)

Lemma decode_loop_error ds :
  forall p sz p' td e, decode_loop p sz ds = Some (p', td) ->
  In (EvDecode e) td -> e < 0 -> exists td0, td = td0 ++ [EvDecode e].
Proof.
  assert (NC : forall acts e, ~ In (EvDecode e) (map EvCaller acts)).
  { intros acts e H. apply in_map_iff in H as (a & H & _). discriminate. }
  assert (NF : forall d e, ~ In (EvDecode e) (play_frame d)).
  { intros d e. unfold play_frame. destruct (d_got_frame d =? 0); simpl; [tauto|].
    intros [H|H]; [discriminate|]. apply in_map_iff in H as (a & H & _). discriminate. }
  induction ds as [|d ds IH]; intros p sz p' td e; simpl; [discriminate|].
  destruct (d_decoded d <? 0) eqn:E.
  - intros H I N; inversion H; subst.
    apply in_app_iff in I as [I|[I|[]]]; [now apply NC in I|].
    inversion I; subst. eauto.
  - destruct (sz - d_decoded d >? 0).
    + destruct (decode_loop (callers (d_caller d) p) (sz - d_decoded d) ds)
        as [[q t]|] eqn:G; [|discriminate].
      intros H I N; inversion H; subst.
      apply in_app_iff in I as [I|I].
      * apply in_app_iff in I as [I|I]; [|now apply NF in I].
        apply in_app_iff in I as [I|[I|[]]]; [now apply NC in I|].
        inversion I; subst. lia.
      * destruct (IH _ _ _ _ _ G I N) as (td0 & ->).
        eexists. now rewrite app_assoc.
    + intros H I N; inversion H; subst.
      apply in_app_iff in I as [I|I]; [|now apply NF in I].
      apply in_app_iff in I as [I|[I|[]]]; [now apply NC in I|].
      inversion I; subst. lia.
Qed.


(** C10.  Take a packet of the selected stream that is read and passes the
    pause gate, and let one of its decode calls report an error [e < 0].
    That call is the last event of the packet's decode loop (nothing more of
    the packet is decoded or played), and [play] goes on with the next
    packet, [lastTimestamp] being set to this packet's pts.  And in a round
    of the retry loop that reaches [play], the value [play] returns is 0 or
    the negative code of its last [av_read_frame], never a decode error; the
    round asks for a retry exactly when that value is the corrupted-data
    code, and it leaves the result code as it is. *)
Theorem C10_decode_error_skips (h c : bool) (p : player_t) (k : packet_io)
  (ks : list packet_io) (p1 : player_t) (t1 tt : trace)
  (p2 : player_t) (tg : trace) (p3 : player_t) (td : trace) (e : Z)
  (pret : BarPlayerRet) (p0 : player_t) (s : session_io)
  (q1 : player_t) (u1 : trace) (q2 : player_t) (u2 : trace)
  (q3 : player_t) (u3 : trace) (r : Z) (q4 : player_t) (u4 : trace) :
  doQuit (callers (k_caller k) p) = false ->
  ping_now h (k_now k) (callers (k_caller k) p) = (p1, t1) ->
  0 <= k_read k ->
  stream_index (k_pkt k) = streamIdx p1 ->
  tee p1 (k_pkt k) = Some tt ->
  pause_gate p1 (k_waits k) = Some (p2, tg) ->
  decode_loop p2 (size (k_pkt k)) (k_decode k) = Some (p3, td) ->
  In (EvDecode e) td -> e < 0 ->
  openStream h p0 (s_open s) = (true, q1, u1) ->
  openFilter c q1 (s_filter s) = (true, q2, u2) ->
  openDevice q2 (s_device s) = (true, q3, u3) ->
  play h q3 (s_play s) = Some (r, q4, u4) ->
  (exists td0, td = td0 ++ [EvDecode e])
  /\ play h p (k :: ks)
     = prepend ((map EvCaller (k_caller k) ++ t1 ++ [EvReadFrame (k_read k) (k_pkt k)])
                ++ tt ++ tg ++ td)
               (play h (set_lastTimestamp (pts (k_pkt k)) p3) ks)
  /\ (r = 0 \/ (r < 0 /\ exists tr0 pkt, u4 = tr0 ++ [EvReadFrame r pkt]))
  /\ BarPlayerThread_body h c pret p0 s
     = Some (r =? AVERROR_INVALIDDATA, pret, fst (finish q4),
             u1 ++ u2 ++ u3 ++ u4 ++ snd (finish q4)).
Proof.
  intros Q P R I T G D E N O F DV PL.
  split; [eapply decode_loop_error; eauto|].
  split.
  - simpl. rewrite Q, P.
    destruct (k_read k <? 0) eqn:R'; [lia|].
    destruct (stream_index (k_pkt k) =? streamIdx p1) eqn:I'; [|lia].
    simpl. rewrite T, G, D. reflexivity.
  - split.
    + destruct (play_run_ret _ _ _ _ _ _ (play_run_sound _ _ _ _ _ _ PL))
        as [[-> _]|(? & _ & ?)]; auto.
    + exact (body_play h c pret p0 s _ _ _ _ _ _ _ _ _ O F DV PL).
Qed.

Lemma C10_decode_error_skips_witness :
  exists p3 td r q4 u4,
    decode_loop (set_streamIdx 0 sample_player) 300 (k_decode undecodable_packet)
    = Some (p3, td)
    /\ play false
         (snd (fst (openDevice (snd (fst (openFilter true opened_player sample_filter)))
                               true)))
         [undecodable_packet; packet_at 2048; read_fails AVERROR_EOF] = Some (r, q4, u4)
    /\ (exists td0, td = td0 ++ [EvDecode (-1)])
    /\ (r = 0 \/ (r < 0 /\ exists tr0 pkt, u4 = tr0 ++ [EvReadFrame r pkt]))
    /\ audio u4 = [EvAoPlay (data0 sample_buffer) 4096].
Proof.
  eexists _, _, _, _, _. split; [reflexivity|]. split; [reflexivity|].
  pose proof (C10_decode_error_skips false true (set_streamIdx 0 sample_player)
                undecodable_packet [packet_at 2048; read_fails AVERROR_EOF]
                _ _ _ _ _ _ _ (-1)
                PLAYER_RET_OK sample_player
                (mkSessionIo sample_open sample_filter true
                   [undecodable_packet; packet_at 2048; read_fails AVERROR_EOF])
                _ _ _ _ _ _ _ _ _
                eq_refl eq_refl ltac:(discriminate) eq_refl eq_refl eq_refl eq_refl
                ltac:(simpl; tauto) eq_refl eq_refl eq_refl eq_refl eq_refl)
    as (H1 & _ & H3 & _).
  split; [exact H1|]. split; [exact H3 | reflexivity].
Defined.

(** ** C6: pause *)

(** C6 (as the code has it).  The worker looks at [doPause] once per packet,
    in the pause gate.  A call of the gate that returns has found [doPause]
    clear, and while the worker was in the gate it did nothing but wait and
    see the flag writes of the controlling thread: nothing reached the
    device.  And whatever the flags did, the audio that reaches the device
    in a run of [play] is, packet by packet in the order of reading, what the
    decode calls of each packet of the selected stream produced: each packet
    once, none left out. *)
Theorem C6_pause_gate (h : bool) (pg : player_t) (waits : list (list caller_act))
  (pg' : player_t) (tg : trace)
  (p : player_t) (ks : list packet_io) (r : Z) (p' : player_t) (tr : trace) :
  pause_gate pg waits = Some (pg', tg) ->
  play h p ks = Some (r, p', tr) ->
  doPause pg' = false
  /\ forallb gate_event tg = true
  /\ audio tg = []
  /\ audio tr = List.concat (map (packet_audio (streamIdx p)) (firstn (reads_ok tr) ks)).
Proof.
  intros G P.
  destruct (pause_gate_spec _ _ _ _ G) as (G1 & _ & G2 & _).
  repeat split; auto.
  - apply (audio_none gate_event); auto. by_kind.
  - apply (play_run_audio h p ks r p' tr). now apply play_run_sound.
Qed.

Lemma C6_pause_gate_witness :
  exists pg' tg r p' tr,
    pause_gate (set_doPause true sample_player) [[]; [RequestResume]] = Some (pg', tg)
    /\ play false (set_streamIdx 0 sample_player) (s_play pause_session) = Some (r, p', tr)
    /\ doPause pg' = false
    /\ audio tg = []
    /\ audio tr = [EvAoPlay (data0 sample_buffer) 4096;
                   EvAoPlay (data0 sample_buffer) 4096].
Proof.
  eexists _, _, _, _, _. split; [reflexivity|]. split; [reflexivity|].
  destruct (C6_pause_gate false (set_doPause true sample_player) [[]; [RequestResume]]
              _ _ (set_streamIdx 0 sample_player) (s_play pause_session) _ _ _
              eq_refl eq_refl) as (H1 & _ & H3 & H4).
  split; [exact H1|]. split; [exact H3|]. rewrite H4. reflexivity.
Defined.

(** C6, as stated, fails: the controlling thread sets [doPause] while the
    first packet is being decoded; the worker has passed the gate of that
    packet and hands its 4096 bytes to the device with [doPause] set.  It
    stops at the gate of the next packet. *)
Lemma C6_write_while_paused :
  exists p' tr,
    BarPlayerThread false true sample_player [pause_session] []
    = Some (PLAYER_RET_OK, p', tr)
    /\ paused_bytes (doPause sample_player) tr = 4096.
Proof.
  eexists _, _. split; reflexivity.
Qed.

(** ** C4: the time stamps of the recording *)

(** Inside its contract [av_rescale_rnd] is the rounded quotient. *)
Lemma av_rescale_rnd_some a b c o :
  av_rescale_rnd a b c = Some o ->
  0 <= b /\ 0 < c /\ is_int64 o = true
  /\ o = (if a <? 0 then - ((- a * b + c / 2) / c) else (a * b + c / 2) / c).
Proof.
  unfold av_rescale_rnd, is_int64, INT64_MIN, INT64_MAX.
  destruct (- 2 ^ 63 <=? a) eqn:A1; [|discriminate].
  destruct (a <=? 2 ^ 63 - 1) eqn:A2; [|discriminate].
  destruct (a =? - 2 ^ 63) eqn:A3; [discriminate|].
  destruct (c <=? 0) eqn:E1; [discriminate|].
  destruct (b <? 0) eqn:E2; [discriminate|]. cbn [andb negb orb].
  destruct (2 ^ 63 - 1 <? (Z.abs a * b + c / 2) / c) eqn:F; [discriminate|].
  intros H; inversion H; subst; clear H.
  assert (Hb : 0 <= b) by lia. assert (Hc : 0 < c) by lia.
  assert (P : 0 <= (Z.abs a * b + c / 2) / c).
  { apply Z.div_pos; [|lia].
    pose proof (Z.div_pos c 2 ltac:(lia) ltac:(lia)).
    pose proof (Z.abs_nonneg a). nia. }
  apply Z.ltb_ge in F.
  split; [exact Hb|]. split; [exact Hc|].
  destruct (a <? 0) eqn:S.
  - replace (- a) with (Z.abs a) by lia. split; [|reflexivity].
    apply andb_true_intro; split; lia.
  - replace (Z.abs a) with a in * by lia. split; [|reflexivity].
    apply andb_true_intro; split; lia.
Qed.

Lemma av_rescale_rnd_defined a b c :
  INT64_MIN < a <= INT64_MAX -> 0 <= b -> 0 < c ->
  (Z.abs a * b + c / 2) / c <= INT64_MAX ->
  exists o, av_rescale_rnd a b c = Some o.
Proof.
  unfold av_rescale_rnd, is_int64, INT64_MIN, INT64_MAX. intros Ha Hb Hc F.
  destruct (- 2 ^ 63 <=? a) eqn:A1; [|lia].
  destruct (a <=? 2 ^ 63 - 1) eqn:A2; [|lia].
  destruct (a =? - 2 ^ 63) eqn:A3; [lia|].
  destruct (c <=? 0) eqn:E1; [lia|].
  destruct (b <? 0) eqn:E2; [lia|]. cbn [andb negb orb].
  destruct (2 ^ 63 - 1 <? (Z.abs a * b + c / 2) / c) eqn:G; [lia|].
  eexists; reflexivity.
Qed.

Lemma av_rescale_rnd_nearest a b c o :
  av_rescale_rnd a b c = Some o -> 2 * Z.abs (o * c - a * b) <= c.
Proof.
  intros H. apply av_rescale_rnd_some in H as (Hb & Hc & _ & ->).
  pose proof (Z.div_mod c 2 ltac:(lia)) as H2.
  pose proof (Z.mod_pos_bound c 2 ltac:(lia)) as B2.
  destruct (a <? 0) eqn:E3.
  - pose proof (Z.div_mod (- a * b + c / 2) c ltac:(lia)) as H.
    pose proof (Z.mod_pos_bound (- a * b + c / 2) c Hc) as B.
    remember ((- a * b + c / 2) / c) as Q. remember ((- a * b + c / 2) mod c) as R.
    remember (c / 2) as hc. remember (c mod 2) as mc.
    clear HeqQ HeqR Heqhc Heqmc.
    remember (c * Q) as cQ. replace (- Q * c) with (- cQ) by (subst; ring).
    remember (a * b) as ab. replace (- a * b) with (- ab) in H by (subst; ring).
    lia.
  - pose proof (Z.div_mod (a * b + c / 2) c ltac:(lia)) as H.
    pose proof (Z.mod_pos_bound (a * b + c / 2) c Hc) as B.
    remember ((a * b + c / 2) / c) as Q. remember ((a * b + c / 2) mod c) as R.
    remember (c / 2) as hc. remember (c mod 2) as mc.
    clear HeqQ HeqR Heqhc Heqmc.
    remember (c * Q) as cQ. replace (Q * c) with cQ by (subst; ring).
    remember (a * b) as ab.
    lia.
Qed.

Lemma av_rescale_rnd_exact a b c o :
  av_rescale_rnd a b c = Some o -> (c | a * b) -> o * c = a * b.
Proof.
  intros H [k Hk].
  pose proof (av_rescale_rnd_nearest a b c o H) as N.
  apply av_rescale_rnd_some in H as (Hb & Hc & _ & _).
  rewrite Hk in *.
  destruct (Z.eq_dec o k) as [->|D]; [reflexivity|exfalso].
  replace (o * c - k * c) with ((o - k) * c) in N by ring.
  rewrite Z.abs_mul, (Z.abs_eq c) in N by lia.
  assert (1 <= Z.abs (o - k)) by lia. nia.
Qed.

Lemma av_rescale_rnd_mono a1 a2 b c o1 o2 :
  av_rescale_rnd a1 b c = Some o1 -> av_rescale_rnd a2 b c = Some o2 ->
  a1 <= a2 -> o1 <= o2.
Proof.
  intros H1 H2 H.
  apply av_rescale_rnd_some in H1 as (Hb & Hc & _ & ->).
  apply av_rescale_rnd_some in H2 as (_ & _ & _ & ->).
  assert (P : forall x, 0 <= x -> 0 <= (x * b + c / 2) / c).
  { intros x Hx. apply Z.div_pos; [|lia].
    pose proof (Z.div_pos c 2 ltac:(lia) ltac:(lia)). nia. }
  destruct (a1 <? 0) eqn:F1, (a2 <? 0) eqn:F2; try lia.
  - apply -> Z.opp_le_mono. apply Z.div_le_mono; [lia|]. nia.
  - pose proof (P (- a1) ltac:(lia)). pose proof (P a2 ltac:(lia)). lia.
  - apply Z.div_le_mono; [lia|]. nia.
Qed.

(** [av_rescale_q] is [av_rescale_rnd] on the two products. *)
Lemma av_rescale_q_some a bq cq o :
  av_rescale_q a bq cq = Some o ->
  av_rescale_rnd a (num bq * den cq) (num cq * den bq) = Some o.
Proof. unfold av_rescale_q. destruct (_ && _); [auto|discriminate]. Qed.

Lemma q_nearest (o ab c : Z) :
  0 < c -> 2 * Z.abs (o * c - ab) <= c ->
  (Qabs (inject_Z o - inject_Z ab / inject_Z c) <= 1 # 2)%Q.
Proof.
  intros Hc N. destruct c as [|pc|pc]; try lia.
  apply Qabs_Qle_condition.
  unfold Qle, Qminus, Qplus, Qopp, Qdiv, Qmult, Qinv, inject_Z; simpl.
  rewrite ?Pos.mul_1_l, ?Pos.mul_1_r.
  split; lia.
Qed.

Lemma inject_Z_nonzero (x : Z) : 0 < x -> ~ (inject_Z x == 0)%Q.
Proof. intros Hx E. unfold Qeq in E; simpl in E; lia. Qed.

(** The rational value as one fraction. *)
Lemma exact_rescale_frac (a : Z) (src dst : AVRational) :
  0 < num src -> 0 < den src -> 0 < num dst -> 0 < den dst ->
  (exact_rescale a src dst
   == inject_Z (a * (num src * den dst)) / inject_Z (num dst * den src))%Q.
Proof.
  intros. unfold exact_rescale, av_q. rewrite !inject_Z_mult.
  field. repeat split; auto using inject_Z_nonzero.
Qed.

(** Rescaling keeps the order of the stamps it is defined on. *)
Lemma rescale_nondecreasing (src dst : AVRational) (l : list Z) :
  Forall (fun a => av_rescale_q a src dst <> None) l ->
  nondecreasing l ->
  exists ws, map (fun a => av_rescale_q a src dst) l = map Some ws
             /\ nondecreasing ws.
Proof.
  induction l as [|a l IH]; intros F N.
  - exists []. split; [reflexivity | exact I].
  - inversion F as [|? ? Fa Fl]; subst. destruct N as [N1 N2].
    destruct (IH Fl N2) as (ws & E & M).
    destruct (av_rescale_q a src dst) as [o|] eqn:Ea; [|congruence].
    exists (o :: ws). split; [simpl; rewrite Ea, E; reflexivity|].
    split; [|exact M].
    destruct l as [|b l]; destruct ws as [|w ws]; try discriminate E; auto.
    simpl in E. inversion E as [[Eb E']].
    apply av_rescale_q_some in Ea. apply av_rescale_q_some in Eb.
    exact (av_rescale_rnd_mono _ _ _ _ _ _ Ea Eb N1).
Qed.

(** C4 (as the code has it).  With the recording on and stream 0 selected,
    the packets written in a run of [play] are the packets of that stream in
    the order of reading, each with pts and dts rescaled by [av_rescale_q]
    from the codec time base of the stream to the time base of the output
    stream.  For positive time bases and a stamp [a] inside the contract of
    [av_rescale_q] (an [int64_t] other than [INT64_MIN], which is
    [AV_NOPTS_VALUE], whose rounded quotient is an [int64_t]), the rescaled
    stamp is an [int64_t] within one half of the rational value
    [a * src / dst], each stamp being computed from its own source stamp, and
    equal to the rational value when that is an integer.  When all the
    stamps read are inside the contract and non-decreasing, so are the
    stamps written. *)
Theorem C4_tee_rescale (h : bool) (p : player_t) (ks : list packet_io)
  (r : Z) (p' : player_t) (tr : trace)
  (sel : AVStream) (rest : list AVStream) (out : AVOutput) (a : Z) :
  play h p ks = Some (r, p', tr) ->
  save_file p = true ->
  fctx p = Some (sel :: rest) -> st p = Some sel -> streamIdx p = 0 ->
  ofcx p = Some out ->
  0 < num (codec_time_base sel) -> 0 < den (codec_time_base sel) ->
  0 < num (out_time_base out) -> 0 < den (out_time_base out) ->
  is_int (num (codec_time_base sel)) && is_int (den (codec_time_base sel))
  && is_int (num (out_time_base out)) && is_int (den (out_time_base out)) = true ->
  written tr
  = map (tee_stamps (codec_time_base sel) (out_time_base out)) (packets_read 0 tr)
  /\ (INT64_MIN < a <= INT64_MAX ->
      (Z.abs a * (num (codec_time_base sel) * den (out_time_base out))
       + num (out_time_base out) * den (codec_time_base sel) / 2)
      / (num (out_time_base out) * den (codec_time_base sel)) <= INT64_MAX ->
      exists o,
        av_rescale_q a (codec_time_base sel) (out_time_base out) = Some o
        /\ is_int64 o = true
        /\ (Qabs (inject_Z o
                  - exact_rescale a (codec_time_base sel) (out_time_base out))
            <= 1 # 2)%Q
        /\ ((num (out_time_base out) * den (codec_time_base sel)
             | a * (num (codec_time_base sel) * den (out_time_base out))) ->
            (inject_Z o
             == exact_rescale a (codec_time_base sel) (out_time_base out))%Q))
  /\ (Forall (fun pkt => av_rescale_q (pts pkt) (codec_time_base sel)
                           (out_time_base out) <> None) (packets_read 0 tr) ->
      nondecreasing (map pts (packets_read 0 tr)) ->
      exists ws, map fst (written tr) = map Some ws /\ nondecreasing ws)
  /\ (Forall (fun pkt => av_rescale_q (dts pkt) (codec_time_base sel)
                           (out_time_base out) <> None) (packets_read 0 tr) ->
      nondecreasing (map dts (packets_read 0 tr)) ->
      exists ws, map snd (written tr) = map Some ws /\ nondecreasing ws).
Proof.
  intros P S F _ I O Hns Hds Hnd Hdd Hint.
  set (src := codec_time_base sel) in *. set (dst := out_time_base out) in *.
  assert (Hb : 0 <= num src * den dst) by nia.
  assert (Hc : 0 < num dst * den src) by nia.
  assert (W : written tr = map (tee_stamps src dst) (packets_read 0 tr)).
  { rewrite <- I.
    apply (play_run_written _ _ _ _ _ _ (play_run_sound _ _ _ _ _ _ P) sel rest out);
      auto. }
  split; [exact W|]. split; [|split].
  - intros Ha Hr.
    destruct (av_rescale_rnd_defined a _ _ Ha Hb Hc Hr) as (o & Eo).
    exists o. split; [unfold av_rescale_q; now rewrite Hint|].
    destruct (av_rescale_rnd_some _ _ _ _ Eo) as (_ & _ & Io & _).
    split; [exact Io|]. split.
    + rewrite exact_rescale_frac by assumption.
      apply q_nearest; [exact Hc|]. now apply av_rescale_rnd_nearest.
    + intros Dv. rewrite exact_rescale_frac by assumption.
      rewrite <- (av_rescale_rnd_exact a _ _ o Eo Dv), inject_Z_mult.
      field. now apply inject_Z_nonzero.
  - intros D N. rewrite W, map_map. simpl.
    rewrite <- (map_map pts (fun x => av_rescale_q x src dst)).
    apply rescale_nondecreasing; [|exact N].
    apply Forall_map. exact D.
  - intros D N. rewrite W, map_map. simpl.
    rewrite <- (map_map dts (fun x => av_rescale_q x src dst)).
    apply rescale_nondecreasing; [|exact N].
    apply Forall_map. exact D.
Qed.

Lemma C4_tee_rescale_witness :
  exists r p' tr,
    play false opened_player [packet_at 0; packet_at 1024; read_fails AVERROR_EOF]
    = Some (r, p', tr)
    /\ written tr = [(Some 0, Some 0); (Some 1024, Some 1024)]
    /\ (exists o, av_rescale_q 1024 tb44100 tb44100 = Some o
                  /\ (inject_Z o == exact_rescale 1024 tb44100 tb44100)%Q)
    /\ (exists ws, map fst (written tr) = map Some ws /\ nondecreasing ws).
Proof.
  eexists _, _, _. split; [reflexivity|].
  destruct (C4_tee_rescale false opened_player
              [packet_at 0; packet_at 1024; read_fails AVERROR_EOF] _ _ _
              (mkStream tb44100 tb44100) [] (mkOutput tb44100 0) 1024
              eq_refl eq_refl eq_refl eq_refl eq_refl eq_refl
              eq_refl eq_refl eq_refl eq_refl eq_refl) as (H1 & H2 & H3 & _).
  split; [exact H1|]. split.
  - destruct H2 as (o & E & _ & _ & X).
    + unfold INT64_MIN, INT64_MAX. lia.
    + vm_compute. discriminate.
    + exists o. split; [exact E|]. apply X. exists 1024. reflexivity.
  - apply H3.
    + repeat constructor; discriminate.
    + simpl. lia.
Defined.

(** C4, as stated, fails: the stream counts in milliseconds, its codec in
    1/44100 s; the packet with time stamp 1024 is written with time stamp 23,
    while the rational value 1024 * (1/44100) / (1/1000) is 10240/441.  The
    recording is completed and published. *)
Lemma C4_stamp_is_rounded :
  exists p' tr,
    BarPlayerThread false true sample_player [millis_session] []
    = Some (PLAYER_RET_OK, p', tr)
    /\ existsb is_publish tr = true
    /\ packets_read 0 tr = [mkPacket 0 1024 1024 300]
    /\ written tr = [(Some 23, Some 23)]
    /\ ~ (inject_Z 23 == exact_rescale 1024 tb44100 (mkRational 1 1000))%Q.
Proof.
  eexists _, _. split; [reflexivity|]. repeat split; try reflexivity.
  intros E. vm_compute in E. discriminate.
Qed.

(** * Further properties of the worker *)

(** ** The result code *)

(** The result of a round that starts with OK. *)
Lemma body_result h c p s retry ret p' tr :
  BarPlayerThread_body h c PLAYER_RET_OK p s = Some (retry, ret, p', tr) ->
  ret = round_result
          (fst (fst (openStream h p (s_open s))))
          (fst (fst (openFilter c (snd (fst (openStream h p (s_open s)))) (s_filter s))))
          (s_device s).
Proof.
  unfold BarPlayerThread_body, round_result.
  destruct (openStream h p (s_open s)) as [[[] p1] t1]; simpl.
  - destruct (openFilter c p1 (s_filter s)) as [[[] p2] t2] eqn:F; simpl.
    + destruct (openDevice p2 (s_device s)) as [[ok p3] t3] eqn:D.
      destruct (openDevice_spec _ _ _ _ _ D) as (_ & _ & ->).
      destruct (s_device s).
      * destruct (play h p3 (s_play s)) as [[[r p4] t4]|]; [|discriminate].
        destruct (finish p4). intros H; inversion H; reflexivity.
      * destruct (finish p3). intros H; inversion H; reflexivity.
    + destruct (finish p2). intros H; inversion H; reflexivity.
  - destruct (finish p1). intros H; inversion H; reflexivity.
Qed.

(** A run of the loop is a sequence of retried rounds and one last round. *)
Lemma loop_decompose h c pret ss :
  forall p ret p' tr,
  BarPlayerThread_loop h c pret p ss = Some (ret, p', tr) ->
  exists ss1 s ss2 p1 tr1 tr2,
    ss = ss1 ++ s :: ss2
    /\ retried h c pret p ss1 p1 tr1
    /\ BarPlayerThread_body h c pret p1 s = Some (false, ret, p', tr2)
    /\ tr = tr1 ++ tr2.
Proof.
  induction ss as [|s ss IH]; intros p ret p' tr; simpl; [discriminate|].
  destruct (BarPlayerThread_body h c pret p s) as [[[[retry pret1] q] t]|] eqn:B;
    [|discriminate].
  destruct retry.
  - destruct (body_retry_read _ _ _ _ _ _ _ _ B) as (-> & _).
    intros H. apply prepend_some in H as (tr' & H & ->).
    destruct (IH _ _ _ _ H) as (ss1 & s' & ss2 & p1 & tr1 & tr2 & -> & R & B' & ->).
    exists (s :: ss1), s', ss2, p1, (t ++ tr1), tr2.
    repeat split; auto.
    + econstructor; eauto.
    + now rewrite app_assoc.
  - intros H; inversion H; subst.
    exists [], s, ss, p, [], tr. repeat split; auto. constructor.
Qed.

(** X1.  When [BarPlayerThread] returns, its rounds were some rounds that
    each ended in a retry, followed by one last round that ended without
    one, and the result is decided by that last round alone: SOFTFAIL when
    its [openStream] failed, HARDFAIL when the stream opened and [openFilter]
    or [openDevice] failed, OK when [play] was reached, however [play]
    ended. *)
Theorem X1_result_of_last_round (h c : bool) (p : player_t) (ss : list session_io)
  (fin : list caller_act) (ret : BarPlayerRet) (p' : player_t) (tr : trace) :
  BarPlayerThread h c p ss fin = Some (ret, p', tr) ->
  exists ss1 s ss2 p1 tr1 p2 tr2,
    ss = ss1 ++ s :: ss2
    /\ retried h c PLAYER_RET_OK p ss1 p1 tr1
    /\ BarPlayerThread_body h c PLAYER_RET_OK p1 s = Some (false, ret, p2, tr2)
    /\ ret = round_result
               (fst (fst (openStream h p1 (s_open s))))
               (fst (fst (openFilter c (snd (fst (openStream h p1 (s_open s))))
                                     (s_filter s))))
               (s_device s).
Proof.
  unfold BarPlayerThread. intros H.
  destruct (BarPlayerThread_loop h c PLAYER_RET_OK p ss) as [[[pret q] t]|] eqn:L;
    [|discriminate].
  assert (pret = ret) as -> by (destruct (_ && _); inversion H; reflexivity).
  destruct (loop_decompose _ _ _ _ _ _ _ _ L)
    as (ss1 & s & ss2 & p1 & tr1 & tr2 & -> & R & B & _).
  exists ss1, s, ss2, p1, tr1, q, tr2.
  split; [reflexivity|]. split; [exact R|]. split; [exact B|].
  eapply body_result; eauto.
Qed.

Lemma X1_result_of_last_round_witness :
  exists ss1 s ss2 p1 tr1 p2 tr2,
    [corrupt_after_1024; device_busy_session] = ss1 ++ s :: ss2
    /\ retried false true PLAYER_RET_OK sample_player ss1 p1 tr1
    /\ BarPlayerThread_body false true PLAYER_RET_OK p1 s
       = Some (false, PLAYER_RET_HARDFAIL, p2, tr2)
    /\ PLAYER_RET_HARDFAIL
       = round_result
           (fst (fst (openStream false p1 (s_open s))))
           (fst (fst (openFilter true (snd (fst (openStream false p1 (s_open s))))
                                 (s_filter s))))
           (s_device s).
Proof.
  exact (X1_result_of_last_round false true sample_player
           [corrupt_after_1024; device_busy_session] [] PLAYER_RET_HARDFAIL _ _ eq_refl).
Defined.

(** ** Diagnostics *)

Lemma openStream_msgs h p io ok p' tr :
  openStream h p io = (ok, p', tr) ->
  List.length (filter is_msg tr) = if ok then 0%nat else 1%nat.
Proof.
  unfold openStream, openStream_save, ping_now, softfail. intros H.
  destruct p; simpl in *. split_ifs H; inversion H; subst; reflexivity.
Qed.

(** X2.  [openStream] reports a failure exactly once and reports nothing
    when it succeeds: its trace holds one error message if it returns false
    and none if it returns true. *)
Theorem X2_openStream_reports_once (h : bool) (p : player_t) (io : open_io)
  (ok : bool) (p' : player_t) (tr : trace) :
  openStream h p io = (ok, p', tr) ->
  List.length (filter is_msg tr) = if ok then 0%nat else 1%nat.
Proof. apply openStream_msgs. Qed.

Lemma X2_openStream_reports_once_witness :
  exists p' tr,
    openStream false sample_player unreachable_open = (false, p', tr)
    /\ List.length (filter is_msg tr) = 1%nat.
Proof.
  eexists _, _. split; [reflexivity|].
  exact (X2_openStream_reports_once false sample_player unreachable_open false _ _
           eq_refl).
Defined.

Lemma openFilter_msg c p io p' tr :
  openFilter c p io = (false, p', tr) -> existsb is_msg tr = true.
Proof.
  unfold openFilter, BarPlayerSetVolume, softfail. intros H.
  destruct p; simpl in *.
  split_ifs H; inversion H; subst; rewrite ?existsb_app; simpl;
    rewrite ?orb_true_r; reflexivity.
Qed.

Lemma body_msg h c pret p s retry pret' p' tr :
  BarPlayerThread_body h c pret p s = Some (retry, pret', p', tr) ->
  pret' <> pret -> existsb is_msg tr = true.
Proof.
  unfold BarPlayerThread_body.
  destruct (openStream h p (s_open s)) as [[[] p1] t1] eqn:O.
  - destruct (openFilter c p1 (s_filter s)) as [[[] p2] t2] eqn:F.
    + destruct (openDevice p2 (s_device s)) as [[[] p3] t3] eqn:D.
      * destruct (play h p3 (s_play s)) as [[[r p4] t4]|]; [|discriminate].
        destruct (finish p4). intros H N; inversion H; subst. congruence.
      * destruct (finish p3). intros H _; inversion H; subst.
        unfold openDevice in D. destruct (s_device s); inversion D; subst.
        rewrite !existsb_app. simpl. now rewrite !orb_true_r.
    + destruct (finish p2). intros H _; inversion H; subst.
      rewrite !existsb_app, (openFilter_msg _ _ _ _ _ F). simpl.
      now rewrite orb_true_r.
  - destruct (finish p1). intros H _; inversion H; subst.
    pose proof (openStream_msgs _ _ _ _ _ _ O) as C.
    rewrite existsb_app.
    destruct (existsb is_msg t1) eqn:E; [reflexivity|].
    exfalso. clear - C E. induction t1 as [|e t IH]; simpl in *; [discriminate|].
    destruct (is_msg e); simpl in *; [discriminate|]. auto.
Qed.

Lemma loop_msg h c pret ss :
  forall p ret p' tr,
  BarPlayerThread_loop h c pret p ss = Some (ret, p', tr) ->
  ret <> pret -> existsb is_msg tr = true.
Proof.
  intros p ret p' tr L N.
  destruct (loop_decompose _ _ _ _ _ _ _ _ L)
    as (ss1 & s & ss2 & p1 & tr1 & tr2 & _ & _ & B & ->).
  rewrite existsb_app, (body_msg _ _ _ _ _ _ _ _ _ B N). apply orb_true_r.
Qed.

(** X3.  A result other than OK never comes without a diagnostic: when
    [BarPlayerThread] returns SOFTFAIL or HARDFAIL, an error message has been
    handed to the message sink. *)
Theorem X3_failure_is_reported (h c : bool) (p : player_t) (ss : list session_io)
  (fin : list caller_act) (ret : BarPlayerRet) (p' : player_t) (tr : trace) :
  BarPlayerThread h c p ss fin = Some (ret, p', tr) ->
  ret <> PLAYER_RET_OK ->
  existsb is_msg tr = true.
Proof.
  unfold BarPlayerThread. intros H N.
  destruct (BarPlayerThread_loop h c PLAYER_RET_OK p ss) as [[[pret q] t]|] eqn:L;
    [|discriminate].
  assert (pret = ret) as -> by (destruct (_ && _); inversion H; reflexivity).
  pose proof (loop_msg _ _ _ _ _ _ _ _ L N) as M.
  destruct (_ && _); inversion H; subst; rewrite !existsb_app, M; reflexivity.
Qed.

Lemma X3_failure_is_reported_witness :
  exists p' tr,
    BarPlayerThread false true sample_player [corrupt_after_1024; unreachable_session] []
    = Some (PLAYER_RET_SOFTFAIL, p', tr)
    /\ existsb is_msg tr = true.
Proof.
  eexists _, _. split; [reflexivity|].
  exact (X3_failure_is_reported false true sample_player
           [corrupt_after_1024; unreachable_session] [] PLAYER_RET_SOFTFAIL _ _
           eq_refl ltac:(discriminate)).
Defined.

(** ** Release of the handles *)

Lemma finish_released p :
  fctx (fst (finish p)) = None /\ st (fst (finish p)) = None
  /\ fgraph (fst (finish p)) = false /\ aoDev (fst (finish p)) = false.
Proof.
  pose proof (finish_spec p) as H. destruct (finish p) as [q t].
  destruct H as (-> & _). destruct p; simpl. repeat split.
Qed.

Lemma body_released h c pret p s retry pret' p' tr :
  BarPlayerThread_body h c pret p s = Some (retry, pret', p', tr) ->
  fctx p' = None /\ st p' = None /\ fgraph p' = false /\ aoDev p' = false.
Proof.
  intros H. apply body_inv in H
    as [(p1 & t1 & _ & _ & _ & -> & _)
       |[(p1 & t1 & p2 & t2 & _ & _ & _ & _ & _ & -> & _)
        |(p1 & t1 & p2 & t2 & p3 & t3 & r & p4 & t4 & _ & _ & _ & _ & _ & _ & -> & _)]];
    apply finish_released.
Qed.

(** X4.  Whatever way the worker ends (stream not found, filter or device
    missing, end of stream, read error, quit), when [BarPlayerThread] returns
    the input, the decoder, the filter graph and the audio device have been
    released: the four handles are NULL, and a further [finish] would do
    nothing but call [ao_close] on the NULL device. *)
Theorem X4_handles_released (h c : bool) (p : player_t) (ss : list session_io)
  (fin : list caller_act) (ret : BarPlayerRet) (p' : player_t) (tr : trace) :
  BarPlayerThread h c p ss fin = Some (ret, p', tr) ->
  fctx p' = None /\ st p' = None /\ fgraph p' = false /\ aoDev p' = false
  /\ finish p' = (p', [EvAoClose]).
Proof.
  unfold BarPlayerThread. intros H.
  destruct (BarPlayerThread_loop h c PLAYER_RET_OK p ss) as [[[pret q] t]|] eqn:L;
    [|discriminate].
  destruct (loop_decompose _ _ _ _ _ _ _ _ L)
    as (ss1 & s & ss2 & p1 & tr1 & tr2 & _ & _ & B & _).
  destruct (body_released _ _ _ _ _ _ _ _ _ B) as (F & S & G & A).
  assert (E : p' = callers fin (set_mode PLAYER_FINISHED q))
    by (destruct (_ && _); inversion H; reflexivity).
  assert (K : fctx p' = None /\ st p' = None /\ fgraph p' = false /\ aoDev p' = false).
  { rewrite E, (callers_flags fin _). destruct q; simpl in *. auto. }
  destruct K as (F' & S' & G' & A'). repeat split; auto.
  clear - F' S' G' A'. destruct p'; simpl in *. subst. reflexivity.
Qed.

Lemma X4_handles_released_witness :
  exists ret p' tr,
    BarPlayerThread false true sample_player [stalled_session] [] = Some (ret, p', tr)
    /\ fctx p' = None /\ st p' = None /\ fgraph p' = false /\ aoDev p' = false
    /\ finish p' = (p', [EvAoClose]).
Proof.
  eexists _, _, _. split; [reflexivity|].
  exact (X4_handles_released false true sample_player [stalled_session] [] _ _ _ eq_refl).
Defined.

(** X5.  [openStream] starts with [assert (player->fctx == NULL)].  If the
    input handle is NULL when the worker starts, it is NULL again at the
    start of every further round of the retry loop: [finish] has closed the
    input of the round before. *)
Theorem X5_reopen_finds_no_input (h c : bool) (pret : BarPlayerRet) (p : player_t)
  (ss1 : list session_io) (p1 : player_t) (tr1 : trace) :
  retried h c pret p ss1 p1 tr1 ->
  fctx p = None ->
  fctx p1 = None
  /\ (ss1 <> [] -> st p1 = None /\ fgraph p1 = false /\ aoDev p1 = false).
Proof.
  induction 1 as [p|p s ss q tq p' tr B R IH]; intros F.
  - split; [exact F|]. congruence.
  - destruct (body_released _ _ _ _ _ _ _ _ _ B) as (F1 & S1 & G1 & A1).
    destruct (IH F1) as (IH1 & IH2). split; [exact IH1|]. intros _.
    destruct ss as [|s' ss'].
    + inversion R; subst. auto.
    + apply IH2. discriminate.
Qed.

Lemma X5_reopen_finds_no_input_witness :
  exists p1 tr1,
    retried false true PLAYER_RET_OK sample_player [corrupt_after_1024] p1 tr1
    /\ fctx p1 = None.
Proof.
  eexists _, _.
  pose proof (retried_cons false true PLAYER_RET_OK sample_player corrupt_after_1024 []
                _ _ _ _ eq_refl (retried_nil _ _ _ _)) as R.
  split; [exact R|].
  exact (proj1 (X5_reopen_finds_no_input false true PLAYER_RET_OK sample_player
                  [corrupt_after_1024] _ _ R eq_refl)).
Defined.

(** ** The decode loop *)

Lemma decode_rets_app (a b : trace) : decode_rets (a ++ b) = decode_rets a ++ decode_rets b.
Proof. apply flat_map_app. Qed.

Lemma decode_rets_callers acts : decode_rets (map EvCaller acts) = [].
Proof. induction acts; simpl; auto. Qed.

Lemma decode_rets_frame d : decode_rets (play_frame d) = [].
Proof.
  unfold play_frame. destruct (d_got_frame d =? 0); simpl; [reflexivity|].
  induction (d_filtered d); simpl; auto.
Qed.

(** X6.  The decode loop of a packet of [pkt_size] bytes calls the decoder at
    least once, goes on while the calls succeed and have together consumed
    less than the packet, and stops at the first call that fails or that
    brings the consumed bytes up to the size of the packet. *)
Theorem X6_decode_until_consumed (ds : list decode_io) :
  forall (p : player_t) (pkt_size : Z) (p' : player_t) (td : trace),
  decode_loop p pkt_size ds = Some (p', td) ->
  exists rs r,
    decode_rets td = rs ++ [r]
    /\ Forall (fun x => 0 <= x) rs
    /\ (rs <> [] -> sum rs < pkt_size)
    /\ (r < 0 \/ (0 <= r /\ pkt_size <= sum rs + r)).
Proof.
  induction ds as [|d ds IH]; intros p sz p' td; simpl; [discriminate|].
  destruct (d_decoded d <? 0) eqn:E.
  - intros H; inversion H; subst. exists [], (d_decoded d).
    rewrite decode_rets_app, decode_rets_callers. simpl.
    repeat split; auto; [congruence | left; lia].
  - destruct (sz - d_decoded d >? 0) eqn:S.
    + destruct (decode_loop (callers (d_caller d) p) (sz - d_decoded d) ds)
        as [[q t]|] eqn:G; [|discriminate].
      intros H; inversion H; subst.
      destruct (IH _ _ _ _ G) as (rs & r & R & F & L & K).
      exists (d_decoded d :: rs), r.
      rewrite !decode_rets_app, decode_rets_callers, decode_rets_frame, R. simpl.
      repeat split; auto.
      * constructor; [lia | exact F].
      * intros _. destruct rs as [|x rs']; simpl in *; [lia|].
        assert (x :: rs' <> []) as N by discriminate. specialize (L N). lia.
      * destruct K as [K|K]; [left; exact K | right; lia].
    + intros H; inversion H; subst. exists [], (d_decoded d).
      rewrite !decode_rets_app, decode_rets_callers, decode_rets_frame. simpl.
      repeat split; auto; [congruence | right; lia].
Qed.

Lemma X6_decode_until_consumed_witness :
  exists p' td rs r,
    decode_loop sample_player 300
      [mkDecodeIo [] 100 1 [sample_buffer]; mkDecodeIo [] 200 1 [sample_buffer]]
    = Some (p', td)
    /\ decode_rets td = rs ++ [r]
    /\ (r < 0 \/ (0 <= r /\ 300 <= sum rs + r)).
Proof.
  eexists _, _.
  destruct (X6_decode_until_consumed
              [mkDecodeIo [] 100 1 [sample_buffer]; mkDecodeIo [] 200 1 [sample_buffer]]
              sample_player 300 _ _ eq_refl) as (rs & r & R & _ & _ & K).
  exists rs, r. split; [reflexivity|]. split; [exact R | exact K].
Defined.

(** X7.  The decode loop has no way out for a decoder that makes no
    progress: as long as every call returns a non-negative count and the
    counts add up to less than the size of the packet, the loop asks for
    another call.  A decoder that returns 0 on a packet that is not empty is
    called again and again; neither [doQuit] nor the watchdog is looked at
    inside this loop. *)
Theorem X7_decoder_without_progress (ds : list decode_io) :
  forall (p : player_t) (pkt_size : Z),
  Forall (fun d => 0 <= d_decoded d) ds ->
  sum (map d_decoded ds) < pkt_size ->
  decode_loop p pkt_size ds = None.
Proof.
  induction ds as [|d ds IH]; intros p sz F S; simpl; [reflexivity|].
  inversion F as [|? ? F1 F2]; subst.
  change (sum (map d_decoded (d :: ds)))
    with (d_decoded d + sum (map d_decoded ds)) in S.
  assert (N : 0 <= sum (map d_decoded ds)).
  { clear - F2. induction F2; simpl; [lia|].
    change (0 <= d_decoded x + sum (map d_decoded l)). lia. }
  destruct (d_decoded d <? 0) eqn:E; [lia|].
  destruct (sz - d_decoded d >? 0) eqn:G; [|lia].
  rewrite IH; auto. lia.
Qed.

Lemma X7_decoder_without_progress_witness :
  decode_loop (set_doQuit true sample_player) 300
    (repeat (mkDecodeIo [RequestQuit] 0 0 []) 5) = None.
Proof.
  apply X7_decoder_without_progress.
  - repeat constructor; simpl; lia.
  - simpl. lia.
Defined.

(** ** Pause and quit *)

Lemma callers_stay_paused (w : list caller_act) :
  forall p, doPause p = true -> existsb is_resume w = false ->
  doPause (callers w p) = true.
Proof.
  induction w as [|a w IH]; intros p P N; [exact P|].
  simpl in N. apply orb_false_iff in N as [N1 N2].
  change (callers (a :: w) p) with (callers w (caller_step p a)).
  apply IH; auto. destruct a, p; simpl in *; auto; discriminate.
Qed.

(** X8.  The pause gate looks at [doPause] only.  A worker that finds
    [doPause] set stays in the gate as long as the controlling thread does
    not clear the flag, whatever else it does: a quit requested during a
    pause wakes the worker, which finds [doPause] still set and waits
    again. *)
Theorem X8_quit_does_not_end_pause (waits : list (list caller_act)) :
  forall (p : player_t),
  doPause p = true ->
  forallb (fun w => negb (existsb is_resume w)) waits = true ->
  pause_gate p waits = None.
Proof.
  induction waits as [|w waits IH]; intros p P N; simpl; rewrite P; [reflexivity|].
  simpl in N. apply andb_true_iff in N as [N1 N2].
  apply negb_true_iff in N1.
  rewrite (IH (callers w p)); auto using callers_stay_paused.
Qed.

Lemma X8_quit_does_not_end_pause_witness :
  pause_gate (set_doPause true sample_player) [[RequestQuit]; []; [RequestQuit]] = None.
Proof.
  apply X8_quit_does_not_end_pause; reflexivity.
Defined.

Lemma openStream_opens_once h p io ok p' tr :
  openStream h p io = (ok, p', tr) ->
  List.length (filter is_open_input tr) = 1%nat
  /\ filter is_ao_close tr = [] /\ filter is_read tr = [] /\ audio tr = [].
Proof.
  unfold openStream, openStream_save, ping_now, softfail. intros H.
  destruct p; simpl in *. split_ifs H; inversion H; subst; repeat split; reflexivity.
Qed.

(** One round: the input is opened once and the device closed once. *)
Lemma body_counts h c pret p s retry pret' p' tr :
  BarPlayerThread_body h c pret p s = Some (retry, pret', p', tr) ->
  List.length (filter is_open_input tr) = 1%nat
  /\ List.length (filter is_ao_close tr) = 1%nat.
Proof.
  assert (FA : forall q, List.length (filter is_ao_close (snd (finish q))) = 1%nat).
  { intros q. pose proof (finish_spec q) as K. destruct (finish q) as [q' t].
    destruct K as (_ & _ & ->). simpl.
    destruct (fgraph q), (st q), (fctx q); reflexivity. }
  assert (FO : forall q, filter is_open_input (snd (finish q)) = []).
  { intros q. destruct (finish_keeps q) as (_ & _ & _ & _ & _ & _ & K).
    apply (filter_none finish_event); auto. by_kind. }
  assert (SO : forall t, forallb setup_event t = true -> filter is_open_input t = [])
    by (intros t; apply filter_none; by_kind).
  assert (SA : forall t, forallb setup_event t = true -> filter is_ao_close t = [])
    by (intros t; apply filter_none; by_kind).
  intros H. apply body_inv in H
    as [(p1 & t1 & O & _ & _ & _ & ->)
       |[(p1 & t1 & p2 & t2 & O & _ & E & _ & _ & _ & ->)
        |(p1 & t1 & p2 & t2 & p3 & t3 & r & p4 & t4 & O & F & D & P & _ & _ & _ & ->)]];
    destruct (openStream_opens_once _ _ _ _ _ _ O) as (O1 & O2 & _);
    rewrite !filter_app, !length_app, ?FO, ?FA, ?O1, ?O2.
  - split; reflexivity.
  - rewrite (SO _ E), (SA _ E). split; reflexivity.
  - apply openFilter_spec in F as (_ & F & _).
    apply openDevice_spec in D as (_ & D & _).
    apply play_run_sound, play_run_events in P.
    rewrite (SO _ F), (SA _ F), (SO _ D), (SA _ D),
      (filter_none play_event is_open_input t4),
      (filter_none play_event is_ao_close t4); auto; try by_kind.
Qed.

(** X9.  [doQuit] is looked at nowhere but in [play] (and once after the
    loop).  A worker that starts a round with [doQuit] set still opens the
    stream, and the filter and the device if the stream opens, before it
    notices: the round opens the input once, reads no packet, plays nothing,
    asks for no retry, so the loop ends with it, and it does so whatever the
    scripts of [play] and of the later rounds hold. *)
Theorem X9_quit_is_seen_after_open (h c : bool) (p : player_t) (s : session_io)
  (ss : list session_io) :
  doQuit p = true ->
  exists ret p' tr,
    BarPlayerThread_loop h c PLAYER_RET_OK p (s :: ss) = Some (ret, p', tr)
    /\ List.length (filter is_open_input tr) = 1%nat
    /\ filter is_read tr = []
    /\ audio tr = []
    /\ doQuit p' = true.
Proof.
  intros Q.
  assert (FR : forall q, filter is_read (snd (finish q)) = []
                         /\ audio (snd (finish q)) = []).
  { intros q. destruct (finish_keeps q) as (_ & _ & _ & _ & _ & _ & K).
    split; apply (filter_none finish_event); auto; by_kind. }
  assert (SR : forall t, forallb setup_event t = true ->
                         filter is_read t = [] /\ audio t = []).
  { intros t K. split; apply (filter_none setup_event); auto; by_kind. }
  assert (B : exists retry ret p' tr,
             BarPlayerThread_body h c PLAYER_RET_OK p s = Some (retry, ret, p', tr)
             /\ retry = false /\ filter is_read tr = [] /\ audio tr = []
             /\ doQuit p' = true).
  { unfold BarPlayerThread_body.
    destruct (openStream h p (s_open s)) as [[ok p1] t1] eqn:O.
    destruct (openStream_keeps _ _ _ _ _ _ O) as (_ & Q1 & _).
    destruct (openStream_opens_once _ _ _ _ _ _ O) as (_ & _ & R1 & A1).
    rewrite Q in Q1.
    destruct ok.
    - destruct (openFilter c p1 (s_filter s)) as [[okf p2] t2] eqn:F.
      destruct (openFilter_spec _ _ _ _ _ _ F) as (F1 & F2 & _).
      assert (Q2 : doQuit p2 = true) by (rewrite F1; destruct p1; exact Q1).
      destruct (SR _ F2) as (R2 & A2).
      destruct okf.
      + destruct (openDevice p2 (s_device s)) as [[okd p3] t3] eqn:D.
        destruct (openDevice_spec _ _ _ _ _ D) as (D1 & D2 & _).
        assert (Q3 : doQuit p3 = true) by (rewrite D1; destruct p2; exact Q2).
        destruct (SR _ D2) as (R3 & A3).
        destruct okd.
        * destruct (play_quit_now h p3 (s_play s) Q3) as (p4 & t4 & P & C & _ & Q4).
          rewrite P. destruct (finish p4) as [p5 t5] eqn:K.
          destruct (finish_keeps p4) as (_ & Q5 & _). destruct (FR p4) as (R5 & A5).
          rewrite K in *. simpl in *.
          eexists _, _, _, _. split; [reflexivity|].
          split; [reflexivity|]. split; [|split; [|congruence]].
          -- rewrite !filter_app, R1, R2, R3, R5,
               (filter_none is_caller is_read t4); auto. by_kind.
          -- rewrite !audio_app, A1, A2, A3, A5, (audio_none is_caller t4); auto.
             by_kind.
        * destruct (finish p3) as [p5 t5] eqn:K.
          destruct (finish_keeps p3) as (_ & Q5 & _). destruct (FR p3) as (R5 & A5).
          rewrite K in *. simpl in *.
          eexists _, _, _, _. split; [reflexivity|].
          split; [reflexivity|]. split; [|split; [|congruence]].
          -- now rewrite !filter_app, R1, R2, R3, R5.
          -- now rewrite !audio_app, A1, A2, A3, A5.
      + destruct (finish p2) as [p5 t5] eqn:K.
        destruct (finish_keeps p2) as (_ & Q5 & _). destruct (FR p2) as (R5 & A5).
        rewrite K in *. simpl in *.
        eexists _, _, _, _. split; [reflexivity|].
        split; [reflexivity|]. split; [|split; [|congruence]].
        * now rewrite !filter_app, R1, R2, R5.
        * now rewrite !audio_app, A1, A2, A5.
    - destruct (finish p1) as [p5 t5] eqn:K.
      destruct (finish_keeps p1) as (_ & Q5 & _). destruct (FR p1) as (R5 & A5).
      rewrite K in *. simpl in *.
      eexists _, _, _, _. split; [reflexivity|].
      split; [reflexivity|]. split; [|split; [|congruence]].
      + now rewrite !filter_app, R1, R5.
      + now rewrite !audio_app, A1, A5. }
  destruct B as (retry & ret & p' & tr & B & -> & R & A & Q').
  exists ret, p', tr. simpl. rewrite B.
  destruct (body_counts _ _ _ _ _ _ _ _ _ B) as (C & _).
  repeat split; auto.
Qed.

Lemma X9_quit_is_seen_after_open_witness :
  exists ret p' tr,
    BarPlayerThread_loop false true PLAYER_RET_OK (set_doQuit true sample_player)
      (sample_session :: []) = Some (ret, p', tr)
    /\ List.length (filter is_open_input tr) = 1%nat
    /\ filter is_read tr = []
    /\ audio tr = []
    /\ doQuit p' = true.
Proof.
  exact (X9_quit_is_seen_after_open false true (set_doQuit true sample_player)
           sample_session [] eq_refl).
Defined.

(** ** Rounds *)

Lemma loop_counts h c ss :
  forall pret p ret p' tr,
  BarPlayerThread_loop h c pret p ss = Some (ret, p', tr) ->
  exists n, (1 <= n <= List.length ss)%nat
    /\ List.length (filter is_open_input tr) = n
    /\ List.length (filter is_ao_close tr) = n.
Proof.
  induction ss as [|s ss IH]; intros pret p ret p' tr; simpl; [discriminate|].
  destruct (BarPlayerThread_body h c pret p s) as [[[[retry pret1] q] t]|] eqn:B;
    [|discriminate].
  destruct (body_counts _ _ _ _ _ _ _ _ _ B) as (C1 & C2).
  destruct retry.
  - intros H. apply prepend_some in H as (tr' & H & ->).
    destruct (IH _ _ _ _ _ H) as (n & N & N1 & N2).
    exists (S n). rewrite !filter_app, !length_app, C1, C2, N1, N2.
    repeat split; lia.
  - intros H; inversion H; subst. exists 1%nat. repeat split; auto; lia.
Qed.

(** X10.  Every round of the retry loop opens the input once and ends with
    one [ao_close], also when [openStream], [openFilter] or [openDevice]
    failed and no device was opened: in a run of [BarPlayerThread] the calls
    of [ao_close] are as many as the calls of [avformat_open_input], at least
    one and at most one per round of the script. *)
Theorem X10_one_close_per_round (h c : bool) (p : player_t) (ss : list session_io)
  (fin : list caller_act) (ret : BarPlayerRet) (p' : player_t) (tr : trace) :
  BarPlayerThread h c p ss fin = Some (ret, p', tr) ->
  List.length (filter is_ao_close tr) = List.length (filter is_open_input tr)
  /\ (1 <= List.length (filter is_ao_close tr) <= List.length ss)%nat.
Proof.
  unfold BarPlayerThread. intros H.
  destruct (BarPlayerThread_loop h c PLAYER_RET_OK p ss) as [[[pret q] t]|] eqn:L;
    [|discriminate].
  destruct (loop_counts _ _ _ _ _ _ _ _ L) as (n & N & N1 & N2).
  assert (CO : filter is_open_input (map EvCaller fin) = []
               /\ filter is_ao_close (map EvCaller fin) = []).
  { split; apply (filter_none gate_event); auto using caller_is_gate; by_kind. }
  destruct CO as (CO & CA).
  assert (T : exists te, tr = (t ++ map EvCaller fin) ++ te
                         /\ filter is_open_input te = []
                         /\ filter is_ao_close te = []).
  { destruct (_ && _); inversion H.
    - eexists. repeat split; reflexivity.
    - exists []. rewrite app_nil_r. repeat split; reflexivity. }
  destruct T as (te & -> & T1 & T2).
  rewrite !filter_app, !length_app, CO, CA, T1, T2, N1, N2. simpl. lia.
Qed.

Lemma X10_one_close_per_round_witness :
  exists ret p' tr,
    BarPlayerThread false true sample_player [corrupt_after_1024; unreachable_session] []
    = Some (ret, p', tr)
    /\ List.length (filter is_ao_close tr) = 2%nat
    /\ List.length (filter is_open_input tr) = 2%nat.
Proof.
  eexists _, _, _. split; [reflexivity|].
  destruct (X10_one_close_per_round false true sample_player
              [corrupt_after_1024; unreachable_session] [] _ _ _ eq_refl) as (E & _).
  split; [reflexivity | rewrite <- E; reflexivity].
Defined.

(** ** The build with the native timeout *)

Lemma openStream_no_ping p io ok p' tr :
  openStream true p io = (ok, p', tr) -> ping p' = ping p /\ filter is_ping tr = [].
Proof.
  unfold openStream, openStream_save, ping_now, softfail. intros H.
  destruct p; simpl in *. split_ifs H; inversion H; subst; split; reflexivity.
Qed.

Lemma play_run_no_ping p ks r p' tr :
  play_run true p ks r p' tr -> ping p' = ping p /\ filter is_ping tr = [].
Proof.
  assert (NC : forall acts, filter is_ping (map EvCaller acts) = []).
  { intros acts. apply (filter_none gate_event); auto using caller_is_gate. by_kind. }
  induction 1.
  - split; reflexivity.
  - split; [apply (flags_fields _ _ (callers_flags (k_caller k) p)) | apply NC].
  - unfold ping_now in H0. inversion H0; subst. split.
    + apply (flags_fields _ _ (callers_flags (k_caller k) p)).
    + rewrite filter_app, NC. reflexivity.
  - unfold ping_now in H0. inversion H0; subst. destruct IHplay_run as (I1 & I2).
    split.
    + rewrite I1. apply (flags_fields _ _ (callers_flags (k_caller k) p)).
    + rewrite !filter_app, NC, I2. reflexivity.
  - unfold ping_now in H0. inversion H0; subst. destruct IHplay_run as (I1 & I2).
    pose proof (pause_gate_spec _ _ _ _ H4) as (_ & T2 & G & _).
    pose proof (decode_loop_spec _ _ _ _ _ H5) as (T3 & D & _).
    apply flags_fields in T2 as (_ & P2 & _).
    apply flags_fields in T3 as (_ & P3 & _).
    split.
    + rewrite I1.
      destruct (set_lastTimestamp_fields (pts (k_pkt k)) p3) as (_ & _ & _ & _ & _ & ->).
      rewrite P3, P2. apply (flags_fields _ _ (callers_flags (k_caller k) p)).
    + rewrite !filter_app, NC, I2.
      rewrite (filter_none is_write_frame is_ping tt),
        (filter_none gate_event is_ping tg),
        (filter_none decode_event is_ping td); eauto using tee_events; by_kind.
Qed.

Lemma body_no_ping c pret p s retry pret' p' tr :
  BarPlayerThread_body true c pret p s = Some (retry, pret', p', tr) ->
  ping p' = ping p /\ filter is_ping tr = [].
Proof.
  assert (SP : forall t, forallb setup_event t = true -> filter is_ping t = [])
    by (intros t; apply filter_none; by_kind).
  assert (FP : forall q, filter is_ping (snd (finish q)) = []).
  { intros q. destruct (finish_keeps q) as (_ & _ & _ & _ & _ & _ & K).
    apply (filter_none finish_event); auto. by_kind. }
  intros H. apply body_inv in H
    as [(p1 & t1 & O & _ & _ & -> & ->)
       |[(p1 & t1 & p2 & t2 & O & E2 & E & _ & _ & -> & ->)
        |(p1 & t1 & p2 & t2 & p3 & t3 & r & p4 & t4 & O & F & D & P & _ & _ & -> & ->)]];
    destruct (openStream_no_ping _ _ _ _ _ O) as (O1 & O2);
    rewrite !filter_app, ?FP, O2.
  - destruct (finish_keeps p1) as (_ & _ & _ & _ & _ & G & _).
    split; [congruence | reflexivity].
  - destruct (finish_keeps p2) as (_ & _ & _ & _ & _ & G & _).
    rewrite (SP _ E). split; [|reflexivity].
    rewrite G, E2, <- O1. destruct p1; reflexivity.
  - apply openFilter_spec in F as (F1 & F & _).
    apply openDevice_spec in D as (D1 & D & _).
    apply play_run_sound, play_run_no_ping in P as (P1 & P2).
    destruct (finish_keeps p4) as (_ & _ & _ & _ & _ & G & _).
    rewrite (SP _ F), (SP _ D), P2. split; [|reflexivity].
    rewrite G, P1, <- O1, D1, F1. destruct p1; reflexivity.
Qed.

(** X11.  In the build with [HAVE_AV_TIMEOUT] the macro [ping ()] is empty:
    the worker never writes [player->ping] and records no clock reading, in
    any round; [intCb] is not compiled in and the stall guard is the
    library's own timeout alone. *)
Theorem X11_native_timeout_never_pings (c : bool) (p : player_t)
  (ss : list session_io) (fin : list caller_act)
  (ret : BarPlayerRet) (p' : player_t) (tr : trace) :
  BarPlayerThread true c p ss fin = Some (ret, p', tr) ->
  ping p' = ping p /\ filter is_ping tr = [].
Proof.
  unfold BarPlayerThread. intros H.
  destruct (BarPlayerThread_loop true c PLAYER_RET_OK p ss) as [[[pret q] t]|] eqn:L;
    [|discriminate].
  assert (LP : ping q = ping p /\ filter is_ping t = []).
  { clear H. revert p pret q t L.
    induction ss as [|s ss IH]; intros p pret q t; simpl; [discriminate|].
    destruct (BarPlayerThread_body true c PLAYER_RET_OK p s)
      as [[[[retry pret1] q1] t1]|] eqn:B; [|discriminate].
    destruct (body_no_ping _ _ _ _ _ _ _ _ B) as (B1 & B2).
    destruct retry.
    - destruct (body_retry_read _ _ _ _ _ _ _ _ B) as (-> & _).
      intros H. apply prepend_some in H as (tr' & H & ->).
      destruct (IH _ _ _ _ H) as (I1 & I2).
      rewrite filter_app, B2, I2. split; [congruence | reflexivity].
    - intros H; inversion H; subst. auto. }
  destruct LP as (L1 & L2).
  assert (CP : filter is_ping (map EvCaller fin) = []).
  { apply (filter_none gate_event); auto using caller_is_gate. by_kind. }
  assert (E : ping (callers fin (set_mode PLAYER_FINISHED q)) = ping p).
  { rewrite (proj1 (proj2 (flags_fields _ _ (callers_flags fin _)))).
    rewrite <- L1. destruct q; reflexivity. }
  destruct (_ && _); inversion H; subst; rewrite !filter_app, L2, CP; split; auto.
Qed.

Lemma X11_native_timeout_never_pings_witness :
  exists ret p' tr,
    BarPlayerThread true true sample_player [corrupt_after_1024; sample_session] []
    = Some (ret, p', tr)
    /\ ping p' = ping sample_player /\ filter is_ping tr = [].
Proof.
  eexists _, _, _. split; [reflexivity|].
  exact (X11_native_timeout_never_pings true sample_player
           [corrupt_after_1024; sample_session] [] _ _ _ eq_refl).
Defined.

(** ** The temporary file *)

Lemma avio_paths_app (a b : trace) : avio_paths (a ++ b) = avio_paths a ++ avio_paths b.
Proof. apply flat_map_app. Qed.

Lemma avio_paths_none (f : event -> bool) (t : trace) :
  (forall e, f e = true -> avio_path e = []) -> forallb f t = true -> avio_paths t = [].
Proof. apply flat_map_none. Qed.

Lemma openStream_track h p io ok p' tr :
  openStream h p io = (ok, p', tr) ->
  artist p' = artist p /\ title p' = title p
  /\ Forall (fun path => path = "/tmp/" +++ save_filename_of (artist p) (title p))
            (avio_paths tr).
Proof.
  unfold openStream, openStream_save, ping_now, softfail. intros H.
  destruct p; simpl in *. split_ifs H; inversion H; subst; simpl;
    repeat split; repeat constructor.
Qed.

Lemma body_track h c pret p s retry pret' p' tr :
  BarPlayerThread_body h c pret p s = Some (retry, pret', p', tr) ->
  artist p' = artist p /\ title p' = title p
  /\ Forall (fun path => path = "/tmp/" +++ save_filename_of (artist p) (title p))
            (avio_paths tr).
Proof.
  assert (SP : forall t, forallb setup_event t = true -> avio_paths t = [])
    by (intros t; apply avio_paths_none; by_kind).
  assert (FP : forall q, avio_paths (snd (finish q)) = []).
  { intros q. destruct (finish_keeps q) as (_ & _ & _ & _ & _ & _ & K).
    apply (avio_paths_none finish_event); auto. by_kind. }
  assert (FT : forall q, artist (fst (finish q)) = artist q
                         /\ title (fst (finish q)) = title q).
  { intros q. pose proof (finish_spec q) as K. destruct (finish q) as [q' t].
    destruct K as (-> & _). destruct q; simpl. auto. }
  intros H. apply body_inv in H
    as [(p1 & t1 & O & _ & _ & -> & ->)
       |[(p1 & t1 & p2 & t2 & O & E2 & E & _ & _ & -> & ->)
        |(p1 & t1 & p2 & t2 & p3 & t3 & r & p4 & t4 & O & F & D & P & _ & _ & -> & ->)]];
    destruct (openStream_track _ _ _ _ _ _ O) as (A1 & T1 & W1);
    rewrite !avio_paths_app, ?FP, ?app_nil_r.
  - destruct (FT p1) as (-> & ->). auto.
  - destruct (FT p2) as (-> & ->). rewrite (SP _ E), app_nil_r.
    repeat split; auto; rewrite E2; destruct p1; simpl in *; auto.
  - apply openFilter_spec in F as (F1 & F & _).
    apply openDevice_spec in D as (D1 & D & _).
    apply play_run_sound in P.
    pose proof (play_run_touch _ _ _ _ _ _ P) as T.
    apply play_run_events in P.
    destruct (FT p4) as (-> & ->).
    rewrite (SP _ F), (SP _ D), (avio_paths_none play_event t4), !app_nil_r;
      auto; try by_kind.
    assert (artist p4 = artist p1 /\ title p4 = title p1) as (-> & ->).
    { rewrite T, D1, F1. destruct p1; simpl. auto. }
    auto.
Qed.

Lemma loop_track h c ss :
  forall pret p ret p' tr,
  BarPlayerThread_loop h c pret p ss = Some (ret, p', tr) ->
  artist p' = artist p /\ title p' = title p
  /\ Forall (fun path => path = "/tmp/" +++ save_filename_of (artist p) (title p))
            (avio_paths tr).
Proof.
  induction ss as [|s ss IH]; intros pret p ret p' tr; simpl; [discriminate|].
  destruct (BarPlayerThread_body h c pret p s) as [[[[retry pret1] q] t]|] eqn:B;
    [|discriminate].
  destruct (body_track _ _ _ _ _ _ _ _ _ B) as (A & T & W).
  destruct retry.
  - intros H. apply prepend_some in H as (tr' & H & ->).
    destruct (IH _ _ _ _ _ H) as (A' & T' & W').
    rewrite avio_paths_app, A', T', A, T. repeat split; auto.
    apply Forall_app. split; auto. now rewrite A, T in W'.
  - intros H; inversion H; subst. auto.
Qed.

(** X12.  Every [avio_open2] of a run of [BarPlayerThread] is for the same
    path, ["/tmp/"] followed by the file name made of artist and title: the
    station and the save directory do not enter the temporary path, and each
    round that records opens this one file for writing again.  However many
    output contexts were opened, at most one trailer is written. *)
Theorem X12_one_temporary_path (h c : bool) (p : player_t) (ss : list session_io)
  (fin : list caller_act) (ret : BarPlayerRet) (p' : player_t) (tr : trace) :
  BarPlayerThread h c p ss fin = Some (ret, p', tr) ->
  Forall (fun path => path = "/tmp/" +++ save_filename_of (artist p) (title p))
         (avio_paths tr)
  /\ (List.length (filter is_trailer tr) <= 1)%nat.
Proof.
  unfold BarPlayerThread. intros H.
  destruct (BarPlayerThread_loop h c PLAYER_RET_OK p ss) as [[[pret q] t]|] eqn:L;
    [|discriminate].
  destruct (loop_track _ _ _ _ _ _ _ _ L) as (_ & _ & W).
  apply loop_events in L.
  assert (LT : filter is_trailer t = []) by (apply (filter_none loop_event); auto; by_kind).
  assert (CT : filter is_trailer (map EvCaller fin) = []
               /\ avio_paths (map EvCaller fin) = []).
  { split; [apply (filter_none gate_event) | apply (avio_paths_none gate_event)];
      auto using caller_is_gate; by_kind. }
  destruct CT as (CT & CP).
  destruct (_ && _); inversion H; subst;
    rewrite !avio_paths_app, !filter_app, LT, CT, CP; simpl;
    rewrite ?app_nil_r; split; auto.
Qed.

Lemma X12_one_temporary_path_witness :
  exists ret p' tr,
    BarPlayerThread false true sample_player [corrupt_after_1024; sample_session] []
    = Some (ret, p', tr)
    /\ avio_paths tr = ["/tmp/AC DC - Back in Black.aac"; "/tmp/AC DC - Back in Black.aac"]
    /\ (List.length (filter is_trailer tr) <= 1)%nat.
Proof.
  eexists _, _, _. split; [reflexivity|].
  destruct (X12_one_temporary_path false true sample_player
              [corrupt_after_1024; sample_session] [] _ _ _ eq_refl) as (_ & T).
  split; [reflexivity | exact T].
Defined.

(** ** File names *)

Lemma count_char_append c (s t : string) :
  count_char c (s +++ t) = (count_char c s + count_char c t)%nat.
Proof.
  induction s as [|d s IH]; simpl; [reflexivity|].
  rewrite IH. destruct (Ascii.eqb d c); reflexivity.
Qed.

Lemma count_char_replace c (s : string) :
  c <> "/"%char -> c <> " "%char -> count_char c (replace_slash s) = count_char c s.
Proof.
  intros N1 N2. induction s as [|d s IH]; simpl; [reflexivity|].
  rewrite IH. destruct (Ascii.eqb d "/") eqn:E; [|reflexivity].
  apply Ascii.eqb_eq in E. subst d.
  destruct (Ascii.eqb " " c) eqn:E1; [apply Ascii.eqb_eq in E1; congruence|].
  destruct (Ascii.eqb "/" c) eqn:E2; [apply Ascii.eqb_eq in E2; congruence|].
  reflexivity.
Qed.

(** X13.  The loop that blanks the separators of the file name changes
    nothing else: the name keeps its length, a name without ['/'] comes out
    as it went in, a second pass changes nothing, and every character other
    than ['/'] and the blank occurs as often after as before. *)
Theorem X13_replace_slash (s : string) (ch : ascii) :
  String.length (replace_slash s) = String.length s
  /\ replace_slash (replace_slash s) = replace_slash s
  /\ (count_slash s = O -> replace_slash s = s)
  /\ (ch <> "/"%char -> ch <> " "%char ->
      count_char ch (replace_slash s) = count_char ch s).
Proof.
  split; [|split; [|split]].
  - induction s as [|d s IH]; simpl; congruence.
  - induction s as [|d s IH]; simpl; [reflexivity|]. rewrite IH.
    destruct (Ascii.eqb d "/") eqn:E; simpl; [reflexivity | now rewrite E].
  - induction s as [|d s IH]; simpl; [reflexivity|].
    destruct (Ascii.eqb d "/"); simpl; [discriminate|]. intros H. now rewrite IH.
  - apply count_char_replace.
Qed.

Lemma X13_replace_slash_witness :
  replace_slash "Back in Black" = "Back in Black"
  /\ count_char "k" (replace_slash "AC/DC - Back in Black") = 2%nat.
Proof.
  destruct (X13_replace_slash "Back in Black" "k") as (_ & _ & H & _).
  destruct (X13_replace_slash "AC/DC - Back in Black" "k") as (_ & _ & _ & K).
  split; [apply H; reflexivity|].
  rewrite K; [reflexivity | discriminate | discriminate].
Defined.

Lemma last_char_append stray (s : string) (c : ascii) :
  last_char stray (s +++ String c EmptyString) = c.
Proof.
  revert stray. induction s as [|d s IH]; intros stray; simpl; auto.
Qed.

Lemma last_char_nonempty s1 s2 (s : string) :
  s <> EmptyString -> last_char s1 s = last_char s2 s.
Proof.
  destruct s as [|d s]; [congruence|]. reflexivity.
Qed.

(** X14.  For a save directory that is not the empty string the directory
    part of the recording path ends in ['/'], is the directory itself when
    that already ends in ['/'] (no second separator is added), does not
    depend on the byte in front of the buffer, and is not changed by a second
    pass.  Only for the empty string does the test read outside the string:
    the result is then the empty string or ["/"], as that byte decides. *)
Theorem X14_save_base (s1 s2 : ascii) (dir : string) :
  dir <> EmptyString ->
  last_char s1 (save_base s1 dir) = "/"%char
  /\ save_base s1 dir = save_base s2 dir
  /\ (last_char s1 dir = "/"%char -> save_base s1 dir = dir)
  /\ save_base s1 (save_base s1 dir) = save_base s1 dir
  /\ save_base s1 EmptyString = (if Ascii.eqb s1 "/" then EmptyString else "/").
Proof.
  intros N.
  assert (L : last_char s1 (save_base s1 dir) = "/"%char).
  { unfold save_base. destruct (Ascii.eqb (last_char s1 dir) "/") eqn:E.
    - now apply Ascii.eqb_eq.
    - apply last_char_append. }
  split; [exact L|]. split; [|split; [|split]].
  - unfold save_base. now rewrite (last_char_nonempty s1 s2 dir N).
  - intros E. unfold save_base. rewrite E. reflexivity.
  - unfold save_base at 1. rewrite L. reflexivity.
  - reflexivity.
Qed.

Lemma X14_save_base_witness :
  last_char "x" (save_base "x" "/music") = "/"%char
  /\ save_base "x" "/music" = save_base "/" "/music"
  /\ save_base "x" "/music/" = "/music/".
Proof.
  destruct (X14_save_base "x" "/" "/music" ltac:(discriminate)) as (H1 & H2 & _).
  destruct (X14_save_base "x" "/" "/music/" ltac:(discriminate)) as (_ & _ & H3 & _).
  split; [exact H1|]. split; [exact H2|]. apply H3. reflexivity.
Defined.

(** X15.  Nothing in the path from the track's artist and title to the shell
    escapes a double quote: the command handed to [system] holds the four
    quotes that delimit its two arguments, plus every double quote of the
    save path once and every double quote of the artist and of the title
    twice (once in each argument). *)
Theorem X15_quotes_reach_the_shell (art tit path : string) :
  count_char (ascii_of_nat 34)
    (mv_command ("/tmp/" +++ save_filename_of art tit)
                (path +++ save_filename_of art tit))
  = (4 + count_char (ascii_of_nat 34) path
     + 2 * (count_char (ascii_of_nat 34) art + count_char (ascii_of_nat 34) tit))%nat.
Proof.
  unfold mv_command, save_filename_of, dquote.
  rewrite !count_char_append.
  rewrite (count_char_replace (ascii_of_nat 34)) by discriminate.
  rewrite !count_char_append. simpl. lia.
Qed.

(** ** Time stamps that need no rescaling *)

Lemma av_rescale_q_same (a : Z) (q : AVRational) :
  0 < num q -> 0 < den q -> is_int (num q) && is_int (den q) = true ->
  INT64_MIN < a <= INT64_MAX ->
  av_rescale_q a q q = Some a.
Proof.
  intros Hn Hd Hi Ha. unfold av_rescale_q.
  apply andb_prop in Hi as (H1 & H2). rewrite H1, H2. cbn [andb].
  unfold av_rescale_rnd, is_int64.
  set (b := num q * den q). assert (Hb : 0 < b) by (unfold b; nia).
  assert (H0 : (Z.abs a * b + b / 2) / b = Z.abs a).
  { rewrite Z.div_add_l by lia.
    rewrite (Z.div_small (b / 2) b); [lia|].
    split; [apply Z.div_pos; lia | apply Z.div_lt_upper_bound; lia]. }
  rewrite H0. unfold INT64_MIN, INT64_MAX in *.
  destruct (- 2 ^ 63 <=? a) eqn:A1; [|lia].
  destruct (a <=? 2 ^ 63 - 1) eqn:A2; [|lia].
  destruct (a =? - 2 ^ 63) eqn:A3; [lia|].
  destruct (b <=? 0) eqn:E1; [lia|]. destruct (b <? 0) eqn:E2; [lia|].
  cbn [andb negb orb].
  destruct (2 ^ 63 - 1 <? Z.abs a) eqn:F; [lia|].
  destruct (a <? 0) eqn:S; f_equal; lia.
Qed.

Lemma openStream_ofcx h p io p' tr :
  openStream h p io = (true, p', tr) -> save_file p' = true ->
  ofcx p' = Some (mkOutput
                    (o_write_header io
                       (time_base (nth (Z.to_nat (o_find_best_stream io)) (o_streams io)
                                       garbage_stream)))
                    (o_ost_id io)).
Proof.
  unfold openStream, openStream_save, ping_now, softfail. intros H.
  destruct p; simpl in *. split_ifs H; inversion H; subst; simpl;
    intros E; try discriminate E; reflexivity.
Qed.

Lemma written_ids_app (a b : trace) : written_ids (a ++ b) = written_ids a ++ written_ids b.
Proof. apply flat_map_app. Qed.

Lemma written_ids_none (f : event -> bool) (t : trace) :
  (forall e, f e = true -> written_id e = []) -> forallb f t = true -> written_ids t = [].
Proof. apply flat_map_none. Qed.

(** Every packet written goes to the stream [ost->id] of the output. *)
Lemma play_run_ids h p ks r p' tr :
  play_run h p ks r p' tr ->
  forall out, ofcx p = Some out -> Forall (fun i => i = ost_id out) (written_ids tr).
Proof.
  induction 1; intros out O.
  - constructor.
  - rewrite (written_ids_none gate_event); auto using caller_is_gate. by_kind.
  - pose proof (ping_now_touch _ _ _ _ _ H0) as (_ & _ & _ & P & _).
    rewrite !written_ids_app, (written_ids_none gate_event),
      (written_ids_none is_ping t1); auto using caller_is_gate; try by_kind.
  - pose proof (ping_now_touch _ _ _ _ _ H0) as (_ & _ & _ & P & _).
    pose proof (ping_now_fields _ _ _ _ _ H0) as (_ & _ & _ & _ & O1).
    pose proof (flags_fields _ _ (callers_flags (k_caller k) p))
      as (_ & _ & _ & _ & O0 & _).
    rewrite !written_ids_app, (written_ids_none gate_event),
      (written_ids_none is_ping t1); auto using caller_is_gate; try by_kind.
    simpl. apply IHplay_run. congruence.
  - pose proof (ping_now_touch _ _ _ _ _ H0) as (_ & _ & _ & P & _).
    pose proof (ping_now_fields _ _ _ _ _ H0) as (_ & _ & _ & _ & O1).
    pose proof (flags_fields _ _ (callers_flags (k_caller k) p))
      as (_ & _ & _ & _ & O0 & _).
    pose proof (pause_gate_spec _ _ _ _ H4) as (_ & T2 & G & _).
    pose proof (decode_loop_spec _ _ _ _ _ H5) as (T3 & D & _).
    apply flags_fields in T2 as (_ & _ & _ & _ & O2 & _).
    apply flags_fields in T3 as (_ & _ & _ & _ & O3 & _).
    destruct (set_lastTimestamp_fields (pts (k_pkt k)) p3) as (_ & _ & _ & _ & O4 & _).
    rewrite !written_ids_app, (written_ids_none gate_event (map _ _)),
      (written_ids_none is_ping t1), (written_ids_none gate_event tg),
      (written_ids_none decode_event td); auto using caller_is_gate; try by_kind.
    simpl. apply Forall_app. split; [|apply IHplay_run; congruence].
    assert (O1' : ofcx p1 = Some out) by congruence.
    unfold tee in H3. rewrite O1' in H3.
    destruct (save_file p1); [|inversion H3; constructor].
    destruct (fctx p1) as [[|s0 l]|]; try discriminate.
    inversion H3; subst. repeat constructor.
Qed.

(** X16.  When stream 0 is the selected stream, its codec counts time in the
    stream's own time base (a positive fraction of two [int]s), the muxer
    keeps the time base proposed by [openStream], and every packet read from
    the stream carries time stamps (no [AV_NOPTS_VALUE], which is
    [INT64_MIN]), the tee changes no time stamp: the packets of the selected
    stream are written in the order of reading with their own pts and dts,
    all of them to the output stream [ost->id]. *)
Theorem X16_stamps_kept (h : bool) (p : player_t) (io : open_io)
  (p' : player_t) (tr0 : trace) (s0 : AVStream) (rest : list AVStream)
  (ks : list packet_io) (r : Z) (q : player_t) (tr : trace) :
  openStream h p io = (true, p', tr0) ->
  save_file p' = true ->
  o_find_best_stream io = 0 ->
  o_streams io = s0 :: rest ->
  codec_time_base s0 = time_base s0 ->
  o_write_header io (time_base s0) = time_base s0 ->
  0 < num (time_base s0) -> 0 < den (time_base s0) ->
  is_int (num (time_base s0)) && is_int (den (time_base s0)) = true ->
  play h p' ks = Some (r, q, tr) ->
  Forall (fun pkt => INT64_MIN < pts pkt <= INT64_MAX
                     /\ INT64_MIN < dts pkt <= INT64_MAX) (packets_read 0 tr) ->
  written tr = map (fun pkt => (Some (pts pkt), Some (dts pkt))) (packets_read 0 tr)
  /\ Forall (fun i => i = o_ost_id io) (written_ids tr).
Proof.
  intros O S I L C W Hn Hd Hi P St.
  destruct (openStream_ok _ _ _ _ _ O) as (_ & F & X & _).
  pose proof (openStream_ofcx _ _ _ _ _ O S) as OF.
  rewrite I, L in OF. simpl in OF. rewrite W in OF. rewrite L in F. rewrite I in X.
  apply play_run_sound in P.
  split.
  - rewrite (play_run_written _ _ _ _ _ _ P s0 rest _ S F OF), X in *. simpl.
    apply map_ext_in. intros pkt In'.
    rewrite Forall_forall in St. destruct (St pkt In') as (Hp & Hq).
    unfold tee_stamps. rewrite C.
    now rewrite !av_rescale_q_same.
  - apply (play_run_ids _ _ _ _ _ _ P _ OF).
Qed.

Lemma X16_stamps_kept_witness :
  exists r q tr,
    play false opened_player [packet_at 0; packet_at 1024; read_fails AVERROR_EOF]
    = Some (r, q, tr)
    /\ written tr = map (fun pkt => (Some (pts pkt), Some (dts pkt))) (packets_read 0 tr)
    /\ Forall (fun i => i = 0) (written_ids tr).
Proof.
  eexists _, _, _. split; [reflexivity|].
  apply (X16_stamps_kept false sample_player sample_open opened_player _
           (mkStream tb44100 tb44100) []
           [packet_at 0; packet_at 1024; read_fails AVERROR_EOF] _ _ _
           eq_refl eq_refl eq_refl eq_refl eq_refl eq_refl eq_refl eq_refl eq_refl
           eq_refl).
  repeat constructor; discriminate.
Defined.

(** ** The filter chain *)

Ltac case_conds :=
  repeat match goal with
         | |- context [if ?c then _ else _] => destruct c eqn:?; cbn
         end.

Ltac cond_props :=
  repeat match goal with
         | H : (_ <? _) = true |- _ => apply Z.ltb_lt in H
         | H : (_ <? _) = false |- _ => apply Z.ltb_ge in H
         | H : negb _ = true |- _ => apply negb_true_iff in H
         | H : negb _ = false |- _ => apply negb_false_iff in H
         | H : (_ =? _) = true |- _ => apply Z.eqb_eq in H
         | H : (_ =? _) = false |- _ => apply Z.eqb_neq in H
         end.

(** X17.  A failure to set the volume is reported and nothing more: whatever
    the volume command answers, and whichever of the two commands the build
    uses, [openFilter] returns the same result and leaves the same player.
    It succeeds exactly when the graph is allocated, the four filters are
    created, the three links are made and the graph is configured. *)
Theorem X17_volume_error_is_not_fatal (c c' : bool) (p : player_t) (io : filter_io)
  (v : Z) :
  fst (openFilter c' p (with_set_volume v io)) = fst (openFilter c p io)
  /\ (fst (fst (openFilter c p io)) = true <->
      f_graph_alloc io = true /\ 0 <= f_abuffer io /\ 0 <= f_volume io
      /\ 0 <= f_aformat io /\ 0 <= f_abuffersink io
      /\ f_link1 io = 0 /\ f_link2 io = 0 /\ f_link3 io = 0
      /\ 0 <= f_graph_config io).
Proof.
  unfold openFilter, with_set_volume, softfail. destruct io; cbn.
  split.
  - case_conds; reflexivity.
  - case_conds; cond_props;
      (split;
       [ intros H; try discriminate H; repeat split; (assumption || lia)
       | intros (A & ? & ? & ? & ? & ? & ? & ? & ?);
         try reflexivity; try congruence; lia ]).
Qed.

(** ** What the thread leaves alone *)

(** X18.  The thread never writes what the caller handed to it: the address
    of the stream, the names of station, artist and title and the recording
    directory are the same when [BarPlayerThread] returns, after any number
    of retried rounds and whatever the result; and the mode it leaves behind
    is [PLAYER_FINISHED]. *)
Theorem X18_inputs_untouched (h c : bool) (p : player_t) (ss : list session_io)
  (fin : list caller_act) (ret : BarPlayerRet) (p' : player_t) (tr : trace) :
  BarPlayerThread h c p ss fin = Some (ret, p', tr) ->
  inputs p' = inputs p /\ mode p' = PLAYER_FINISHED.
Proof.
  unfold BarPlayerThread.
  destruct (BarPlayerThread_loop h c PLAYER_RET_OK p ss) as [[[r p1] t1]|] eqn:L;
    [|discriminate].
  apply loop_inputs in L.
  pose proof (callers_flags fin (set_mode PLAYER_FINISHED p1)) as F.
  assert (E : inputs (callers fin (set_mode PLAYER_FINISHED p1)) = inputs p
              /\ mode (callers fin (set_mode PLAYER_FINISHED p1)) = PLAYER_FINISHED).
  { rewrite F. rewrite <- L. destruct p1; split; reflexivity. }
  destruct (_ && _); intros H1; inversion H1; subst; exact E.
Qed.

Lemma X18_inputs_untouched_witness :
  exists ret p' tr,
    BarPlayerThread false true sample_player [sample_session] [] = Some (ret, p', tr)
    /\ inputs p' = inputs sample_player /\ mode p' = PLAYER_FINISHED.
Proof.
  eexists _, _, _. split; [reflexivity|].
  exact (X18_inputs_untouched false true sample_player [sample_session] [] _ _ _ eq_refl).
Defined.
